(** * Allay for VS Code: a shallow embedding of the completion provider,
      [src/completionProvider.ts], and of the preview commands of the
      extension, with the properties of both.

    Strings are sequences of code units, modelled as [list ascii] (documents
    restricted to the Latin-1 range).  The regular expressions of the source
    are kept as syntax trees and run by a backtracking matcher that follows
    the ECMAScript priority order (leftmost start, greedy or lazy
    quantifiers, first alternative first). *)

From Stdlib Require Import Ascii String ZArith Lia Arith Bool List.
Import ListNotations.
Open Scope string_scope.
Open Scope list_scope.
Open Scope nat_scope.

(* ================================================================= *)
(** ** Strings *)

Abbreviation str := (list ascii).

Definition L (s : string) : list ascii := list_ascii_of_string s.
Coercion L : string >-> list.

Module Str.

Definition eqb (a b : str) : bool :=
  if list_eq_dec ascii_dec a b then true else false.

Fixpoint startsWith (p s : str) : bool :=
  match p, s with
  | [], _ => true
  | c :: p', x :: s' => Ascii.eqb c x && startsWith p' s'
  | _ :: _, [] => false
  end.

Definition endsWith (p s : str) : bool := startsWith (rev p) (rev s).

(** [s.substr(from, len)] *)
Definition substr (s : str) (from len : nat) : str := firstn len (skipn from s).

(** White space and line terminators of ECMAScript that fit in one byte:
    TAB, LF, VT, FF, CR, SP and NBSP. *)
Definition isSpace (c : ascii) : bool :=
  let n := nat_of_ascii c in
  ((9 <=? n) && (n <=? 13)) || (n =? 32) || (n =? 160).

Definition isLineTerminator (c : ascii) : bool :=
  let n := nat_of_ascii c in (n =? 10) || (n =? 13).

Fixpoint trimStart (s : str) : str :=
  match s with
  | c :: s' => if isSpace c then trimStart s' else s
  | [] => []
  end.

Definition trimEnd (s : str) : str := rev (trimStart (rev s)).

Definition trim (s : str) : str := trimEnd (trimStart s).

(** [s.split(sep)] for a one-character separator: never the empty list. *)
Fixpoint split (sep : ascii) (s : str) : list str :=
  match s with
  | [] => [[]]
  | c :: s' =>
      if Ascii.eqb c sep then [] :: split sep s'
      else match split sep s' with
           | w :: ws => (c :: w) :: ws
           | [] => [[c]]
           end
  end.

(** [lines.join(eol)] *)
Fixpoint join (sep : str) (l : list str) : str :=
  match l with
  | [] => []
  | [x] => x
  | x :: rest => x ++ sep ++ join sep rest
  end.

(** ASCII upper-casing: the canonical form the [i] flag compares, which
    never maps a code unit above 127 onto an ASCII one. *)
Definition upper (c : ascii) : ascii :=
  let n := nat_of_ascii c in
  if (97 <=? n) && (n <=? 122) then ascii_of_nat (n - 32) else c.

End Str.

(* ================================================================= *)
(** ** Regular expressions with ECMAScript matching order *)

Module Regex.

(** Members of a character class [[...]]. *)
Inductive citem :=
| One (c : ascii)            (* a single character *)
| Rng (lo hi : ascii)        (* lo-hi *)
| Sp                         (* \s *)
| NSp.                       (* \S *)

Inductive re :=
| Empty
| Char (c : ascii)
| Class (negated : bool) (items : list citem)
| Bol                        (* ^ *)
| Eol                        (* $ *)
| Seq (r1 r2 : re)
| Alt (r1 r2 : re)
| Star (greedy : bool) (r : re)
| Group (i : nat) (r : re).  (* capturing group number i *)

(** [r+], [r?] and a literal word, as derived forms. *)
Definition Plus (greedy : bool) (r : re) : re := Seq r (Star greedy r).
Definition Opt (r : re) : re := Alt r Empty.
Fixpoint Lit (w : str) : re :=
  match w with
  | [] => Empty
  | c :: w' => Seq (Char c) (Lit w')
  end.

Record flags := { ignoreCase : bool; multiline : bool }.

Definition noFlags : flags := {| ignoreCase := false; multiline := false |}.

(** A position inside the subject: the characters to the left (nearest
    first), the characters to the right, and the captures so far. *)
Record mstate := {
  seen : str;
  rest : str;
  caps : list (nat * str)
}.

Definition item_mem (x : ascii) (it : citem) : bool :=
  match it with
  | One c => Ascii.eqb x c
  | Rng lo hi => (nat_of_ascii lo <=? nat_of_ascii x) && (nat_of_ascii x <=? nat_of_ascii hi)
  | Sp => Str.isSpace x
  | NSp => negb (Str.isSpace x)
  end.

Definition char_ok (fl : flags) (c x : ascii) : bool :=
  if ignoreCase fl then Ascii.eqb (Str.upper x) (Str.upper c) else Ascii.eqb x c.

Definition class_ok (negated : bool) (items : list citem) (x : ascii) : bool :=
  xorb negated (existsb (item_mem x) items).

Definition step1 (ok : ascii -> bool) (s : mstate) : list mstate :=
  match rest s with
  | x :: tl => if ok x then [{| seen := x :: seen s; rest := tl; caps := caps s |}] else []
  | [] => []
  end.

Definition at_bol (fl : flags) (s : mstate) : bool :=
  match seen s with
  | [] => true
  | p :: _ => multiline fl && Str.isLineTerminator p
  end.

Definition at_eol (fl : flags) (s : mstate) : bool :=
  match rest s with
  | [] => true
  | x :: _ => multiline fl && Str.isLineTerminator x
  end.

(** The text consumed between two positions of one run. *)
Definition consumed (s s' : mstate) : str :=
  rev (firstn (length (seen s') - length (seen s)) (seen s')).

Definition set_cap (i : nat) (s s' : mstate) : mstate :=
  {| seen := seen s'; rest := rest s'; caps := (i, consumed s s') :: caps s' |}.

(** The iterations of a star whose body matches by [step]: an iteration
    that consumes nothing is dropped, as ECMAScript does, so the text left
    bounds their number. *)
Fixpoint iter (step : mstate -> list mstate) (greedy : bool) (n : nat) (s : mstate)
  : list mstate :=
  match n with
  | 0 => [s]
  | S n' =>
      let more :=
        flat_map (fun s' => if length (rest s') <? length (rest s)
                            then iter step greedy n' s' else [])
                 (step s) in
      if greedy then more ++ [s] else s :: more
  end.

(** All the ways [r] matches at position [s], best first: the head of the
    list is the match a backtracking engine returns.  Two simplifications,
    neither met by a pattern of the source: captures made inside a star are
    kept from one iteration to the next, and the [i] flag is applied to
    literal characters only, not to classes. *)
Fixpoint m (fl : flags) (r : re) (s : mstate) : list mstate :=
  match r with
  | Empty => [s]
  | Char c => step1 (char_ok fl c) s
  | Class neg items => step1 (class_ok neg items) s
  | Bol => if at_bol fl s then [s] else []
  | Eol => if at_eol fl s then [s] else []
  | Seq r1 r2 => flat_map (m fl r2) (m fl r1 s)
  | Alt r1 r2 => m fl r1 s ++ m fl r2 s
  | Star greedy r1 => iter (m fl r1) greedy (length (rest s)) s
  | Group i r1 => map (set_cap i s) (m fl r1 s)
  end.

(** A successful match: where it starts, the state where it ends. *)
Record result := {
  index : nat;
  final : mstate
}.

Fixpoint search_at (fl : flags) (r : re) (before after : str) : option result :=
  match m fl r {| seen := before; rest := after; caps := [] |} with
  | s' :: _ => Some {| index := length before; final := s' |}
  | [] =>
      match after with
      | [] => None
      | c :: after' => search_at fl r (c :: before) after'
      end
  end.

(** [text.match(r)] and [r.exec(text)] without the [g] flag. *)
Definition exec (fl : flags) (r : re) (text : str) : option result :=
  search_at fl r [] text.

Definition test (fl : flags) (r : re) (text : str) : bool :=
  match exec fl r text with Some _ => true | None => false end.

(** [match[i]] for a capturing group that took part in the match. *)
Definition group (i : nat) (res : result) : str :=
  match find (fun p => Nat.eqb (fst p) i) (caps (final res)) with
  | Some p => snd p
  | None => []
  end.

(** Index just after the match: the [lastIndex] a [g] regex is left with. *)
Definition lastIndex (res : result) : nat := length (seen (final res)).

(** The loop [while ((match = r.exec(text)) !== null) { ... }] of a regex
    with the [g] flag: every call resumes at [lastIndex].  A match that
    consumes nothing leaves [lastIndex] where it was, so the loop never
    ends: [None].  Every other round shortens the text left, so the fuel
    [exec_all] starts with is never used up. *)
Fixpoint exec_loop (fl : flags) (r : re) (fuel : nat) (before after : str)
  : option (list result) :=
  match fuel with
  | 0 => None
  | S fuel' =>
      match search_at fl r before after with
      | None => Some []
      | Some res =>
          if length (rest (final res)) <? length after
          then option_map (cons res)
                 (exec_loop fl r fuel' (seen (final res)) (rest (final res)))
          else None
      end
  end.

Definition exec_all (fl : flags) (r : re) (text : str) : option (list result) :=
  exec_loop fl r (S (length text)) [] text.

End Regex.

(* ================================================================= *)
(** ** Outcomes of a call *)

(** A call returns, throws, or never returns (the only loops of the source
    are the [exec] loops, which spin on a match that consumes nothing). *)
Inductive Res (A : Type) : Type :=
| Ok (a : A)
| Throw (e : str)
| Hang.

Arguments Ok {A} a.
Arguments Throw {A} e.
Arguments Hang {A}.

Definition bind {A B : Type} (x : Res A) (k : A -> Res B) : Res B :=
  match x with
  | Ok a => k a
  | Throw e => Throw e
  | Hang => Hang
  end.

Notation "x <- e ;; k" := (bind e (fun x => k))
  (at level 61, e at next level, right associativity).

Definition loop_result {A : Type} (o : option A) : Res A :=
  match o with
  | Some a => Ok a
  | None => Hang
  end.

(* ================================================================= *)
(** ** The host interface ([vscode] and [path]) *)

Module Vscode.

Inductive CompletionItemKind :=
| KeywordKind | VariableKind | ConstantKind | FunctionKind
| FieldKind | FileKind | SnippetKind.

Record Position := { line : nat; character : nat }.

Record Range := { start : Position; stop : Position }.

Record Command := { command_id : str; title : str }.

Record CompletionItem := {
  label : str;
  kind : CompletionItemKind;
  detail : option str;
  documentation : option str;
  insertText : option str;
  range : option Range;
  filterText : option str;
  sortText : option str;
  preselect : bool;
  command : option Command
}.

(** [new vscode.CompletionItem(label, kind)] *)
Definition newItem (l : str) (k : CompletionItemKind) : CompletionItem :=
  {| label := l; kind := k; detail := None; documentation := None;
     insertText := None; range := None; filterText := None;
     sortText := None; preselect := false; command := None |}.

Definition withDetail (d : str) (it : CompletionItem) : CompletionItem :=
  {| label := label it; kind := kind it; detail := Some d;
     documentation := documentation it; insertText := insertText it;
     range := range it; filterText := filterText it; sortText := sortText it;
     preselect := preselect it; command := command it |}.

Definition withDocumentation (d : str) (it : CompletionItem) : CompletionItem :=
  {| label := label it; kind := kind it; detail := detail it;
     documentation := Some d; insertText := insertText it;
     range := range it; filterText := filterText it; sortText := sortText it;
     preselect := preselect it; command := command it |}.

(** [position.translate(lineDelta, characterDelta)]: the constructor of
    [Position] rejects a negative line or character. *)
Definition translate (p : Position) (dl dc : Z) : Res Position :=
  let l := (Z.of_nat (line p) + dl)%Z in
  let c := (Z.of_nat (character p) + dc)%Z in
  if (l <? 0)%Z then Throw "Illegal argument: line must be non-negative"
  else if (c <? 0)%Z then Throw "Illegal argument: character must be non-negative"
  else Ok {| line := Z.to_nat l; character := Z.to_nat c |}.

(** A document as the extension host keeps it: its lines and its
    end-of-line sequence. *)
Record TextDocument := { lines : list str; eol : str }.

Definition getText (d : TextDocument) : str := Str.join (eol d) (lines d).

(** [document.lineAt(position).text] *)
Definition lineAt (d : TextDocument) (p : Position) : Res str :=
  match nth_error (lines d) (line p) with
  | Some l => Ok l
  | None => Throw "Illegal value for `line`"
  end.

(** [document.getText(range)], the range first clamped to the document. *)
Definition validatePosition (d : TextDocument) (p : Position) : Position :=
  let n := length (lines d) in
  if n <=? line p
  then {| line := n - 1; character := length (nth (n - 1) (lines d) []) |}
  else {| line := line p;
          character := Nat.min (character p) (length (nth (line p) (lines d) [])) |}.

Definition getTextIn (d : TextDocument) (r : Range) : str :=
  let a := validatePosition d (start r) in
  let b := validatePosition d (stop r) in
  if line a =? line b
  then Str.substr (nth (line a) (lines d) []) (character a) (character b - character a)
  else skipn (character a) (nth (line a) (lines d) [])
       ++ flat_map (fun l => eol d ++ l)
            (firstn (line b - line a - 1) (skipn (S (line a)) (lines d)))
       ++ eol d ++ firstn (character b) (nth (line b) (lines d) []).

Record Uri := { fsPath : str }.

(** The workspace services the provider awaits.  [findFiles] is the file
    enumerator (glob pattern, result limit); opening a document may fail. *)
Record Workspace := {
  findFiles : str -> option nat -> list Uri;
  openTextDocument : Uri -> Res TextDocument;
  asRelativePath : Uri -> str
}.

End Vscode.

(** Node's [path] module, POSIX flavour. *)
Module Path.

Definition isSep (c : ascii) : bool := Ascii.eqb c "/".

Fixpoint dropSeps (s : str) : str :=
  match s with
  | c :: s' => if isSep c then dropSeps s' else s
  | [] => []
  end.

Fixpoint takeSegment (s : str) : str :=
  match s with
  | c :: s' => if isSep c then [] else c :: takeSegment s'
  | [] => []
  end.

(** Last segment of the path, trailing separators ignored. *)
Definition base (p : str) : str := rev (takeSegment (dropSeps (rev p))).

(** Index of the last dot of a name, from its start. *)
Fixpoint lastDot (b : str) (i : nat) (found : option nat) : option nat :=
  match b with
  | [] => found
  | c :: b' => lastDot b' (S i) (if Ascii.eqb c "." then Some i else found)
  end.

(** Where the extension of a base name starts: no extension when there is
    no dot, when the only dot leads the name, or for [..]. *)
Definition extStart (b : str) : option nat :=
  match lastDot b 0 None with
  | Some 0 => None
  | Some i => if Str.eqb b ".." then None else Some i
  | None => None
  end.

Definition extname (p : str) : str :=
  match extStart (base p) with
  | Some i => skipn i (base p)
  | None => []
  end.

(** [path.parse] scans an absolute path from its end down to its second
    character only, so a base [..] that starts there is not recognised as
    the parent directory: for [/..], alone or followed by separators, the
    parsed name is [.] and the parsed extension [.]. *)
Definition rootParent (p : str) : bool :=
  match p with
  | a :: b :: c :: rest =>
      isSep a && Ascii.eqb b "." && Ascii.eqb c "." && forallb isSep rest
  | _ => false
  end.

(** [path.parse(p).name] *)
Definition parse_name (p : str) : str :=
  if rootParent p then "."
  else match extStart (base p) with
       | Some i => firstn i (base p)
       | None => base p
       end.

(** [path.basename(p, ext)] *)
Definition basename (p ext : str) : str :=
  match ext with
  | [] => base p
  | _ :: _ =>
      if Str.eqb ext p then []
      else if Str.endsWith ext (base p) && (length ext <? length (base p))
      then firstn (length (base p) - length ext) (base p)
      else base p
  end.

End Path.

(** A JavaScript [Set] of strings: membership, and iteration in insertion
    order. *)
Module JsSet.

Definition t := list str.

Definition empty : t := [].

Definition has (s : t) (x : str) : bool := existsb (Str.eqb x) s.

Definition add (s : t) (x : str) : t := if has s x then s else s ++ [x].

(** [new Set(iterable)] *)
Definition of_list (l : list str) : t := fold_left add l empty.

End JsSet.

(* ================================================================= *)
(** ** The completion provider *)

Module Provider.

Import Regex Vscode.

(** *** The patterns of the source *)

Definition ws : re := Class false [Sp].                  (* \s *)
Definition alnum : list citem := [Rng "a" "z"; Rng "A" "Z"; Rng "0" "9"].
Definition quote : ascii := "034"%char.

(** [/\{-(?:\s* )(?:include|extends)\s+Q([^Q]* )$/], [Q] the double quote *)
Definition includeRegex : re :=
  Seq (Lit "{-")
 (Seq (Star true ws)
 (Seq (Alt (Lit "include") (Lit "extends"))
 (Seq (Plus true ws)
 (Seq (Char quote)
 (Seq (Group 1 (Star true (Class true [One quote])))
      Eol))))).

(** [/(\{:|\{-)([^}]+)$/] *)
Definition openBlockRegex : re :=
  Seq (Group 1 (Alt (Lit "{:") (Lit "{-")))
 (Seq (Group 2 (Plus true (Class true [One "}"])))
      Eol).

(** [/([a-zA-Z0-9_.]* )\.$/] *)
Definition dotRegex : re :=
  Seq (Group 1 (Star true (Class false (alnum ++ [One "_"; One "."]))))
 (Seq (Char ".")
      Eol).

(** [/\{-([^}]* )$/] *)
Definition commandRegex : re :=
  Seq (Lit "{-") (Seq (Group 1 (Star true (Class true [One "}"]))) Eol).

(** [/\{:([^}]* )$/] *)
Definition expressionRegex : re :=
  Seq (Lit "{:") (Seq (Group 1 (Star true (Class true [One "}"]))) Eol).

(** [/\{<\/?([^>}]* )$/] *)
Definition shortcodeRegex : re :=
  Seq (Lit "{<")
 (Seq (Opt (Char "/"))
 (Seq (Group 1 (Star true (Class true [One ">"; One "}"])))
      Eol)).

(** [/\{-\s*(?:set|for)\s+([\$a-zA-Z0-9_,\s]+)(?:=|:)/g] *)
Definition varRegex : re :=
  Seq (Lit "{-")
 (Seq (Star true ws)
 (Seq (Alt (Lit "set") (Lit "for"))
 (Seq (Plus true ws)
 (Seq (Group 1 (Plus true (Class false (One "$" :: alnum ++ [One "_"; One ","; Sp]))))
      (Alt (Char "=") (Char ":")))))).

(** [/\[Param\]([\s\S]*?)(?:\[|$)/i] *)
Definition paramBlockRegex : re :=
  Seq (Lit "[Param]")
 (Seq (Group 1 (Star false (Class false [Sp; NSp])))
      (Alt (Char "[") Eol)).
Definition paramBlockFlags : flags := {| ignoreCase := true; multiline := false |}.

Definition keyChars : list citem := alnum ++ [One "_"; One "-"].
Definition keyFlags : flags := {| ignoreCase := false; multiline := true |}.

(** [/^\s*([a-zA-Z0-9_-]+)\s*=/gm] *)
Definition configKeyRegex : re :=
  Seq Bol
 (Seq (Star true ws)
 (Seq (Group 1 (Plus true (Class false keyChars)))
 (Seq (Star true ws)
      (Char "=")))).

(** [/^---\s*([\s\S]*?)\s*---/] *)
Definition yamlRegex : re :=
  Seq Bol
 (Seq (Lit "---")
 (Seq (Star true ws)
 (Seq (Group 1 (Star false (Class false [Sp; NSp])))
 (Seq (Star true ws)
      (Lit "---"))))).

(** [/^\s*([a-zA-Z0-9_-]+):/gm] *)
Definition yamlKeyRegex : re :=
  Seq Bol
 (Seq (Star true ws)
 (Seq (Group 1 (Plus true (Class false keyChars)))
      (Char ":"))).

(** *** Helpers *)

(** [createFieldItem] *)
Definition createFieldItem (l doc : str) : CompletionItem :=
  withDetail doc (newItem l FieldKind).

(** *** Block snippets *)

Definition retriggerCommand : Command :=
  {| command_id := "editor.action.triggerSuggest"; title := "Re-trigger suggestions" |}.

Definition snippet (l d ins filter sort : str) (pre : bool) (r : Range)
  : CompletionItem :=
  {| label := l; kind := SnippetKind; detail := Some d; documentation := None;
     insertText := Some ins; range := Some r; filterText := Some filter;
     sortText := Some sort; preselect := pre; command := Some retriggerCommand |}.

Definition newline : str := ["010"%char].
Definition tab : str := ["009"%char].

(** [getBlockCompletions]: [None] is the source's [undefined]. *)
Definition getBlockCompletions (linePrefix : str) (position : Position)
           (document : TextDocument) : Res (option (list CompletionItem)) :=
  startPos <- translate position 0 (-1) ;;
  next <- translate position 0 1 ;;
  let nextChar := getTextIn document {| start := position; stop := next |} in
  let endPos := if Str.eqb nextChar "}" then next else position in
  let replaceRange := {| start := startPos; stop := endPos |} in
  if Str.endsWith "{-" linePrefix then
    Ok (Some [snippet "{- command -}" "Allay Command Block" "- $0 -}" "-" "001"
                      true replaceRange])
  else if Str.endsWith "{:" linePrefix then
    Ok (Some [snippet "{: expression :}" "Allay Expression Block" ": $0 :}" ":" "001"
                      true replaceRange])
  else if Str.endsWith "{<" linePrefix then
    Ok (Some [snippet "{< shortcode >}" "Shortcode Call" "< $1 >}$0" "<" "001"
                      false replaceRange;
              snippet "{< shortcode />}" "Self-closing Shortcode" "< $1 />}" "<" "002"
                      false replaceRange;
              snippet "{< pair >}...{</ pair >}" "Shortcode Block Pair"
                      ("< $1 >}" ++ newline ++ tab ++ "$0" ++ newline ++ "{</ $1 >}")
                      "<" "003" false replaceRange])
  else Ok None.

(** *** Keyword tables *)

Definition getControlKeywords : list CompletionItem :=
  map (fun word : string => withDetail "Allay Command" (newItem word KeywordKind))
      ["set"; "for"; "with"; "if"; "else if"; "else"; "end";
       "include"; "extends"; "get"; "param"]%string.

Definition getOutputKeywords : list CompletionItem :=
  [withDocumentation ("Define a block for template inheritance: `{: block "
                        ++ [quote] ++ "name" ++ [quote] ++ " :}`")
     (withDetail "Allay Block Definition" (newItem "block" KeywordKind))].

(** *** Common expressions *)

Definition staticExpressions : list CompletionItem :=
  map (fun v : string => withDetail "Allay Built-in Variable" (newItem v VariableKind))
      ["this"; "site"; "pages"; "param"]%string
  ++ map (fun c : string => withDetail "Allay Constant" (newItem c ConstantKind))
      ["null"]%string
  ++ map (fun f : string => withDetail "Allay Built-in Function" (newItem f FunctionKind))
      ["len"; "slice"; "append"; "list"; "format_date"; "truncate"]%string
  ++ map (fun f : string => withDetail "Allay Keyword" (newItem f FunctionKind))
      ["end"]%string.

Definition userVariable (v : str) : CompletionItem :=
  withDetail "User Defined Variable" (newItem v VariableKind).

(** [match[1].split(',').map(v => v.trim()).filter(v => v.startsWith('$'))] *)
Definition sigilTokens (captured : str) : list str :=
  filter (Str.startsWith "$") (map Str.trim (Str.split "," captured)).

(** The body of [vars.forEach]: the items and the label set, both updated. *)
Definition addVariable (st : list CompletionItem * JsSet.t) (v : str)
  : list CompletionItem * JsSet.t :=
  let '(items, existingLabels) := st in
  if JsSet.has existingLabels v then st
  else (items ++ [userVariable v], JsSet.add existingLabels v).

(** The body of the [while] loop, for one match. *)
Definition scanMatch (st : list CompletionItem * JsSet.t) (mt : result)
  : list CompletionItem * JsSet.t :=
  fold_left addVariable (sigilTokens (group 1 mt)) st.

Definition getCommonExpressions (document : TextDocument) : Res (list CompletionItem) :=
  let items := staticExpressions in
  let text := getText document in
  let existingLabels := JsSet.of_list (map label items) in
  matches <- loop_result (exec_all noFlags varRegex text) ;;
  Ok (fst (fold_left scanMatch matches (items, existingLabels))).

(** *** External lookups *)

Definition getTemplateFileCompletions (w : Workspace) : list CompletionItem :=
  let files := findFiles w "**/templates/*.{html,md}" None in
  map (fun file =>
         let name := Path.parse_name (fsPath file) in
         withDocumentation ("Located at: `" ++ asRelativePath w file ++ "`")
           (withDetail "Template File" (newItem name FileKind)))
      files.

Definition getShortcodeCompletions (w : Workspace) : list CompletionItem :=
  let files := findFiles w "**/shortcodes/*.{html,md}" None in
  let shortcodeNames :=
    fold_left (fun names file =>
                 let name := Path.basename (fsPath file) (Path.extname (fsPath file)) in
                 JsSet.add names name)
              files JsSet.empty in
  map (fun name =>
         withDocumentation ("Shortcode defined in **shortcodes/" ++ name ++ ".(md|html)**")
           (withDetail "Allay Shortcode" (newItem name SnippetKind)))
      shortcodeNames.

(** *** Field completions *)

(** The [try] block of [getAllayConfigKeys]: the items pushed so far and
    how the block ended. *)
Definition scanConfig (w : Workspace) (file : Uri) (items : list CompletionItem)
  : list CompletionItem * Res unit :=
  match openTextDocument w file with
  | Throw e => (items, Throw e)
  | Hang => (items, Hang)
  | Ok doc =>
      let text := getText doc in
      match exec paramBlockFlags paramBlockRegex text with
      | Some mt =>
          let paramContent := group 1 mt in
          match exec_all keyFlags configKeyRegex paramContent with
          | Some keyMatches =>
              (items ++ map (fun keyMatch =>
                               createFieldItem (group 1 keyMatch) "Config from allay.toml")
                            keyMatches,
               Ok tt)
          | None => (items, Hang)
          end
      | None => (items, Ok tt)
      end
  end.

Definition getAllayConfigKeys (w : Workspace) : Res (list CompletionItem) :=
  let items := [] in
  match findFiles w "allay.toml" (Some 1) with
  | [] => Ok []
  | file :: _ =>
      match scanConfig w file items with
      | (items', Ok _) => Ok items'
      | (items', Throw _) => Ok items'      (* caught: console.error *)
      | (_, Hang) => Hang
      end
  end.

Definition standardFields : list str :=
  map L ["title"; "date"; "description"; "tags"; "template"; "url"; "head"; "content"]%string.

Definition getMarkdownPageKeys (document : TextDocument) : Res (list CompletionItem) :=
  let items := map (fun field => createFieldItem field "Standard Page Metadata")
                   standardFields in
  let existingKeys := fold_left JsSet.add standardFields JsSet.empty in
  let text := getText document in
  match exec noFlags yamlRegex text with
  | Some yamlMatch =>
      let yamlContent := group 1 yamlMatch in
      keyMatches <- loop_result (exec_all keyFlags yamlKeyRegex yamlContent) ;;
      Ok (fold_left
            (fun items keyMatch =>
               let key := group 1 keyMatch in
               if negb (JsSet.has existingKeys key)
               then items ++ [createFieldItem key "Front-matter variable from current file"]
               else items)
            keyMatches items)
  | None => Ok items
  end.

Definition getFieldCompletions (w : Workspace) (parent : str) (document : TextDocument)
  : Res (list CompletionItem) :=
  if Str.eqb parent "site" then
    Ok [createFieldItem "param" "Global configurations from allay.toml";
        createFieldItem "pages" "List of all markdown pages"]
  else if Str.eqb parent "site.param" then
    getAllayConfigKeys w
  else if Str.eqb parent "" || Str.endsWith "page" parent then
    getMarkdownPageKeys document
  else Ok [].

(** *** The request orchestrator *)

(** [None] is the source's [undefined]: no opinion, the host falls back
    on its own suggestions. *)
Definition provideCompletionItems (w : Workspace) (document : TextDocument)
           (position : Position) : Res (option (list CompletionItem)) :=
  lineText <- lineAt document position ;;
  let linePrefix := Str.substr lineText 0 (character position) in
  blockCompletion <- getBlockCompletions linePrefix position document ;;
  let allItems := match blockCompletion with Some l => l | None => [] end in
  if test noFlags includeRegex linePrefix then
    let pathItems := getTemplateFileCompletions w in
    Ok (Some (allItems ++ pathItems))
  else
    let dotAccess :=
      if test noFlags openBlockRegex linePrefix
      then exec noFlags dotRegex linePrefix else None in
    match dotAccess with
    | Some dotMatch =>
        fieldItems <- getFieldCompletions w (group 1 dotMatch) document ;;
        Ok (Some (allItems ++ fieldItems))
    | None =>
        items3 <-
          (if test noFlags commandRegex linePrefix
           then commonExpressions <- getCommonExpressions document ;;
                Ok (allItems ++ getControlKeywords ++ commonExpressions)
           else Ok allItems) ;;
        items4 <-
          (if test noFlags expressionRegex linePrefix
           then commonExpressions <- getCommonExpressions document ;;
                Ok (items3 ++ getOutputKeywords ++ commonExpressions)
           else Ok items3) ;;
        let items5 :=
          if test noFlags shortcodeRegex linePrefix
          then items4 ++ getShortcodeCompletions w
          else items4 in
        Ok (match items5 with [] => None | _ :: _ => Some items5 end)
    end.

End Provider.

(* ================================================================= *)
(** ** The variable scan on the heap *)

(** [getCommonExpressions] once more, as the source runs it: on objects of
    a heap that outlives the call.  The array [items], the set
    [existingLabels] and the regex [varRegex], whose [lastIndex] every
    [exec] reads and writes, are objects of a store; a call starts from the
    store the calls before it left behind. *)
Module Stateful.

Import Regex Vscode Provider.

Inductive Obj :=
| ArrayObj (elements : list CompletionItem)
| SetObj (elements : JsSet.t)
| RegExpObj (lastIndex : nat).

Definition Ref := nat.

(** The objects allocated so far; [next] is the first free reference. *)
Record Store := { next : Ref; objs : Ref -> option Obj }.

Definition emptyStore : Store := {| next := 0; objs := fun _ => None |}.

Definition alloc (o : Obj) (h : Store) : Ref * Store :=
  (next h,
   {| next := S (next h);
      objs := fun r => if r =? next h then Some o else objs h r |}).

Definition write (ref : Ref) (o : Obj) (h : Store) : Store :=
  {| next := next h;
     objs := fun r => if r =? ref then Some o else objs h r |}.

Definition arrayOf (ref : Ref) (h : Store) : list CompletionItem :=
  match objs h ref with Some (ArrayObj l) => l | _ => [] end.

Definition setOf (ref : Ref) (h : Store) : JsSet.t :=
  match objs h ref with Some (SetObj s) => s | _ => JsSet.empty end.

Definition lastIndexOf (ref : Ref) (h : Store) : nat :=
  match objs h ref with Some (RegExpObj i) => i | _ => 0 end.

(** [items.push(item)] *)
Definition push (items : Ref) (item : CompletionItem) (h : Store) : Store :=
  write items (ArrayObj (arrayOf items h ++ [item])) h.

(** [existingLabels.add(v)] *)
Definition setAdd (set : Ref) (v : str) (h : Store) : Store :=
  write set (SetObj (JsSet.add (setOf set h) v)) h.

(** [regex.exec(text)] for a regex with the [g] flag: the search starts at
    the [lastIndex] of the object, which is left just after the match, or
    at 0 when none is found. *)
Definition execG (fl : flags) (r : re) (regex : Ref) (text : str) (h : Store)
  : option result * Store :=
  let i := lastIndexOf regex h in
  if length text <? i then (None, write regex (RegExpObj 0) h)
  else match search_at fl r (rev (firstn i text)) (skipn i text) with
       | Some res => (Some res, write regex (RegExpObj (Regex.lastIndex res)) h)
       | None => (None, write regex (RegExpObj 0) h)
       end.

(** The body of [vars.forEach]. *)
Definition addVariable (items existingLabels : Ref) (h : Store) (v : str) : Store :=
  if JsSet.has (setOf existingLabels h) v then h
  else setAdd existingLabels v (push items (userVariable v) h).

(** The [while] loop; the fuel bounds the rounds, [Hang] when it runs out. *)
Fixpoint scan (fuel : nat) (regex items existingLabels : Ref) (text : str) (h : Store)
  : Res unit * Store :=
  match fuel with
  | 0 => (Hang, h)
  | S fuel' =>
      match execG noFlags varRegex regex text h with
      | (None, h1) => (Ok tt, h1)
      | (Some mt, h1) =>
          scan fuel' regex items existingLabels text
               (fold_left (addVariable items existingLabels)
                          (sigilTokens (group 1 mt)) h1)
      end
  end.

Definition getCommonExpressions (document : TextDocument) (h : Store)
  : Res (list CompletionItem) * Store :=
  let (items, h1) := alloc (ArrayObj []) h in
  let h2 := fold_left (fun h item => push items item h) staticExpressions h1 in
  let text := getText document in
  let (existingLabels, h3) :=
    alloc (SetObj (JsSet.of_list (map label (arrayOf items h2)))) h2 in
  let (regex, h4) := alloc (RegExpObj 0) h3 in
  match scan (S (length text)) regex items existingLabels text h4 with
  | (Ok _, h5) => (Ok (arrayOf items h5), h5)
  | (Throw e, h5) => (Throw e, h5)
  | (Hang, h5) => (Hang, h5)
  end.

End Stateful.

(* ================================================================= *)
(** ** The extension: preview panel and server process *)

(** The commands of [extension.ts] keep two module variables, the server
    process and the preview panel.  The host is modelled by the effects the
    commands have on it, in order; processes and panels are named by the
    order of their creation.  The listeners on the output of the server,
    which only log, are left out. *)
Module Extension.

Definition ALLAY_PORT : Z := 8000%Z.

Inductive Effect :=
| LogInfo (message : str)
| LogError (message : str)
| ShowErrorMessage (message : str)
| ShowInformationMessage (message : str)
| Spawn (process : nat) (executable : str) (args : list str) (cwd : str)
| Kill (process : nat)
| CreateWebviewPanel (panel : nat)
| Reveal (panel : nat)
| SetHtml (panel : nat) (port : Z)
| DisposePanel (panel : nat)
| OpenExternal (url : str).

(** What a command reads from the host: the workspace folders
    ([undefined] is [None]) and the setting [allay.path]. *)
Record Env := {
  workspaceFolders : option (list str);
  configuredPath : option str
}.

Record State := {
  serverProcess : option nat;
  previewPanel : option nat;
  nextProcess : nat;
  nextPanel : nat;
  effects : list Effect
}.

Definition initial : State :=
  {| serverProcess := None; previewPanel := None;
     nextProcess := 0; nextPanel := 0; effects := [] |}.

Definition emit (e : Effect) (st : State) : State :=
  {| serverProcess := serverProcess st; previewPanel := previewPanel st;
     nextProcess := nextProcess st; nextPanel := nextPanel st;
     effects := effects st ++ [e] |}.

Definition setServerProcess (p : option nat) (st : State) : State :=
  {| serverProcess := p; previewPanel := previewPanel st;
     nextProcess := nextProcess st; nextPanel := nextPanel st;
     effects := effects st |}.

Definition setPreviewPanel (p : option nat) (st : State) : State :=
  {| serverProcess := serverProcess st; previewPanel := p;
     nextProcess := nextProcess st; nextPanel := nextPanel st;
     effects := effects st |}.

(** [spawn(...)]: a new process handle. *)
Definition spawn (executable : str) (args : list str) (cwd : str) (st : State)
  : nat * State :=
  let process := nextProcess st in
  (process,
   {| serverProcess := serverProcess st; previewPanel := previewPanel st;
      nextProcess := S process; nextPanel := nextPanel st;
      effects := effects st ++ [Spawn process executable args cwd] |}).

(** [vscode.window.createWebviewPanel(...)]: a new panel. *)
Definition createWebviewPanel (st : State) : nat * State :=
  let panel := nextPanel st in
  (panel,
   {| serverProcess := serverProcess st; previewPanel := previewPanel st;
      nextProcess := nextProcess st; nextPanel := S panel;
      effects := effects st ++ [CreateWebviewPanel panel] |}).

(** [config.get('path') || 'allay']: the default also replaces the empty
    string. *)
Definition allayExecutable (env : Env) : str :=
  match configuredPath env with
  | Some path => if Str.eqb path [] then L "allay" else path
  | None => L "allay"
  end.

(** The first workspace folder, when there is one. *)
Definition projectRootOf (env : Env) : option str :=
  match workspaceFolders env with
  | Some (folder :: _) => Some folder
  | Some [] | None => None
  end.

Definition startService (env : Env) (projectRoot : str) (st : State) : State :=
  let st1 :=
    match serverProcess st with
    | Some process =>
        emit (Kill process) (emit (LogInfo "Killing existing Allay server process.") st)
    | None => st
    end in
  let executable := allayExecutable env in
  let st2 := emit (ShowInformationMessage ("Using Allay executable at: " ++ executable)) st1 in
  let st3 := emit (LogInfo ("Using Allay executable at: " ++ executable)) st2 in
  let (process, st4) := spawn executable [L "--root"; projectRoot; L "serve"] projectRoot st3 in
  setServerProcess (Some process) st4.

Definition previewCommand (env : Env) (st : State) : State :=
  match projectRootOf env with
  | None =>
      emit (ShowErrorMessage "Please open a workspace folder to use Allay Preview.")
           (emit (LogError "No workspace folder is open.") st)
  | Some projectRoot =>
      let st1 := emit (LogInfo ("Using workspace folder: " ++ projectRoot)) st in
      match previewPanel st1 with
      | Some panel =>
          emit (Reveal panel) (emit (LogInfo "Revealing existing preview panel.") st1)
      | None =>
          let st2 := emit (LogInfo "Creating new preview panel.") st1 in
          let (panel, st3) := createWebviewPanel st2 in
          let st4 := setPreviewPanel (Some panel) st3 in
          let st5 := startService env projectRoot st4 in
          emit (SetHtml panel ALLAY_PORT) st5
      end
  end.

Definition restartCommand (env : Env) (st : State) : State :=
  match serverProcess st with
  | None => st
  | Some process =>
      let st1 := emit (Kill process) st in
      match projectRootOf env with
      | None => st1
      | Some projectRoot =>
          let st2 := startService env projectRoot st1 in
          let st3 := emit (ShowInformationMessage "Allay Service Restarted") st2 in
          match previewPanel st3 with
          | Some panel => emit (SetHtml panel ALLAY_PORT) st3
          | None => st3
          end
      end
  end.

(** The listener of [previewPanel.onDidDispose]. *)
Definition onDidDispose (st : State) : State :=
  let st1 :=
    match serverProcess st with
    | Some process => setServerProcess None (emit (Kill process) st)
    | None => st
    end in
  setPreviewPanel None st1.

(** [deactivate]; disposing of the panel runs its dispose listener. *)
Definition deactivate (st : State) : State :=
  let st1 :=
    match serverProcess st with
    | Some process => emit (Kill process) st
    | None => st
    end in
  match previewPanel st1 with
  | Some panel => onDidDispose (emit (DisposePanel panel) st1)
  | None => st1
  end.

(** The listener of [previewPanel.webview.onDidReceiveMessage]. *)
Definition onDidReceiveMessage (command : str) (url : option str) (st : State) : State :=
  if Str.eqb command "openExternal" then
    match url with
    | Some u => if Str.eqb u [] then st else emit (OpenExternal u) st
    | None => st
    end
  else st.

(** What happens to the extension: its two commands, a message from the
    panel, the user closing the panel, and deactivation. *)
Inductive Event :=
| PreviewCommand
| RestartCommand
| WebviewMessage (command : str) (url : option str)
| PanelClosed
| Deactivate.

Definition step (env : Env) (ev : Event) (st : State) : State :=
  match ev with
  | PreviewCommand => previewCommand env st
  | RestartCommand => restartCommand env st
  | WebviewMessage command url =>
      match previewPanel st with
      | Some _ => onDidReceiveMessage command url st
      | None => st
      end
  | PanelClosed =>
      match previewPanel st with
      | Some _ => onDidDispose st
      | None => st
      end
  | Deactivate => deactivate st
  end.

Fixpoint run (events : list (Env * Event)) (st : State) : State :=
  match events with
  | [] => st
  | (env, ev) :: rest => run rest (step env ev st)
  end.

(** The processes started and not killed since. *)
Definition track (alive : list nat) (e : Effect) : list nat :=
  match e with
  | Spawn process _ _ _ => alive ++ [process]
  | Kill process => remove Nat.eq_dec process alive
  | _ => alive
  end.

Definition alive (l : list Effect) : list nat := fold_left track l [].

End Extension.

(* ================================================================= *)
(** ** Vocabulary of the statements *)

Import Regex Vscode Provider.

(** Case analysis over the 256 characters. *)
Ltac ascii_cases c :=
  destruct c as [[] [] [] [] [] [] [] []].

(** *** Positions of the matcher *)

(** The position a search tries: no capture yet. *)
Definition at_ (before after : str) : mstate :=
  {| seen := before; rest := after; caps := [] |}.

Definition mk (sn rs : str) (cs : list (nat * str)) : mstate :=
  {| seen := sn; rest := rs; caps := cs |}.

(** [s'] lies [w] further than [s] in the same subject. *)
Definition reaches (s s' : mstate) (w : str) : Prop :=
  rest s = w ++ rest s' /\ seen s' = rev w ++ seen s.

(** Patterns that may match the empty word. *)
Fixpoint nullable (r : re) : bool :=
  match r with
  | Empty | Bol | Eol | Star _ _ => true
  | Char _ | Class _ _ => false
  | Seq r1 r2 => nullable r1 && nullable r2
  | Alt r1 r2 => nullable r1 || nullable r2
  | Group _ r1 => nullable r1
  end.

(** Where a greedy run stops: at the end of the text or before a character
    that does not qualify. *)
Definition stops (ok : ascii -> bool) (r : str) : Prop :=
  match r with
  | [] => True
  | c :: _ => ok c = false
  end.

(** The end of the block pattern: blanks and the closing delimiter. *)
Definition closingPattern : re := Seq (Star true ws) (Lit "---").

(** *** Documents, cursors and workspaces of the statements *)

(** A one-line document, and the workspace with no files at all. *)
Definition oneLine (l : str) : TextDocument := {| lines := [l]; eol := newline |}.

(** A document given by its lines. *)
Definition document_of (ls : list string) : TextDocument :=
  {| lines := map L ls; eol := newline |}.

Definition cursor (l c : nat) : Position := {| line := l; character := c |}.

Definition labelsOf (items : list CompletionItem) : list str := map label items.

Definition emptyWorkspace : Workspace :=
  {| findFiles := fun _ _ => [];
     openTextDocument := fun _ => Throw "file not found";
     asRelativePath := fsPath |}.

(** A workspace whose template enumeration returns the given files. *)
Definition templatesWorkspace (files : list Uri) : Workspace :=
  {| findFiles := fun pattern _ =>
                    if Str.eqb pattern "**/templates/*.{html,md}" then files else [];
     openTextDocument := fun _ => Throw "file not found";
     asRelativePath := fsPath |}.

(** A workspace whose only file is the configuration file [config]. *)
Definition configWorkspace (config : TextDocument) : Workspace :=
  {| findFiles := fun pattern _ =>
                    if Str.eqb pattern "allay.toml"
                    then [ {| fsPath := "/site/allay.toml" |} ] else [];
     openTextDocument := fun _ => Ok config;
     asRelativePath := fsPath |}.

(** A workspace whose configuration file cannot be opened. *)
Definition unreadableWorkspace : Workspace :=
  {| findFiles := fun _ _ => [ {| fsPath := "/site/allay.toml" |} ];
     openTextDocument := fun _ => Throw "EACCES";
     asRelativePath := fsPath |}.

(** The two commands that take a template path. *)
Definition pathKeyword (k : str) : Prop := k = L "include" \/ k = L "extends".

Definition includePrefix : str := "{- include " ++ [quote] ++ "par".

(** *** Committing a snippet *)

Definition isDigit (c : ascii) : bool :=
  (48 <=? nat_of_ascii c) && (nat_of_ascii c <=? 57).

(** Modelled from the spec: the host's expansion of an insertion template.
    The tab stops [$n] leave no text; the result is the text to insert and
    the offset of the final cursor stop [$0] inside it, when there is one. *)
Fixpoint expand (template : str) : str * option nat :=
  match template with
  | [] => ([], None)
  | c :: t1 =>
      let keep := let (txt, stop) := expand t1 in (c :: txt, option_map S stop) in
      match t1 with
      | d :: t2 =>
          if Ascii.eqb c "$" && isDigit d
          then let (txt, stop) := expand t2 in
               (txt, if Ascii.eqb d "0" then Some 0 else stop)
          else keep
      | [] => keep
      end
  end.

(** Modelled from the spec: committing a candidate on a line replaces the
    characters of its replace span by the expanded template and puts the
    cursor on the final stop (after the inserted text when the template has
    none).  The result is the new line and the cursor column. *)
Definition commit (lineText : str) (span : Range) (template : str) : str * nat :=
  let a := character (start span) in
  let b := character (stop span) in
  let (txt, final) := expand template in
  (firstn a lineText ++ txt ++ skipn b lineText,
   a + match final with Some k => k | None => length txt end).

(** 1 when the text right of the cursor starts with a closing brace. *)
Definition closerAhead (post : str) : nat :=
  if Str.startsWith "}" post then 1 else 0.

(** *** First-seen order *)

Definition str_dec : forall a b : str, {a = b} + {a <> b} := list_eq_dec ascii_dec.

Definition differs (x y : str) : bool := negb (Str.eqb y x).

(** The distinct elements of a list, each at its first occurrence. *)
Fixpoint firstSeen (l : list str) : list str :=
  match l with
  | [] => []
  | x :: l' => x :: filter (differs x) (firstSeen l')
  end.

Definition absent (s : JsSet.t) (x : str) : bool := negb (JsSet.has s x).

(** The label each lookup derives from a file. *)
Definition shortcodeName (file : Uri) : str :=
  Path.basename (fsPath file) (Path.extname (fsPath file)).

Definition templateName (file : Uri) : str := Path.parse_name (fsPath file).

(** *** Documents with binding statements *)

(** The sigil-prefixed tokens of all the matches of the binding pattern, in
    document order. *)
Definition scannedNames (matches : list result) : list str :=
  flat_map (fun mt => sigilTokens (group 1 mt)) matches.

(** The labels of the static entries. *)
Definition staticLabels : list str :=
  map L ["this"; "site"; "pages"; "param"; "null"; "len"; "slice"; "append";
         "list"; "format_date"; "truncate"; "end"]%string.

(** The shape of the statements the variable scan is meant for, in the
    words of the specification: [set NAME, NAME... =] and
    [for NAME, NAME... :] inside a command block, each name a sigil and an
    identifier, with free spacing. *)
Module Template.

Inductive keyword := KwSet | KwFor.

Definition keywordText (k : keyword) : str :=
  match k with KwSet => "set" | KwFor => "for" end.

Definition separator (k : keyword) : ascii :=
  match k with KwSet => "=" | KwFor => ":" end.

Definition isIdentChar (c : ascii) : bool :=
  existsb (item_mem c) [Rng "a" "z"; Rng "A" "Z"; Rng "0" "9"; One "_"].

(** A bound name with the blanks around it. *)
Record name := { lead : str; ident : str; trail : str }.

Definition nameText (n : name) : str := "$" ++ ident n.

Definition renderName (n : name) : str := lead n ++ nameText n ++ trail n.

(** A statement up to its separator; the blanks before the first name
    separate it from the keyword. *)
Record binding := { kw : keyword; gap : str; first : name; others : list name }.

Definition nameList (b : binding) : str :=
  nameText (first b) ++ trail (first b)
  ++ flat_map (fun n => "," ++ renderName n) (others b).

Definition renderBinding (b : binding) : str :=
  "{-" ++ gap b ++ keywordText (kw b) ++ lead (first b) ++ nameList b
  ++ [separator (kw b)].

Definition wfName (n : name) : bool :=
  forallb Str.isSpace (lead n) && forallb isIdentChar (ident n)
  && forallb Str.isSpace (trail n).

Definition wfBinding (b : binding) : bool :=
  forallb Str.isSpace (gap b) && wfName (first b)
  && negb (Str.eqb (lead (first b)) []) && forallb wfName (others b).

Definition boundNames (b : binding) : list str :=
  map nameText (first b :: others b).

(** A command block opens a binding statement: [{-], blanks, [set] or
    [for], a blank. *)
Definition isKeyword (a b c : ascii) : bool :=
  (Ascii.eqb a "s" && Ascii.eqb b "e" && Ascii.eqb c "t")
  || (Ascii.eqb a "f" && Ascii.eqb b "o" && Ascii.eqb c "r").

Definition keywordThenSpace (s : str) : bool :=
  match s with
  | a :: b :: c :: d :: _ => isKeyword a b c && Str.isSpace d
  | _ => false
  end.

Definition opensBinding (s : str) : bool :=
  match s with
  | a :: b :: s1 =>
      Ascii.eqb a "{" && Ascii.eqb b "-" && keywordThenSpace (Str.trimStart s1)
  | _ => false
  end.

(** Text in which no binding statement opens. *)
Fixpoint quiet (t : str) : bool :=
  negb (opensBinding t) && match t with [] => true | _ :: t' => quiet t' end.

(** A document: text, then statements each followed by text. *)
Record document := { intro : str; statements : list (binding * str) }.

Definition renderStatements (l : list (binding * str)) : str :=
  flat_map (fun st => renderBinding (fst st) ++ snd st) l.

Definition render (d : document) : str := intro d ++ renderStatements (statements d).

Definition wf (d : document) : bool :=
  quiet (intro d)
  && forallb (fun st => wfBinding (fst st) && quiet (snd st)) (statements d).

(** The names the statements bind, in document order, repetitions kept. *)
Definition declaredNames (d : document) : list str :=
  flat_map (fun st => boundNames (fst st)) (statements d).

End Template.

Import Template.

(** The class of the capture group of the binding pattern. *)
Definition varClass : list citem :=
  One "$" :: alnum ++ [One "_"; One ","; Sp].

Definition inVarClass (c : ascii) : Prop := class_ok false varClass c = true.




Definition blank : str := " ".

(** A page with a loop: two statements bind [$item]. *)
Definition loopPage : Template.document :=
  {| intro := "<ul>";
     statements :=
       [ ({| kw := KwFor; gap := blank;
             first := {| lead := blank; ident := "item"; trail := [] |};
             others := [ {| lead := blank; ident := "i"; trail := blank |} ] |},
          L " site.pages -}<li>");
         ({| kw := KwSet; gap := blank;
             first := {| lead := blank; ident := "n"; trail := blank |};
             others := [] |},
          L " $i -}");
         ({| kw := KwSet; gap := [];
             first := {| lead := blank; ident := "item"; trail := [] |};
             others := [] |},
          L "1 -}</li>{- end -}</ul>") ] |}.

(** *** Configuration files *)

(** [p] read at the head of [s], letter case ignored. *)
Fixpoint prefixCI (p s : str) : bool :=
  match p, s with
  | [], _ => true
  | c :: p', x :: s' => Ascii.eqb (Str.upper x) (Str.upper c) && prefixCI p' s'
  | _ :: _, [] => false
  end.

Fixpoint occursCI (p s : str) : bool :=
  prefixCI p s || match s with [] => false | _ :: s' => occursCI p s' end.

(** The word [[Param]] occurs somewhere in the text, in any letter case:
    as a section header, or inside a comment or a value. *)
Definition mentionsParam (text : str) : bool := occursCI "[Param]" text.

(** A line that is the header of the section [name]: blanks aside, the
    line reads [[name]], in any letter case. *)
Definition isHeaderOf (name line : str) : bool :=
  prefixCI ("[" ++ name ++ "]") (Str.trim line)
  && (length (Str.trim line) =? length name + 2).

(** Three ways the scanner finds nothing to scan: no configuration file, a
    file that cannot be opened, a text in which [[Param]] occurs nowhere. *)
Inductive ConfigUnavailable (w : Workspace) : Prop :=
| NoConfigFile :
    findFiles w "allay.toml" (Some 1) = [] -> ConfigUnavailable w
| UnreadableConfig file others e :
    findFiles w "allay.toml" (Some 1) = file :: others ->
    openTextDocument w file = Throw e -> ConfigUnavailable w
| NoParamMention file others config :
    findFiles w "allay.toml" (Some 1) = file :: others ->
    openTextDocument w file = Ok config ->
    mentionsParam (getText config) = false -> ConfigUnavailable w.

(** A configuration whose [Param] section holds two keys, the first with an
    array value. *)
Definition arrayConfig : TextDocument :=
  document_of ["[Param]"; "tags = [1, 2]"; "year = 2024"; ""; "[Build]"; "out = 3"]%string.

(** Configurations with scalar values only, and without a [Param]
    header. *)
Definition plainConfig : TextDocument :=
  document_of ["[param]"; "author = 1"; "  year=2024"; ""; "[Build]"; "out = 3"]%string.

Definition headerlessConfig : TextDocument :=
  document_of ["title = 1"; "[Params]"; "author = 2"]%string.

(** A configuration with no [Param] section, whose leading comment says
    so. *)
Definition commentConfig : TextDocument :=
  document_of ["# this site has no [param] section"; "title = 1"; "";
               "[Build]"; "out = 3"]%string.

(** *** Documents with a front-matter block *)

(** The keys the scan finds in the leading [---] block of a text, in
    order ([None] if the key loop did not end). *)
Definition frontMatterKeys (text : str) : option (list str) :=
  match exec noFlags yamlRegex text with
  | Some yamlMatch =>
      option_map (map (group 1)) (exec_all keyFlags yamlKeyRegex (group 1 yamlMatch))
  | None => Some []
  end.

Definition standardItem (field : str) : CompletionItem :=
  createFieldItem field "Standard Page Metadata".

Definition customItem (key : str) : CompletionItem :=
  createFieldItem key "Front-matter variable from current file".

Definition pageScope (parent : str) : bool :=
  Str.eqb parent "" || Str.endsWith "page" parent.

(** A document-initial [---]-delimited block holding [identifier: value]
    lines, and two shapes of it: the blocks laid out in lines ([linewise]),
    and those the scan reads whole ([wf]: no [---] inside the content). *)
Module FrontMatter.

Record entry := { key : str; value : str }.

Definition renderEntry (e : entry) : str := key e ++ ":" ++ value e.

Definition isKeyChar (c : ascii) : bool :=
  existsb (item_mem c) [Rng "a" "z"; Rng "A" "Z"; Rng "0" "9"; One "_"; One "-"].

Definition inLine (c : ascii) : bool := negb (Str.isLineTerminator c).

Definition wfEntry (e : entry) : bool :=
  negb (Str.eqb (key e) []) && forallb isKeyChar (key e) && forallb inLine (value e).

(** [p] occurs in [s]. *)
Fixpoint occurs (p s : str) : bool :=
  Str.startsWith p s || match s with [] => false | _ :: s' => occurs p s' end.

Definition endsSolid (s : str) : bool :=
  match rev s with
  | c :: _ => negb (Str.isSpace c)
  | [] => false
  end.

(** The block: blanks after the opening delimiter, the entries one per
    line, blanks before the closing delimiter, the rest of the document. *)
Record block := {
  opening : str;
  entries : list entry;
  closing : str;
  remainder : str
}.

Definition content (b : block) : str :=
  Str.join newline (map renderEntry (entries b)).

Definition render (b : block) : str :=
  "---" ++ opening b ++ content b ++ closing b ++ "---" ++ remainder b.

(** The blocks the scan reads whole: blanks around the content, and no
    [---] inside it, so that the first [---] after the opening delimiter is
    the closing one. *)
Definition wf (b : block) : bool :=
  forallb Str.isSpace (opening b) && forallb Str.isSpace (closing b)
  && negb (Str.eqb (closing b) []) && forallb wfEntry (entries b)
  && negb (occurs "---" (content b)) && endsSolid (content b).

(** The blocks laid out in lines: the opening delimiter alone on the first
    line of the document, one entry per line, the closing delimiter alone
    on its line.  A value may hold any character of a line. *)
Definition linewise (b : block) : bool :=
  Str.eqb (opening b) newline && Str.eqb (closing b) newline
  && forallb wfEntry (entries b)
  && (Str.eqb (remainder b) [] || Str.startsWith newline (remainder b)).

Definition keys (b : block) : list str := map key (entries b).

(** A closing delimiter is next: blanks, then [---]. *)
Definition closesAt (s : str) : bool := Str.startsWith "---" (Str.trimStart s).

End FrontMatter.

Import FrontMatter.

(** A position inside a line, and one at the start of a line. *)
Definition midLine (before : str) : Prop :=
  exists p sn, before = p :: sn /\ Str.isLineTerminator p = false.

Definition lineStart (before : str) : Prop :=
  at_bol keyFlags (at_ before []) = true.

(** Pages with a custom key, once and twice. *)
Definition authorPage : TextDocument :=
  document_of ["---"; "title: Hello"; "author: me"; "---"; "{: ."]%string.

Definition twiceAuthorPage : TextDocument :=
  document_of ["---"; "author: me"; "title: Hello"; "author: you"; "---"; "{: ."]%string.

(** The block of [twiceAuthorPage]: [author] on two lines. *)
Definition twiceAuthorBlock : block :=
  {| opening := newline;
     entries := [ {| key := "author"; value := " me" |};
                  {| key := "title"; value := " Hello" |};
                  {| key := "author"; value := " you" |} ];
     closing := newline;
     remainder := newline ++ "{: ." |}.

(** Pages with [---] inside a value of the front matter: [title] and
    [author], and [author] on two lines. *)
Definition dashPage : TextDocument :=
  document_of ["---"; "title: Intro --- part one"; "author: me"; "---"; "{: ."]%string.

Definition dashBlock : block :=
  {| opening := newline;
     entries := [ {| key := "title"; value := " Intro --- part one" |};
                  {| key := "author"; value := " me" |} ];
     closing := newline;
     remainder := newline ++ "{: ." |}.

Definition twiceDashPage : TextDocument :=
  document_of ["---"; "author: me --- x"; "author: you"; "---"; "{: ."]%string.

Definition twiceDashBlock : block :=
  {| opening := newline;
     entries := [ {| key := "author"; value := " me --- x" |};
                  {| key := "author"; value := " you" |} ];
     closing := newline;
     remainder := newline ++ "{: ." |}.

(** *** Configuration files with a parameter section *)

(** Configuration files with a parameter section: a preamble, a [Param]
    header in any letter case, then [identifier = value] lines, each ended
    by a line feed, up to the next section header or the end of the file.
    The files the scanner reads whole ([wf]) have no [[Param]] in the
    preamble and no opening bracket in a value. *)
Module Config.

(** An entry line with the blanks in front of it (blank lines included),
    the blanks between the key and the equals sign, and the value up to
    the end of the line. *)
Record entry := { lead : str; key : str; gap : str; value : str }.

Definition renderEntry (e : entry) : str :=
  lead e ++ key e ++ gap e ++ "=" ++ value e ++ newline.

Definition noBracket (c : ascii) : bool := negb (Ascii.eqb c "[").

Definition plain (c : ascii) : bool := inLine c && noBracket c.

Definition wfEntry (e : entry) : bool :=
  forallb Str.isSpace (lead e)
  && negb (Str.eqb (key e) []) && forallb isKeyChar (key e)
  && forallb Str.isSpace (gap e) && forallb plain (value e).

(** The file: what precedes the header, the header, the entries, blanks,
    and what follows (nothing, or the next section from its bracket on). *)
Record file := {
  preamble : str;
  header : str;
  entries : list entry;
  trailing : str;
  following : str
}.

Definition section (f : file) : str :=
  flat_map renderEntry (entries f) ++ trailing f.

Definition render (f : file) : str :=
  preamble f ++ header f ++ section f ++ following f.

(** The word [[Param]] occurs nowhere before the header, in any letter
    case: not as a header, and not inside a comment or a value either. *)
Fixpoint clearOf (h preamble : str) : bool :=
  match preamble with
  | [] => true
  | _ :: rest => negb (prefixCI "[Param]" (preamble ++ h)) && clearOf h rest
  end.

Definition endOrBracket (x : str) : bool :=
  match x with
  | [] => true
  | c :: _ => Ascii.eqb c "["
  end.

Definition wf (f : file) : bool :=
  prefixCI "[Param]" (header f) && (length (header f) =? 7)
  && clearOf (header f) (preamble f)
  && forallb wfEntry (entries f) && forallb Str.isSpace (trailing f)
  && endOrBracket (following f).

Definition keys (f : file) : list str := map key (entries f).

End Config.

(** The candidate of a configuration key. *)
Definition configItem (key : str) : CompletionItem :=
  createFieldItem key "Config from allay.toml".

(** The end of the section pattern: a bracket or the end of the text. *)
Definition sectionEnd : re := Alt (Char "[") Eol.

(** The file of [arrayConfig]: two entries under the header, the value of
    the first an array. *)
Definition arrayFile : Config.file :=
  {| Config.preamble := [];
     Config.header := "[Param]";
     Config.entries :=
       [ {| Config.lead := newline; Config.key := "tags"; Config.gap := " ";
            Config.value := " [1, 2]" |};
         {| Config.lead := []; Config.key := "year"; Config.gap := " ";
            Config.value := " 2024" |} ];
     Config.trailing := newline;
     Config.following := "[Build]" ++ newline ++ "out = 3" |}.

(** The file of [plainConfig]. *)
Definition plainFile : Config.file :=
  {| Config.preamble := [];
     Config.header := "[param]";
     Config.entries :=
       [ {| Config.lead := newline; Config.key := "author"; Config.gap := " ";
            Config.value := " 1" |};
         {| Config.lead := "  "; Config.key := "year"; Config.gap := [];
            Config.value := "2024" |} ];
     Config.trailing := newline;
     Config.following := "[Build]" ++ newline ++ "out = 3" |}.

(** *** Line prefixes and contexts *)

(** None of the characters [cs] occurs in [s]. *)
Definition noneOf (cs : list ascii) (s : str) : bool :=
  forallb (fun x => negb (existsb (Ascii.eqb x) cs)) s.

(** The cursor is inside a block that is still open: an opener with none of
    the closing characters after it. *)
Definition openAt (opener : str) (closers : list ascii) (p : str) : Prop :=
  exists pre body, p = pre ++ opener ++ body /\ noneOf closers body = true.

(** The shape the command-body and expression-body patterns share: the
    opener, a captured run free of the closers, the end of the text. *)
Definition openRegex (opener : str) (closers : list ascii) : re :=
  Seq (Lit opener) (Seq (Group 1 (Star true (Class true (map One closers)))) Eol).

(** The characters of a dotted root, [a-zA-Z0-9_.]. *)
Definition dotClass : list citem := alnum ++ [One "_"; One "."].

Definition isRootChar (c : ascii) : bool := class_ok false dotClass c.

(** The text is empty or ends with a character that satisfies [p]. *)
Definition endsWhere (p : ascii -> bool) (s : str) : bool :=
  match rev s with
  | [] => true
  | c :: _ => p c
  end.

Definition isBlank (c : ascii) : Prop := Str.isSpace c = true.

Definition notRootChar (c : ascii) : bool := negb (isRootChar c).

(** The items of an optional list: none for [undefined]. *)
Definition itemsOf (r : option (list CompletionItem)) : list CompletionItem :=
  match r with Some l => l | None => [] end.

(** The keywords of a block, by its opener. *)
Definition keywordsOf (opener : str) : list CompletionItem :=
  if Str.eqb opener "{-" then getControlKeywords else getOutputKeywords.

(** The result of a request that ran to the end: no opinion for an empty
    list. *)
Definition unlessEmpty (items : list CompletionItem) : option (list CompletionItem) :=
  match items with [] => None | _ :: _ => Some items end.

(** The cursor is inside the path of an include or extends command: the
    opener, blanks, the keyword, at least one blank, a quote, and a partial
    path with no quote. *)
Definition pathContext (p : str) : Prop :=
  exists pre sp1 kw sp2 partial,
    p = pre ++ "{-" ++ sp1 ++ kw ++ sp2 ++ quote :: partial /\
    Forall isBlank sp1 /\ pathKeyword kw /\ sp2 <> [] /\ Forall isBlank sp2 /\
    noneOf [quote] partial = true.

(** *** Scanned names, field labels and files *)

(** The characters a scanned variable name can hold: the sigil, the
    characters of an identifier, and white space. *)
Definition isNameChar (c : ascii) : bool :=
  Ascii.eqb c "$" || isIdentChar c || Str.isSpace c.

(** A field candidate whose label is a non-empty identifier, letters, digits,
    underscores and dashes. *)
Definition identifierField (it : CompletionItem) : Prop :=
  kind it = FieldKind /\ label it <> [] /\ forallb isKeyChar (label it) = true.

(** No front-matter block opens the text, or the block is never closed. *)
Definition unopened (text : str) : bool := negb (Str.startsWith "---" text).

Definition unclosed (text : str) : bool :=
  Str.startsWith "---" text && negb (occurs "---" (skipn 3 text)).

(** A file of a lookup directory: the directory, the name without its
    extension, and the extension. *)
Record fileEntry := { dir : str; stem : str; ext : str }.

Definition pathOf (e : fileEntry) : Uri :=
  {| fsPath := dir e ++ "/" ++ stem e ++ "." ++ ext e |}.

Definition wfFile (e : fileEntry) : bool :=
  negb (Str.eqb (stem e) []) && negb (Str.eqb (ext e) [])
  && noneOf ["/"%char] (stem e) && noneOf ["/"; "."]%char (ext e).

(** Files of lookup directories: two named [card], and one whose name
    holds a dot. *)
Definition cardHtml : fileEntry :=
  {| dir := "/site/shortcodes"; stem := "card"; ext := "html" |}.
Definition cardMd : fileEntry :=
  {| dir := "/site/theme/shortcodes"; stem := "card"; ext := "md" |}.
Definition noteMd : fileEntry :=
  {| dir := "/site/shortcodes"; stem := "note.v2"; ext := "md" |}.

(** A workspace that enumerates the given files for both lookups. *)
Definition lookupWorkspace (files : list Uri) : Workspace :=
  {| findFiles := fun _ _ => files;
     openTextDocument := fun _ => Throw "file not found";
     asRelativePath := fsPath |}.

(** Two template files of one name in two directories. *)
Definition xTemplate : fileEntry := {| dir := "templates/x"; stem := "a"; ext := "html" |}.
Definition yTemplate : fileEntry := {| dir := "templates/y"; stem := "a"; ext := "html" |}.

(** A workspace with its template files and its shortcode files. *)
Definition siteWorkspace (templates shortcodes : list fileEntry) : Workspace :=
  {| findFiles := fun pattern _ =>
                    if Str.eqb pattern "**/templates/*.{html,md}" then map pathOf templates
                    else if Str.eqb pattern "**/shortcodes/*.{html,md}" then map pathOf shortcodes
                    else [];
     openTextDocument := fun _ => Throw "file not found";
     asRelativePath := fsPath |}.

(** *** Stores of earlier calls *)

(** A store as calls before may have left it: an array, a set holding
    [labels] and a regex stopped at [lastIndex]. *)
Definition staleStore (labels : JsSet.t) (lastIndex : nat) : Stateful.Store :=
  {| Stateful.next := 3;
     Stateful.objs := fun r => match r with
                               | 0 => Some (Stateful.ArrayObj [])
                               | 1 => Some (Stateful.SetObj labels)
                               | 2 => Some (Stateful.RegExpObj lastIndex)
                               | _ => None
                               end |}.

(** *** States of the extension *)

(** The states the extension can be in: those reached from the initial
    state by some events, each with the host environment of its time. *)
Definition reachable (st : Extension.State) : Prop :=
  exists events, st = Extension.run events Extension.initial.

(** The server the extension holds is the only one that can be alive. *)
Definition oneServer (st : Extension.State) : Prop :=
  Extension.alive (Extension.effects st) = [] \/
  exists process, Extension.alive (Extension.effects st) = [process] /\
                  Extension.serverProcess st = Some process.

Definition isSpawn (e : Extension.Effect) : bool :=
  match e with Extension.Spawn _ _ _ _ => true | _ => false end.

(** A session: a preview, a restart, a restart with no folder open, the
    panel closed, a preview with no folder open, and a preview.  The
    setting [allay.path] is empty in the first environment. *)
Definition siteEnv : Extension.Env :=
  {| Extension.workspaceFolders := Some [L "/site"; L "/other"];
     Extension.configuredPath := Some [] |}.

Definition noFolderEnv : Extension.Env :=
  {| Extension.workspaceFolders := None; Extension.configuredPath := Some (L "/bin/allay") |}.

Definition session : list (Extension.Env * Extension.Event) :=
  [ (siteEnv, Extension.PreviewCommand);
    (siteEnv, Extension.RestartCommand);
    (noFolderEnv, Extension.RestartCommand);
    (siteEnv, Extension.PanelClosed);
    (noFolderEnv, Extension.PreviewCommand);
    (siteEnv, Extension.PreviewCommand) ].

(** The two module variables go together, and the process held is the only
    one that can be alive. *)
Definition steady (st : Extension.State) : Prop :=
  match Extension.serverProcess st with
  | Some process =>
      Extension.alive (Extension.effects st) = [process]
      \/ Extension.alive (Extension.effects st) = []
  | None => Extension.alive (Extension.effects st) = []
  end /\
  (Extension.previewPanel st = None <-> Extension.serverProcess st = None).

(** The shape of every start of the server: a non-empty executable, run in
    the project root with the arguments [--root ROOT serve]. *)
Definition serveCommand (e : Extension.Effect) : Prop :=
  match e with
  | Extension.Spawn _ executable args cwd =>
      executable <> [] /\ args = [L "--root"; cwd; L "serve"]
  | _ => True
  end.

(* ================================================================= *)
(** ** Lemmas and theorems *)

(** *** Strings and lists *)

Lemma Str_eqb_eq a b : Str.eqb a b = true <-> a = b.
Proof.
  unfold Str.eqb. destruct (list_eq_dec ascii_dec a b); split; auto; discriminate.
Qed.

Lemma Str_eqb_neq a b : Str.eqb a b = false <-> a <> b.
Proof.
  unfold Str.eqb. destruct (list_eq_dec ascii_dec a b); split; auto;
    try discriminate. intros H. contradiction.
Qed.

Lemma Str_eqb_single c d : Str.eqb [c] [d] = Ascii.eqb d c.
Proof.
  destruct (Ascii.eqb_spec d c) as [->|N].
  - apply Str_eqb_eq. reflexivity.
  - apply Str_eqb_neq. intros E. injection E as E. auto.
Qed.

Lemma substr_after pre post n :
  Str.substr (pre ++ post) (length pre) n = firstn n post.
Proof.
  unfold Str.substr. rewrite skipn_app, skipn_all, Nat.sub_diag. reflexivity.
Qed.

Lemma endsWith_app pre p : Str.endsWith p (pre ++ p) = true.
Proof.
  unfold Str.endsWith. rewrite rev_app_distr.
  induction (rev p) as [|c l IH]; simpl; [reflexivity|].
  rewrite Ascii.eqb_refl. exact IH.
Qed.

Lemma endsWith_other pre a b c d :
  Ascii.eqb d b = false -> Str.endsWith [c; d] (pre ++ [a; b]) = false.
Proof.
  intros H. unfold Str.endsWith. rewrite rev_app_distr. simpl. rewrite H. reflexivity.
Qed.

Lemma forallb_Forall {A} (p : A -> bool) l :
  forallb p l = true -> Forall (fun x => p x = true) l.
Proof. intros H. apply Forall_forall. apply forallb_forall. exact H. Qed.

Lemma filter_all_true {A} (p : A -> bool) l :
  (forall x, In x l -> p x = true) -> filter p l = l.
Proof.
  induction l as [|x l IH]; intros H; simpl; [reflexivity|].
  rewrite (H x) by (now left). f_equal. apply IH. intros y Hy. apply H. now right.
Qed.

Lemma flat_map_map {A B C} (f : B -> list C) (g : A -> B) l :
  flat_map f (map g l) = flat_map (fun x => f (g x)) l.
Proof. induction l as [|x l IH]; cbn; [reflexivity|]. now rewrite IH. Qed.

Lemma join_cons sep x l :
  Str.join sep (x :: l)
  = x ++ match l with [] => [] | _ :: _ => sep ++ Str.join sep l end.
Proof. destruct l; cbn [Str.join]; [now rewrite app_nil_r|reflexivity]. Qed.

Lemma trimStart_spaces w r :
  Forall (fun c => Str.isSpace c = true) w -> Str.trimStart (w ++ r) = Str.trimStart r.
Proof.
  induction 1 as [|c w Hc _ IH]; [reflexivity|]. cbn [app Str.trimStart].
  rewrite Hc. exact IH.
Qed.



Lemma trimStart_app s x :
  Str.trimStart (s ++ x)
  = match Str.trimStart s with
    | [] => Str.trimStart x
    | _ :: _ => Str.trimStart s ++ x
    end.
Proof.
  induction s as [|c s IH]; cbn [app Str.trimStart].
  - destruct (Str.trimStart x); reflexivity.
  - destruct (Str.isSpace c); [exact IH|reflexivity].
Qed.

Lemma trimStart_suffix s : exists w, s = w ++ Str.trimStart s.
Proof.
  induction s as [|c s [w IH]]; [exists []; reflexivity|].
  cbn [Str.trimStart]. destruct (Str.isSpace c).
  - exists (c :: w). cbn. rewrite <- IH. reflexivity.
  - exists []. reflexivity.
Qed.

Lemma trimStart_all_space s :
  Str.trimStart s = [] -> Forall (fun c => Str.isSpace c = true) s.
Proof.
  induction s as [|c s IH]; [constructor|].
  cbn [Str.trimStart]. destruct (Str.isSpace c) eqn:E; [|discriminate].
  intros H. constructor; auto.
Qed.



Lemma occurs_suffix p pre s : occurs p (pre ++ s) = false -> occurs p s = false.
Proof.
  induction pre as [|c pre IH]; intros H; [exact H|].
  cbn [app occurs] in H. apply orb_false_iff in H. destruct H as [_ H]. auto.
Qed.

Lemma occurs_head p s : occurs p s = false -> Str.startsWith p s = false.
Proof.
  destruct s; cbn [occurs]; intros H; apply orb_false_iff in H; tauto.
Qed.

(** *** Characters and classes *)

Lemma space_is_ws c : class_ok false [Sp] c = Str.isSpace c.
Proof. unfold class_ok. cbn. rewrite orb_false_r. reflexivity. Qed.

Lemma any_char_ok c : class_ok false [Sp; NSp] c = true.
Proof. unfold class_ok. cbn. destruct (Str.isSpace c); reflexivity. Qed.






Lemma space_not_dash c : Str.isSpace c = true -> Ascii.eqb "-" c = false.
Proof. intros H. ascii_cases c; first [reflexivity | discriminate H]. Qed.

Lemma key_not_space c : isKeyChar c = true -> Str.isSpace c = false.
Proof. intros H. ascii_cases c; first [reflexivity | discriminate H]. Qed.

Lemma key_in_class c : isKeyChar c = true -> class_ok false keyChars c = true.
Proof. intros H. exact H. Qed.

(** *** First-seen order and sets *)

Lemma firstSeen_filter p l : firstSeen (filter p l) = filter p (firstSeen l).
Proof.
  induction l as [|x l IH]; simpl; [reflexivity|].
  destruct (p x) eqn:Px; simpl.
  - rewrite IH. f_equal. clear.
    induction (firstSeen l) as [|y t IHt]; simpl; [reflexivity|].
    destruct (p y) eqn:Py, (differs x y) eqn:D; simpl;
      rewrite ?Py, ?D, ?IHt; reflexivity.
  - rewrite IH. clear IH.
    induction (firstSeen l) as [|y t IHt]; simpl; [reflexivity|].
    destruct (differs x y) eqn:D; simpl.
    + destruct (p y); rewrite IHt; reflexivity.
    + unfold differs in D. apply negb_false_iff, Str_eqb_eq in D. subst y.
      rewrite Px. exact IHt.
Qed.

Lemma firstSeen_In l x : In x (firstSeen l) <-> In x l.
Proof.
  induction l as [|y l IH]; simpl; [tauto|].
  rewrite filter_In, IH. unfold differs. split.
  - intros [H|[H _]]; auto.
  - intros [H|H]; auto.
    destruct (Str.eqb x y) eqn:E.
    + apply Str_eqb_eq in E. auto.
    + right. split; auto.
Qed.

Lemma firstSeen_NoDup l : NoDup (firstSeen l).
Proof.
  induction l as [|y l IH]; simpl; constructor.
  - rewrite filter_In. unfold differs. intros [_ H].
    apply negb_true_iff, Str_eqb_neq in H. auto.
  - apply NoDup_filter. exact IH.
Qed.

(** The number of distinct elements does not depend on which occurrence is
    kept. *)
Lemma firstSeen_length l :
  length (firstSeen l) = length (nodup (list_eq_dec ascii_dec) l).
Proof.
  apply Nat.le_antisymm; apply NoDup_incl_length;
    auto using firstSeen_NoDup, NoDup_nodup;
    intros x H.
  - apply nodup_In. apply firstSeen_In. exact H.
  - apply firstSeen_In. apply nodup_In in H. exact H.
Qed.

Lemma has_app s x y :
  JsSet.has (s ++ [x]) y = JsSet.has s y || Str.eqb y x.
Proof. unfold JsSet.has. rewrite existsb_app. simpl. rewrite orb_false_r. reflexivity. Qed.

Lemma filter_absent_app s x l :
  filter (absent (s ++ [x])) l = filter (differs x) (filter (absent s) l).
Proof.
  induction l as [|y l IH]; simpl; [reflexivity|].
  rewrite IH. unfold absent. rewrite has_app.
  destruct (JsSet.has s y); simpl; [reflexivity|].
  unfold differs. destruct (Str.eqb y x); reflexivity.
Qed.

(** Adding names to a set one by one appends the new ones in first-seen
    order. *)
Lemma set_add_all l : forall s,
  fold_left JsSet.add l s = s ++ firstSeen (filter (absent s) l).
Proof.
  induction l as [|x l IH]; intros s; simpl; [now rewrite app_nil_r|].
  rewrite IH. unfold JsSet.add, absent at 2.
  destruct (JsSet.has s x) eqn:E; simpl.
  - reflexivity.
  - rewrite filter_absent_app, firstSeen_filter, <- app_assoc. reflexivity.
Qed.

Lemma filter_absent_empty l : filter (absent JsSet.empty) l = l.
Proof. induction l as [|x l IH]; simpl; [reflexivity|]. now rewrite IH. Qed.

Lemma absent_not_in s x : absent s x = true <-> ~ In x s.
Proof.
  unfold absent, JsSet.has. rewrite negb_true_iff. split.
  - intros H Hin. apply not_true_iff_false in H. apply H.
    apply existsb_exists. exists x. split; [exact Hin|]. apply Str_eqb_eq. reflexivity.
  - intros H. apply not_true_is_false. intros E. apply existsb_exists in E.
    destruct E as (y & Hy & E). apply Str_eqb_eq in E. subst y. auto.
Qed.

Lemma count_filter_absent s keys x :
  count_occ str_dec (filter (absent s) keys) x
  = if absent s x then count_occ str_dec keys x else 0.
Proof.
  induction keys as [|k keys IH]; simpl; [destruct (absent s x); reflexivity|].
  destruct (str_dec k x) as [->|N].
  - destruct (absent s x) eqn:A; simpl.
    + destruct (str_dec x x); [|contradiction]. rewrite IH. reflexivity.
    + exact IH.
  - destruct (absent s k); simpl; [destruct (str_dec k x); [contradiction|]|];
      exact IH.
Qed.

(** *** The matcher: what a match consumes, and the end of the loops *)

Lemma reaches_refl s : reaches s s [].
Proof. split; reflexivity. Qed.

Lemma reaches_trans s1 s2 s3 w1 w2 :
  reaches s1 s2 w1 -> reaches s2 s3 w2 -> reaches s1 s3 (w1 ++ w2).
Proof.
  intros [H1 H2] [H3 H4]. split.
  - rewrite H1, H3, app_assoc. reflexivity.
  - rewrite H4, H2, rev_app_distr, app_assoc. reflexivity.
Qed.

Lemma reaches_length s s' w :
  reaches s s' w -> length (rest s) = length w + length (rest s').
Proof. intros [H _]. rewrite H, length_app. reflexivity. Qed.

Lemma in_step1 ok s s' :
  In s' (step1 ok s) ->
  exists x, ok x = true /\ rest s = x :: rest s' /\
            seen s' = x :: seen s /\ caps s' = caps s.
Proof.
  unfold step1. destruct (rest s) as [|x tl] eqn:E; [intros []|].
  destruct (ok x) eqn:Ok; [|intros []].
  intros [<-|[]]. exists x. simpl. auto.
Qed.

Lemma in_iter step greedy n s s' :
  In s' (iter step greedy n s) ->
  s' = s \/
  exists n' mid, n = S n' /\ In mid (step s) /\
                 length (rest mid) < length (rest s) /\
                 In s' (iter step greedy n' mid).
Proof.
  destruct n as [|n']; simpl.
  - intros [<-|[]]. now left.
  - intros H.
    assert (H' : s' = s \/
      In s' (flat_map (fun s'0 => if length (rest s'0) <? length (rest s)
                                  then iter step greedy n' s'0 else []) (step s))).
    { destruct greedy.
      - apply in_app_or in H. destruct H as [H|[<-|[]]]; auto.
      - destruct H as [<-|H]; auto. }
    destruct H' as [->|H']; [now left|]. right.
    apply in_flat_map in H'. destruct H' as (mid & Hmid & Hin).
    destruct (length (rest mid) <? length (rest s)) eqn:E; [|destruct Hin].
    apply Nat.ltb_lt in E. exists n', mid. auto.
Qed.

(** Every match reads a stretch of the text to the right, in order. *)
Lemma m_reaches fl r : forall s s', In s' (m fl r s) -> exists w, reaches s s' w.
Proof.
  induction r as [| c | neg items | | | r1 IH1 r2 IH2 | r1 IH1 r2 IH2
                  | greedy r1 IH1 | i r1 IH1]; intros s s' H.
  - destruct H as [<-|[]]. exists []. apply reaches_refl.
  - apply in_step1 in H. destruct H as (x & _ & H1 & H2 & _).
    exists [x]. split; simpl; auto.
  - apply in_step1 in H. destruct H as (x & _ & H1 & H2 & _).
    exists [x]. split; simpl; auto.
  - simpl in H. destruct (at_bol fl s); [|destruct H].
    destruct H as [<-|[]]. exists []. apply reaches_refl.
  - simpl in H. destruct (at_eol fl s); [|destruct H].
    destruct H as [<-|[]]. exists []. apply reaches_refl.
  - simpl in H. apply in_flat_map in H. destruct H as (mid & H1 & H2).
    destruct (IH1 _ _ H1) as [w1 R1]. destruct (IH2 _ _ H2) as [w2 R2].
    exists (w1 ++ w2). eapply reaches_trans; eauto.
  - simpl in H. apply in_app_or in H. destruct H as [H|H]; eauto.
  - simpl in H. revert H. generalize (length (rest s)) as n. intros n.
    revert s s'.
    induction n as [|n IHn]; intros s s' H.
    + destruct H as [<-|[]]. exists []. apply reaches_refl.
    + apply in_iter in H. destruct H as [->|(n' & mid & En & Hmid & _ & Hin)].
      * exists []. apply reaches_refl.
      * injection En as <-. destruct (IH1 _ _ Hmid) as [w1 R1].
        destruct (IHn _ _ Hin) as [w2 R2].
        exists (w1 ++ w2). eapply reaches_trans; eauto.
  - simpl in H. apply in_map_iff in H. destruct H as (x & <- & Hx).
    destruct (IH1 _ _ Hx) as [w R]. exists w. exact R.
Qed.

Lemma m_consumes fl r : forall s s',
  nullable r = false -> In s' (m fl r s) -> length (rest s') < length (rest s).
Proof.
  induction r as [| c | neg items | | | r1 IH1 r2 IH2 | r1 IH1 r2 IH2
                  | greedy r1 IH1 | i r1 IH1]; intros s s' N H; simpl in N;
    try discriminate.
  - apply in_step1 in H. destruct H as (x & _ & H1 & _). rewrite H1. simpl. lia.
  - apply in_step1 in H. destruct H as (x & _ & H1 & _). rewrite H1. simpl. lia.
  - simpl in H. apply in_flat_map in H. destruct H as (mid & H1 & H2).
    destruct (m_reaches _ _ _ _ H1) as [w1 R1]. apply reaches_length in R1.
    destruct (m_reaches _ _ _ _ H2) as [w2 R2]. apply reaches_length in R2.
    apply andb_false_iff in N. destruct N as [N|N].
    + specialize (IH1 _ _ N H1). lia.
    + specialize (IH2 _ _ N H2). lia.
  - simpl in H. apply orb_false_iff in N. destruct N as [N1 N2].
    apply in_app_or in H. destruct H as [H|H]; eauto.
  - simpl in H. apply in_map_iff in H. destruct H as (x & <- & Hx).
    simpl. eauto.
Qed.

Lemma search_at_some fl r : forall after before res,
  search_at fl r before after = Some res ->
  exists skipped after',
    after = skipped ++ after' /\
    hd_error (m fl r (at_ (rev skipped ++ before) after')) = Some (final res) /\
    index res = length before + length skipped.
Proof.
  induction after as [|c after IH]; intros before res H; simpl in H.
  - destruct (m fl r _) as [|s' l] eqn:E; [discriminate|].
    injection H as <-. exists [], []. simpl. unfold at_. rewrite E. auto.
  - destruct (m fl r _) as [|s' l] eqn:E.
    + apply IH in H. destruct H as (sk & af & -> & H1 & H2).
      exists (c :: sk), af. simpl. rewrite <- app_assoc. simpl.
      split; [reflexivity|]. split; [exact H1|]. simpl in H2. lia.
    + injection H as <-. exists [], (c :: after). simpl. unfold at_. rewrite E. auto.
Qed.

Lemma search_progress fl r before after res :
  nullable r = false -> search_at fl r before after = Some res ->
  length (rest (final res)) < length after.
Proof.
  intros N E. apply search_at_some in E. destruct E as (sk & af & -> & H1 & _).
  assert (Hin : In (final res) (m fl r (at_ (rev sk ++ before) af))).
  { destruct (m fl r _); [discriminate|]. injection H1 as ->. now left. }
  apply (m_consumes _ _ _ _ N) in Hin. cbn [rest at_] in Hin.
  rewrite length_app. lia.
Qed.

(** The [exec] loop of a pattern that cannot match the empty word ends. *)
Lemma exec_loop_total fl r : nullable r = false ->
  forall fuel before after, length after < fuel ->
  exists l, exec_loop fl r fuel before after = Some l.
Proof.
  intros N. induction fuel as [|fuel IH]; intros before after Hf; [lia|].
  simpl. destruct (search_at fl r before after) as [res|] eqn:E; [|eauto].
  apply search_at_some in E. destruct E as (sk & af & -> & H1 & _).
  assert (Hin : In (final res) (m fl r (at_ (rev sk ++ before) af))).
  { destruct (m fl r _); [discriminate|]. injection H1 as ->. now left. }
  apply (m_consumes _ _ _ _ N) in Hin. simpl in Hin.
  assert (Hlt : length (rest (final res)) < length (sk ++ af)).
  { rewrite length_app. lia. }
  apply Nat.ltb_lt in Hlt as Hb. rewrite Hb.
  destruct (IH (seen (final res)) (rest (final res))) as [l El]; [lia|].
  rewrite El. simpl. eauto.
Qed.

Lemma exec_all_total fl r text : nullable r = false ->
  exists l, exec_all fl r text = Some l.
Proof. intros N. apply exec_loop_total; [exact N|lia]. Qed.

(** The loop depends on the text only through what the search finds. *)
Lemma exec_loop_search_eq fl r fuel b1 a1 b2 a2 :
  nullable r = false ->
  search_at fl r b1 a1 = search_at fl r b2 a2 ->
  exec_loop fl r (S fuel) b1 a1 = exec_loop fl r (S fuel) b2 a2.
Proof.
  intros N E. cbn [exec_loop]. rewrite E.
  destruct (search_at fl r b2 a2) as [res|] eqn:E2; [|reflexivity].
  apply (search_progress _ _ _ _ _ N) in E, E2.
  apply Nat.ltb_lt in E, E2. rewrite E, E2. reflexivity.
Qed.

(** *** The matcher on the pieces of a pattern *)

Lemma m_seq fl r1 r2 s : m fl (Seq r1 r2) s = flat_map (m fl r2) (m fl r1 s).
Proof. reflexivity. Qed.

Lemma hd_seq fl r1 r2 s x y :
  hd_error (m fl r1 s) = Some x -> hd_error (m fl r2 x) = Some y ->
  hd_error (m fl (Seq r1 r2) s) = Some y.
Proof.
  cbn [m]. destruct (m fl r1 s) as [|x' l1]; [discriminate|].
  intros E1 E2. injection E1 as ->. cbn [flat_map].
  destruct (m fl r2 x) as [|y' l2]; [discriminate|]. exact E2.
Qed.

Lemma hd_alt_l fl r1 r2 s x :
  hd_error (m fl r1 s) = Some x -> hd_error (m fl (Alt r1 r2) s) = Some x.
Proof.
  cbn [m]. destruct (m fl r1 s) as [|x' l1]; [discriminate|]. intros E. exact E.
Qed.

Lemma hd_alt_r fl r1 r2 s :
  m fl r1 s = [] -> hd_error (m fl (Alt r1 r2) s) = hd_error (m fl r2 s).
Proof. cbn [m]. intros ->. reflexivity. Qed.

Lemma hd_group fl i r s x :
  hd_error (m fl r s) = Some x ->
  hd_error (m fl (Group i r) s) = Some (set_cap i s x).
Proof.
  cbn [m]. destruct (m fl r s) as [|x' l]; [discriminate|].
  intros E. injection E as ->. reflexivity.
Qed.

Lemma m_char fl c s x tl :
  rest s = x :: tl -> char_ok fl c x = true ->
  m fl (Char c) s = [mk (x :: seen s) tl (caps s)].
Proof. intros E H. cbn [m]. unfold step1. rewrite E, H. reflexivity. Qed.

Lemma m_char_fail fl c s :
  match rest s with [] => True | x :: _ => char_ok fl c x = false end ->
  m fl (Char c) s = [].
Proof.
  cbn [m]. unfold step1. destruct (rest s) as [|x tl]; [reflexivity|].
  intros ->. reflexivity.
Qed.

Lemma m_class fl neg items s x tl :
  rest s = x :: tl -> class_ok neg items x = true ->
  m fl (Class neg items) s = [mk (x :: seen s) tl (caps s)].
Proof. intros E H. cbn [m]. unfold step1. rewrite E, H. reflexivity. Qed.

(** A literal word, letter case significant. *)
Lemma m_lit w : forall s r,
  rest s = w ++ r -> m noFlags (Lit w) s = [mk (rev w ++ seen s) r (caps s)].
Proof.
  induction w as [|c w IH]; intros s r E.
  - destruct s as [sn rs cs]. cbn in *. subst rs. reflexivity.
  - cbn [Lit]. rewrite m_seq, (m_char noFlags c s c (w ++ r) E)
      by (unfold char_ok; cbn; apply Ascii.eqb_refl).
    cbn [flat_map]. rewrite (IH (mk (c :: seen s) (w ++ r) (caps s)) r eq_refl), app_nil_r.
    cbn [seen caps mk rev].
    rewrite <- app_assoc. reflexivity.
Qed.

Lemma in_m_lit w : forall s s',
  In s' (m noFlags (Lit w) s) -> rest s = w ++ rest s'.
Proof.
  induction w as [|c w IH]; intros s s' H.
  - destruct H as [<-|[]]. reflexivity.
  - cbn [Lit] in H. rewrite m_seq in H.
    apply in_flat_map in H. destruct H as (mid & H1 & H2).
    apply in_step1 in H1. destruct H1 as (x & Hx & E & _).
    unfold char_ok in Hx. cbn in Hx. apply Ascii.eqb_eq in Hx. subst x.
    rewrite E, (IH _ _ H2). reflexivity.
Qed.

Lemma m_lit_fail w s : Str.startsWith w (rest s) = false -> m noFlags (Lit w) s = [].
Proof.
  intros H. destruct (m noFlags (Lit w) s) as [|x l] eqn:E; [reflexivity|].
  exfalso. assert (Hin : In x (m noFlags (Lit w) s)) by (rewrite E; now left).
  apply in_m_lit in Hin. rewrite Hin in H. clear -H.
  induction w as [|c w IH]; [discriminate|].
  cbn in H. rewrite Ascii.eqb_refl in H. auto.
Qed.

Lemma m_lit_ci_fail fl w : ignoreCase fl = true ->
  forall s, prefixCI w (rest s) = false -> m fl (Lit w) s = [].
Proof.
  intros Hfl. induction w as [|c w IH]; intros s H; [discriminate|].
  cbn [Lit m]. unfold step1. destruct s as [sn [|x tl] cs]; cbn [rest] in *;
    [reflexivity|].
  cbn [prefixCI] in H. unfold char_ok. rewrite Hfl.
  destruct (Ascii.eqb (Str.upper x) (Str.upper c)); [|reflexivity].
  cbn [flat_map]. rewrite IH by exact H. reflexivity.
Qed.

Lemma hd_iter_class fl neg items w : forall s r,
  rest s = w ++ r ->
  Forall (fun c => class_ok neg items c = true) w ->
  stops (class_ok neg items) r ->
  hd_error (iter (m fl (Class neg items)) true (length (rest s)) s)
  = Some (mk (rev w ++ seen s) r (caps s)).
Proof.
  induction w as [|c w IH]; intros s r E Hw Hr.
  - destruct s as [sn rs cs]. cbn [rest seen caps app rev] in *. subst rs.
    destruct r as [|x r]; [reflexivity|].
    cbn [length iter m]. unfold step1. cbn [rest]. cbn in Hr. rewrite Hr.
    reflexivity.
  - inversion Hw as [|? ? Hc Hw']; subst.
    rewrite E. cbn [length app iter].
    rewrite (m_class fl neg items s c (w ++ r) E Hc). cbn [flat_map].
    cbn [rest mk]. rewrite E. cbn [length app].
    replace (length (w ++ r) <? S (length (w ++ r))) with true
      by (symmetry; apply Nat.ltb_lt; lia).
    rewrite app_nil_r.
    specialize (IH (mk (c :: seen s) (w ++ r) (caps s)) r eq_refl Hw' Hr).
    cbn [rest seen caps mk] in IH.
    destruct (iter _ true (length (w ++ r)) _) as [|y l]; [discriminate|].
    cbn [app hd_error] in *. rewrite IH. cbn [rev]. rewrite <- app_assoc. reflexivity.
Qed.

Lemma hd_star_class fl neg items w s r :
  rest s = w ++ r ->
  Forall (fun c => class_ok neg items c = true) w ->
  stops (class_ok neg items) r ->
  hd_error (m fl (Star true (Class neg items)) s)
  = Some (mk (rev w ++ seen s) r (caps s)).
Proof.
  intros.
  change (m fl (Star true (Class neg items)) s)
    with (iter (m fl (Class neg items)) true (length (rest s)) s).
  apply hd_iter_class; assumption.
Qed.

Lemma hd_plus_class fl neg items c w s r :
  rest s = c :: w ++ r ->
  Forall (fun c => class_ok neg items c = true) (c :: w) ->
  stops (class_ok neg items) r ->
  hd_error (m fl (Plus true (Class neg items)) s)
  = Some (mk (rev (c :: w) ++ seen s) r (caps s)).
Proof.
  intros E Hw Hr. inversion Hw as [|? ? Hc Hw']; subst.
  unfold Plus. eapply hd_seq.
  - rewrite (m_class fl neg items s c (w ++ r) E Hc). reflexivity.
  - rewrite (hd_star_class fl neg items w (mk (c :: seen s) (w ++ r) (caps s)) r
               eq_refl Hw' Hr).
    cbn [seen caps mk rev]. rewrite <- app_assoc. reflexivity.
Qed.

Lemma in_iter_class fl neg items greedy n : forall s s',
  In s' (iter (m fl (Class neg items)) greedy n s) ->
  exists w, rest s = w ++ rest s' /\
            Forall (fun c => class_ok neg items c = true) w.
Proof.
  induction n as [|n IH]; intros s s' H.
  - destruct H as [<-|[]]. exists []. auto.
  - apply in_iter in H. destruct H as [->|(n' & mid & En & Hmid & _ & Hin)].
    + exists []. auto.
    + injection En as <-. apply in_step1 in Hmid.
      destruct Hmid as (x & Hx & E & _).
      destruct (IH _ _ Hin) as (w & Ew & Hw).
      exists (x :: w). rewrite E, Ew. auto.
Qed.

Lemma in_star_class fl neg items greedy s s' :
  In s' (m fl (Star greedy (Class neg items)) s) ->
  exists w, rest s = w ++ rest s' /\
            Forall (fun c => class_ok neg items c = true) w.
Proof.
  change (m fl (Star greedy (Class neg items)) s)
    with (iter (m fl (Class neg items)) greedy (length (rest s)) s).
  apply in_iter_class.
Qed.

(** A lazy run takes the shortest stretch after which the rest of the
    pattern, [f], matches. *)
Lemma hd_lazy_run fl neg items (f : mstate -> list mstate) x y body : forall s,
  rest s = body ++ x ->
  Forall (fun c => class_ok neg items c = true) body ->
  (forall p q, body = p ++ q -> q <> [] ->
               f (mk (rev p ++ seen s) (q ++ x) (caps s)) = []) ->
  hd_error (f (mk (rev body ++ seen s) x (caps s))) = Some y ->
  hd_error (flat_map f (iter (m fl (Class neg items)) false (length (rest s)) s))
  = Some y.
Proof.
  induction body as [|c body IH]; intros s E Hb Hfail Hy.
  - destruct s as [sn rs cs]. cbn [rest seen caps app rev mk] in *. subst rs.
    destruct (length x); cbn [iter flat_map];
      destruct (f _) as [|y' l]; try discriminate; exact Hy.
  - inversion Hb as [|? ? Hc Hb']; subst.
    rewrite E. cbn [length app iter flat_map].
    assert (E0 : f s = []).
    { specialize (Hfail [] (c :: body) eq_refl). cbn [rev app] in Hfail.
      destruct s as [sn rs cs]. cbn [rest seen caps mk] in *. subst rs.
      apply Hfail. discriminate. }
    rewrite E0. cbn [app].
    rewrite (m_class fl neg items s c (body ++ x) E Hc). cbn [flat_map rest mk].
    rewrite E. cbn [length app].
    replace (length (body ++ x) <? S (length (body ++ x))) with true
      by (symmetry; apply Nat.ltb_lt; lia).
    rewrite app_nil_r.
    apply (IH (mk (c :: seen s) (body ++ x) (caps s)) eq_refl Hb').
    + intros p q Ep Hq. cbn [seen caps mk].
      specialize (Hfail (c :: p) q). cbn [rev] in Hfail. rewrite <- app_assoc in Hfail.
      apply Hfail; [rewrite Ep; reflexivity|exact Hq].
    + cbn [seen caps mk]. cbn [rev] in Hy. rewrite <- app_assoc in Hy. exact Hy.
Qed.

Lemma m_bol fl s : at_bol fl s = true -> m fl Bol s = [s].
Proof. intros H. cbn [m]. rewrite H. reflexivity. Qed.

Lemma m_bol_fail fl r s : at_bol fl s = false -> m fl (Seq Bol r) s = [].
Proof. intros H. rewrite m_seq. cbn [m]. rewrite H. reflexivity. Qed.

Lemma consumed_run s w r cs :
  consumed s (mk (rev w ++ seen s) r cs) = w.
Proof.
  unfold consumed. cbn [seen mk]. rewrite length_app, length_rev.
  replace (length w + length (seen s) - length (seen s)) with (length (rev w))
    by (rewrite length_rev; lia).
  rewrite firstn_app, firstn_all, Nat.sub_diag. cbn [firstn].
  rewrite app_nil_r. apply rev_involutive.
Qed.

(** *** Searching a text *)

Lemma search_skip fl r x t : forall before,
  (forall pre u, t = pre ++ u -> u <> [] ->
                 m fl r (at_ (rev pre ++ before) (u ++ x)) = []) ->
  search_at fl r before (t ++ x) = search_at fl r (rev t ++ before) x.
Proof.
  induction t as [|c t IH]; intros before H; [reflexivity|].
  cbn [app search_at].
  pose proof (H [] (c :: t) eq_refl) as H0. unfold at_ in H0.
  cbn [rev app] in H0. rewrite H0 by discriminate.
  rewrite IH.
  - cbn [rev]. rewrite <- app_assoc. reflexivity.
  - intros pre u -> Hu. specialize (H (c :: pre) u eq_refl Hu).
    cbn [rev] in H. rewrite <- app_assoc in H. exact H.
Qed.

Lemma search_hit fl r before after fin :
  hd_error (m fl r (at_ before after)) = Some fin ->
  search_at fl r before after = Some {| index := length before; final := fin |}.
Proof.
  intros H. unfold at_ in H.
  destruct after; cbn [search_at]; destruct (m fl r _); try discriminate;
    injection H as ->; reflexivity.
Qed.

Lemma search_finds fl r skipped : forall before after,
  m fl r (at_ (rev skipped ++ before) after) <> [] ->
  search_at fl r before (skipped ++ after) <> None.
Proof.
  induction skipped as [|c skipped IH]; intros before after H.
  - cbn [app rev] in *. unfold at_ in H.
    destruct after; cbn [search_at]; destruct (m fl r _); try discriminate;
      contradiction.
  - cbn [app search_at].
    destruct (m fl r {| seen := before; rest := c :: skipped ++ after; caps := [] |});
      [|discriminate].
    apply IH. cbn [rev] in H. rewrite <- app_assoc in H. exact H.
Qed.

Lemma test_finds fl r skipped after y :
  hd_error (m fl r (at_ (rev skipped ++ []) after)) = Some y ->
  test fl r (skipped ++ after) = true.
Proof.
  intros H. unfold test, exec.
  destruct (search_at fl r [] (skipped ++ after)) eqn:E; [reflexivity|].
  exfalso. revert E. apply search_finds. intros E. rewrite E in H. discriminate.
Qed.

Lemma search_without_header fl w r : ignoreCase fl = true ->
  forall after before,
    occursCI w after = false -> search_at fl (Seq (Lit w) r) before after = None.
Proof.
  intros Hfl. induction after as [|c after IH]; intros before H;
    cbn [occursCI] in H; apply orb_false_iff in H; destruct H as [H1 H2];
    cbn [search_at m].
  - rewrite (m_lit_ci_fail fl w Hfl) by exact H1. reflexivity.
  - rewrite (m_lit_ci_fail fl w Hfl) by exact H1. cbn [flat_map]. apply IH, H2.
Qed.

(** *** The request orchestrator *)

Lemma translate_left position :
  1 <= character position ->
  translate position 0 (-1) =
  Ok {| line := line position; character := character position - 1 |}.
Proof.
  intros H. unfold translate.
  destruct (Z.ltb_spec (Z.of_nat (line position) + 0) 0); [lia|].
  destruct (Z.ltb_spec (Z.of_nat (character position) + -1) 0); [lia|].
  f_equal. f_equal; lia.
Qed.

Lemma translate_right position :
  translate position 0 1 =
  Ok {| line := line position; character := character position + 1 |}.
Proof.
  unfold translate.
  destruct (Z.ltb_spec (Z.of_nat (line position) + 0) 0); [lia|].
  destruct (Z.ltb_spec (Z.of_nat (character position) + 1) 0); [lia|].
  f_equal. f_equal; lia.
Qed.

Lemma getBlockCompletions_returns linePrefix position document :
  1 <= character position ->
  exists r, getBlockCompletions linePrefix position document = Ok r /\
            forall l it, r = Some l -> In it l -> kind it = SnippetKind.
Proof.
  intros H. unfold getBlockCompletions.
  rewrite (translate_left _ H), translate_right. cbn [bind].
  destruct (Str.endsWith "{-" linePrefix);
    [|destruct (Str.endsWith "{:" linePrefix);
      [|destruct (Str.endsWith "{<" linePrefix)]];
    eexists; (split; [reflexivity|]); intros l it E Hin; try discriminate;
    injection E as <-; simpl in Hin; intuition (subst; reflexivity).
Qed.

Lemma template_items_are_files w it :
  In it (getTemplateFileCompletions w) -> kind it = FileKind.
Proof.
  unfold getTemplateFileCompletions. intros H.
  apply in_map_iff in H. destruct H as (f & <- & _). reflexivity.
Qed.

(** A request at column 0 fails before any pattern is tried: the replace
    span would start left of the line. *)
Lemma request_at_column_zero_throws w document l lineText :
  lineAt document (cursor l 0) = Ok lineText ->
  provideCompletionItems w document (cursor l 0)
  = Throw "Illegal argument: character must be non-negative".
Proof.
  intros H. unfold provideCompletionItems. rewrite H. cbn [bind].
  unfold getBlockCompletions, translate. cbn [line character cursor].
  destruct (Z.ltb_spec (Z.of_nat l + 0) 0) as [Hl|_]; [lia|]. reflexivity.
Qed.

(** A prefix [... {- include "partial] or [... {- extends "partial] whose
    partial path holds neither a quote nor a closing brace is matched by
    the path pattern and by the command-body pattern. *)
Lemma path_prefix_matches_both pre k partial :
  pathKeyword k ->
  Forall (fun c => class_ok true [One quote] c = true) partial ->
  Forall (fun c => class_ok true [One "}"] c = true) partial ->
  test noFlags includeRegex (pre ++ "{- " ++ k ++ " " ++ [quote] ++ partial) = true /\
  test noFlags commandRegex (pre ++ "{- " ++ k ++ " " ++ [quote] ++ partial) = true.
Proof.
  intros Hk Hq Hb. split.
  - set (s0 := at_ (rev pre ++ []) ("{- " ++ k ++ " " ++ [quote] ++ partial)).
    set (s1 := mk (rev "{-" ++ seen s0) (" " ++ k ++ " " ++ [quote] ++ partial) []).
    set (s2 := mk (rev " " ++ seen s1) (k ++ " " ++ [quote] ++ partial) []).
    set (s3 := mk (rev k ++ seen s2) (" " ++ [quote] ++ partial) []).
    set (s4 := mk (rev " " ++ seen s3) ([quote] ++ partial) []).
    set (s5 := mk (quote :: seen s4) partial []).
    set (s6 := mk (rev partial ++ seen s5) [] [(1, partial)]).
    apply (test_finds noFlags includeRegex pre _ s6). fold s0.
    unfold includeRegex, ws.
    apply hd_seq with (x := s1); [rewrite (m_lit "{-" s0 _ eq_refl); reflexivity|].
    apply hd_seq with (x := s2).
    { apply (hd_star_class noFlags false [Sp] " " s1 _ eq_refl).
      - repeat constructor.
      - destruct Hk as [-> | ->]; reflexivity. }
    apply hd_seq with (x := s3).
    { destruct Hk as [-> | ->].
      - apply hd_alt_l. rewrite (m_lit "include" s2 _ eq_refl). reflexivity.
      - rewrite hd_alt_r by (apply m_lit_fail; reflexivity).
        rewrite (m_lit "extends" s2 _ eq_refl). reflexivity. }
    apply hd_seq with (x := s4).
    { apply (hd_plus_class noFlags false [Sp] " " [] s3 _ eq_refl).
      - repeat constructor.
      - reflexivity. }
    apply hd_seq with (x := s5).
    { erewrite m_char; [|reflexivity|reflexivity]. reflexivity. }
    apply hd_seq with (x := s6).
    { rewrite (hd_group noFlags 1 _ s5 (mk (rev partial ++ seen s5) [] [])).
      - unfold set_cap. rewrite consumed_run. reflexivity.
      - apply (hd_star_class noFlags true [One quote] partial s5 []).
        + cbn [rest s5 mk]. rewrite app_nil_r. reflexivity.
        + exact Hq.
        + exact I. }
    reflexivity.
  - set (body := " " ++ k ++ " " ++ [quote] ++ partial).
    set (s0 := at_ (rev pre ++ []) ("{-" ++ body)).
    set (s1 := mk (rev "{-" ++ seen s0) body []).
    set (s2 := mk (rev body ++ seen s1) [] [(1, body)]).
    apply (test_finds noFlags commandRegex pre ("{-" ++ body) s2). fold s0.
    unfold commandRegex.
    apply hd_seq with (x := s1); [rewrite (m_lit "{-" s0 _ eq_refl); reflexivity|].
    apply hd_seq with (x := s2); [|reflexivity].
    rewrite (hd_group noFlags 1 _ s1 (mk (rev body ++ seen s1) [] [])).
    + unfold set_cap. rewrite consumed_run. reflexivity.
    + apply (hd_star_class noFlags true [One "}"] body s1 []).
      * cbn [rest s1 mk]. rewrite app_nil_r. reflexivity.
      * unfold body. constructor; [reflexivity|].
        apply Forall_app. split; [destruct Hk as [-> | ->]; repeat constructor|].
        constructor; [reflexivity|]. constructor; [reflexivity|]. exact Hb.
      * exact I.
Qed.

(** C1.  When the line prefix matches the include/extends path pattern and
    the command-body pattern at once, the request returns the block
    snippets found so far followed by the template-file candidates and
    nothing else: no keyword and no common expression is contributed. *)
Theorem path_completion_short_circuits
        (w : Workspace) (document : TextDocument) (position : Position)
        (lineText : str) :
  lineAt document position = Ok lineText ->
  test noFlags includeRegex (Str.substr lineText 0 (character position)) = true ->
  test noFlags commandRegex (Str.substr lineText 0 (character position)) = true ->
  exists blockCompletion,
    getBlockCompletions (Str.substr lineText 0 (character position)) position document
      = Ok blockCompletion /\
    provideCompletionItems w document position
      = Ok (Some (match blockCompletion with Some l => l | None => [] end
                  ++ getTemplateFileCompletions w)) /\
    forall items it,
      provideCompletionItems w document position = Ok (Some items) ->
      In it items -> kind it = SnippetKind \/ kind it = FileKind.
Proof.
  intros Hline Hinc _.
  assert (Hc : 1 <= character position).
  { destruct (character position) as [|c]; [|lia].
    unfold Str.substr in Hinc. simpl in Hinc. discriminate. }
  destruct (getBlockCompletions_returns (Str.substr lineText 0 (character position))
              position document Hc) as (r & Er & Hkind).
  exists r. split; [exact Er|].
  assert (E : provideCompletionItems w document position
              = Ok (Some (match r with Some l => l | None => [] end
                          ++ getTemplateFileCompletions w))).
  { unfold provideCompletionItems. rewrite Hline. cbn [bind].
    rewrite Er. cbn [bind]. rewrite Hinc. reflexivity. }
  split; [exact E|].
  intros items it E' Hin. rewrite E in E'. injection E' as <-.
  apply in_app_or in Hin. destruct Hin as [Hin|Hin].
  - left. destruct r as [l|]; [|destruct Hin]. eapply Hkind; eauto.
  - right. eapply template_items_are_files; eauto.
Qed.

Lemma path_completion_short_circuits_witness :
  exists blockCompletion,
    getBlockCompletions (Str.substr includePrefix 0 15) (cursor 0 15) (oneLine includePrefix)
      = Ok blockCompletion /\
    provideCompletionItems emptyWorkspace (oneLine includePrefix) (cursor 0 15)
      = Ok (Some (match blockCompletion with Some l => l | None => [] end
                  ++ getTemplateFileCompletions emptyWorkspace)) /\
    forall items it,
      provideCompletionItems emptyWorkspace (oneLine includePrefix) (cursor 0 15)
        = Ok (Some items) ->
      In it items -> kind it = SnippetKind \/ kind it = FileKind.
Proof.
  apply (path_completion_short_circuits emptyWorkspace (oneLine includePrefix)
           (cursor 0 15) includePrefix); reflexivity.
Defined.

(** X21.  Past the two early returns, an empty accumulated list is reported as
    no opinion, never as a list. *)
Lemma accumulated_list_never_empty w document position :
  (forall lineText, lineAt document position = Ok lineText ->
     test noFlags includeRegex (Str.substr lineText 0 (character position)) = false /\
     (if test noFlags openBlockRegex (Str.substr lineText 0 (character position))
      then exec noFlags dotRegex (Str.substr lineText 0 (character position))
      else None) = None) ->
  provideCompletionItems w document position <> Ok (Some []).
Proof.
  intros H. unfold provideCompletionItems.
  destruct (lineAt document position) as [lineText| |]; cbn [bind]; try discriminate.
  destruct (H lineText eq_refl) as [Hinc Hdot]. clear H.
  destruct (getBlockCompletions _ position document) as [blk| |];
    cbn [bind]; try discriminate.
  rewrite Hinc, Hdot.
  destruct (test noFlags commandRegex _);
    [destruct (getCommonExpressions document); cbn [bind]; try discriminate|];
    cbn [bind];
    (destruct (test noFlags expressionRegex _);
     [destruct (getCommonExpressions document); cbn [bind]; try discriminate|]);
    cbn [bind];
    match goal with
    | |- Ok (match ?l with [] => None | _ :: _ => Some ?l end) <> _ =>
        destruct l; discriminate
    end.
Qed.

(** C2.  The two early returns hand back the list they built even when it
    is empty: an include path with no template file, and a dot access on a
    root with no fields, both yield the empty list and not the no-opinion
    result. *)
Theorem short_circuit_returns_empty_list :
  provideCompletionItems emptyWorkspace (oneLine ("{- include " ++ [quote])) (cursor 0 12)
    = Ok (Some [])
  /\ provideCompletionItems emptyWorkspace (oneLine "{: foo.") (cursor 0 7)
    = Ok (Some []).
Proof. split; reflexivity. Qed.

(** *** Block snippets: replace span and committed text *)

Lemma nextChar_is_closer post :
  Str.eqb (firstn (Nat.min (length post) 1) post) "}" = Str.startsWith "}" post.
Proof.
  destruct post as [|c [|d post]]; cbn [length Nat.min firstn].
  - reflexivity.
  - change (L "}") with ["}"%char]. rewrite Str_eqb_single. simpl.
    rewrite andb_true_r. reflexivity.
  - change (L "}") with ["}"%char]. rewrite Str_eqb_single. simpl.
    rewrite andb_true_r. reflexivity.
Qed.

(** The replace span computed on a line [pre ++ opener ++ post] with the
    cursor just after the opener. *)
Lemma block_span before after sep pre opener post :
  length opener = 2 ->
  let lineText := pre ++ opener ++ post in
  let document := {| lines := before ++ lineText :: after; eol := sep |} in
  let position := cursor (length before) (length pre + 2) in
  exists next,
    translate position 0 (-1) = Ok (cursor (length before) (length pre + 1)) /\
    translate position 0 1 = Ok next /\
    (if Str.eqb (getTextIn document {| start := position; stop := next |}) "}"
     then next else position)
    = cursor (length before) (length pre + 2 + closerAhead post).
Proof.
  intros Hop lineText document position.
  exists (cursor (length before) (length pre + 3)).
  split; [|split].
  - rewrite translate_left by (simpl; lia). unfold cursor. simpl.
    f_equal. f_equal. lia.
  - rewrite translate_right. unfold cursor. simpl. f_equal. f_equal. lia.
  - assert (Hn : nth (length before) (before ++ lineText :: after) [] = lineText)
      by apply nth_middle.
    assert (Hlen : length lineText = length pre + 2 + length post).
    { unfold lineText. rewrite !length_app. lia. }
    unfold getTextIn, validatePosition.
    change (lines document) with (before ++ lineText :: after).
    cbn [line character start stop cursor position].
    rewrite length_app. cbn [length].
    destruct (Nat.leb_spec (length before + S (length after)) (length before)); [lia|].
    cbn [line character]. rewrite Nat.eqb_refl, Hn, Hlen.
    replace (Nat.min (length pre + 2) (length pre + 2 + length post))
      with (length (pre ++ opener)) by (rewrite length_app; lia).
    replace (Nat.min (length pre + 3) (length pre + 2 + length post) - length (pre ++ opener))
      with (Nat.min (length post) 1) by (rewrite length_app; lia).
    unfold lineText. rewrite app_assoc, substr_after, nextChar_is_closer.
    unfold closerAhead, position.
    destruct (Str.startsWith "}" post); unfold cursor; f_equal; lia.
Qed.

Lemma commit_command_block pre post k :
  k <= length post ->
  commit (pre ++ "{-" ++ post)
         {| start := cursor 0 (length pre + 1); stop := cursor 0 (length pre + 2 + k) |}
         "- $0 -}"
  = (pre ++ "{-  -}" ++ skipn k post, length pre + 3).
Proof.
  intros Hk. unfold commit. cbn [character start stop cursor].
  change (expand "- $0 -}") with (L "-  -}", Some 2). cbv iota beta.
  f_equal; [|lia].
  rewrite firstn_app, firstn_all2 by lia.
  replace (length pre + 1 - length pre) with 1 by lia.
  rewrite skipn_app, (skipn_all2 pre) by lia.
  replace (length pre + 2 + k - length pre) with (2 + k) by lia.
  simpl. rewrite <- app_assoc. reflexivity.
Qed.

(** C4 (amended).  On a line whose prefix ends with one of the openers
    [{-], [{:], [{<], every block snippet replaces exactly the last opener
    character, and one more character when a closing brace follows the
    cursor.  Committing the command-block template [- $0 -}] over that span
    leaves the closed block [{-  -}], a dash, two spaces and a dash, with
    the cursor between the two spaces. *)
Theorem block_snippet_span_and_commit
        (before after : list str) (sep pre opener post : str) :
  In opener [L "{-"; L "{:"; L "{<"] ->
  let lineText := pre ++ opener ++ post in
  let document := {| lines := before ++ lineText :: after; eol := sep |} in
  let position := cursor (length before) (length pre + 2) in
  let span := {| start := cursor (length before) (length pre + 1);
                 stop := cursor (length before) (length pre + 2 + closerAhead post) |} in
  exists items,
    getBlockCompletions (pre ++ opener) position document = Ok (Some items) /\
    items <> [] /\
    (forall it, In it items -> range it = Some span) /\
    (opener = L "{-" ->
     exists it, items = [it] /\ insertText it = Some (L "- $0 -}") /\
       commit lineText span "- $0 -}"
       = (pre ++ "{-  -}" ++ skipn (closerAhead post) post, length pre + 3)).
Proof.
  intros Hop lineText document position span.
  assert (Hlen : length opener = 2).
  { simpl in Hop. destruct Hop as [<-|[<-|[<-|[]]]]; reflexivity. }
  destruct (block_span before after sep pre opener post Hlen)
    as (next & Hl & Hr & Hend).
  fold lineText document position in Hl, Hr, Hend.
  unfold getBlockCompletions. rewrite Hl, Hr. cbn [bind]. rewrite Hend.
  fold span.
  assert (Hcommit : commit (pre ++ "{-" ++ post) span "- $0 -}"
            = (pre ++ "{-  -}" ++ skipn (closerAhead post) post, length pre + 3)).
  { assert (Hk : closerAhead post <= length post).
    { unfold closerAhead. destruct post; simpl; [lia|].
      destruct (_ && _); lia. }
    rewrite <- (commit_command_block pre post (closerAhead post) Hk).
    reflexivity. }
  simpl in Hop. destruct Hop as [<-|[<-|[<-|[]]]].
  - rewrite endsWith_app. eexists. split; [reflexivity|].
    split; [discriminate|]. split.
    + intros it [<-|[]]. reflexivity.
    + intros _. eexists. split; [reflexivity|]. split; [reflexivity|].
      exact Hcommit.
  - replace (Str.endsWith "{-" (pre ++ ["{"; ":"]%char)) with false
      by (symmetry; apply (endsWith_other pre "{" ":" "{" "-"); reflexivity).
    change ["{"; ":"]%char with (L "{:").
    rewrite endsWith_app. eexists. split; [reflexivity|].
    split; [discriminate|]. split.
    + intros it [<-|[]]. reflexivity.
    + intros E. discriminate E.
  - replace (Str.endsWith "{-" (pre ++ ["{"; "<"]%char)) with false
      by (symmetry; apply (endsWith_other pre "{" "<" "{" "-"); reflexivity).
    replace (Str.endsWith "{:" (pre ++ ["{"; "<"]%char)) with false
      by (symmetry; apply (endsWith_other pre "{" "<" "{" ":"); reflexivity).
    change ["{"; "<"]%char with (L "{<").
    rewrite endsWith_app. eexists. split; [reflexivity|].
    split; [discriminate|]. split.
    + intros it [<-|[<-|[<-|[]]]]; reflexivity.
    + intros E. discriminate E.
Qed.

Lemma block_snippet_span_and_commit_witness :
  exists items,
    getBlockCompletions ("<p>" ++ "{-") (cursor 0 5) (oneLine ("<p>" ++ "{-" ++ "}</p>"))
      = Ok (Some items) /\
    items <> [] /\
    (forall it, In it items ->
       range it = Some {| start := cursor 0 4; stop := cursor 0 6 |}) /\
    (L "{-" = L "{-" ->
     exists it, items = [it] /\ insertText it = Some (L "- $0 -}") /\
       commit ("<p>" ++ "{-" ++ "}</p>") {| start := cursor 0 4; stop := cursor 0 6 |}
              "- $0 -}"
       = ("<p>" ++ "{-  -}" ++ "</p>", 6)).
Proof.
  apply (block_snippet_span_and_commit [] [] newline "<p>" "{-" "}</p>").
  simpl. left. reflexivity.
Defined.

(** C4, in the wording of the specification, fails: the committed text has
    two spaces between the dashes, so it is not the five-character text
    [{- -}]. *)
Lemma block_commit_is_not_single_spaced :
  exists it span,
    getBlockCompletions "{-" (cursor 0 2) (oneLine "{-") = Ok (Some [it]) /\
    range it = Some span /\
    insertText it = Some (L "- $0 -}") /\
    commit "{-" span "- $0 -}" = (L "{-  -}", 3) /\
    fst (commit "{-" span "- $0 -}") <> L "{- -}".
Proof.
  eexists. eexists. split; [reflexivity|]. split; [reflexivity|].
  split; [reflexivity|]. split; [reflexivity|]. discriminate.
Qed.

(** *** Shortcode and template lookups *)

Lemma shortcode_labels w :
  labelsOf (getShortcodeCompletions w)
  = firstSeen (map shortcodeName (findFiles w "**/shortcodes/*.{html,md}" None)).
Proof.
  unfold getShortcodeCompletions, labelsOf. rewrite map_map.
  cbn [label withDocumentation withDetail newItem]. rewrite map_id.
  generalize (findFiles w "**/shortcodes/*.{html,md}" None) as files.
  intros files.
  assert (E : forall s,
             fold_left (fun names file =>
                          JsSet.add names
                            (Path.basename (fsPath file) (Path.extname (fsPath file))))
                       files s
             = fold_left JsSet.add (map shortcodeName files) s).
  { induction files as [|f files IH]; intros s; simpl; [reflexivity|]. apply IH. }
  rewrite E, set_add_all, filter_absent_empty. reflexivity.
Qed.

Lemma template_labels w :
  labelsOf (getTemplateFileCompletions w)
  = map templateName (findFiles w "**/templates/*.{html,md}" None).
Proof.
  unfold getTemplateFileCompletions, labelsOf. rewrite map_map. reflexivity.
Qed.

(** Whatever paths are enumerated, the shortcode lookup yields one candidate
    per distinct derived name, in first-seen order, and the template lookup
    one candidate per file. *)
Lemma lookups_on_any_enumeration (w : Workspace) :
  let shortcodeFiles := findFiles w "**/shortcodes/*.{html,md}" None in
  let templateFiles := findFiles w "**/templates/*.{html,md}" None in
  NoDup (labelsOf (getShortcodeCompletions w)) /\
  (forall name, In name (labelsOf (getShortcodeCompletions w))
                <-> In name (map shortcodeName shortcodeFiles)) /\
  labelsOf (getShortcodeCompletions w) = firstSeen (map shortcodeName shortcodeFiles) /\
  length (getTemplateFileCompletions w) = length templateFiles /\
  labelsOf (getTemplateFileCompletions w) = map templateName templateFiles.
Proof.
  intros shortcodeFiles templateFiles.
  rewrite shortcode_labels. fold shortcodeFiles.
  split; [apply firstSeen_NoDup|].
  split; [intros name; apply firstSeen_In|].
  split; [reflexivity|].
  split; [unfold getTemplateFileCompletions; apply length_map|].
  apply template_labels.
Qed.

(** The lookup on an enumeration a workspace can produce: files of the same
    name in two [templates] directories, or with two extensions in one. *)
Example same_name_templates :
  labelsOf (getTemplateFileCompletions
              (templatesWorkspace [ {| fsPath := "/site/x/templates/a.html" |};
                                    {| fsPath := "/site/y/templates/a.md" |};
                                    {| fsPath := "/site/y/templates/a.html" |} ]))
  = [L "a"; L "a"; L "a"].
Proof. reflexivity. Qed.

(** *** The variable scan *)

Lemma fold_scanMatch matches : forall st,
  fold_left scanMatch matches st = fold_left addVariable (scannedNames matches) st.
Proof.
  induction matches as [|mt matches IH]; intros st; simpl; [reflexivity|].
  unfold scannedNames in *. rewrite fold_left_app, IH. reflexivity.
Qed.

Lemma fold_addVariable vars : forall items labels,
  fold_left addVariable vars (items, labels)
  = (items ++ map userVariable (firstSeen (filter (absent labels) vars)),
     labels ++ firstSeen (filter (absent labels) vars)).
Proof.
  induction vars as [|v vars IH]; intros items labels; simpl.
  - rewrite !app_nil_r. reflexivity.
  - assert (A : absent labels v = negb (JsSet.has labels v)) by reflexivity.
    destruct (JsSet.has labels v) eqn:E; simpl in A; rewrite A.
    + apply IH.
    + unfold JsSet.add. rewrite E, IH, filter_absent_app, firstSeen_filter.
      cbn [firstSeen map]. rewrite <- !app_assoc. reflexivity.
Qed.


Lemma static_label_set : JsSet.of_list (map label staticExpressions) = staticLabels.
Proof. reflexivity. Qed.

Lemma sigil_absent_from_static v :
  Str.startsWith "$" v = true -> absent staticLabels v = true.
Proof.
  intros H. destruct v as [|c v]; [discriminate|].
  change (Str.startsWith "$" (c :: v)) with (Ascii.eqb "$" c && true) in H.
  rewrite andb_true_r in H. apply Ascii.eqb_eq in H. subst c.
  unfold absent, JsSet.has, staticLabels. apply negb_true_iff.
  apply not_true_is_false. intros E. apply existsb_exists in E.
  destruct E as (l & Hin & E). apply Str_eqb_eq in E. subst l.
  simpl in Hin. repeat (destruct Hin as [Hin|Hin]; [discriminate|]). exact Hin.
Qed.

Lemma sigilTokens_sigil captured v :
  In v (sigilTokens captured) -> Str.startsWith "$" v = true.
Proof. unfold sigilTokens. intros H. apply filter_In in H. tauto. Qed.

Lemma varRegex_not_nullable : nullable varRegex = false.
Proof. reflexivity. Qed.

(** The generator always returns: the static entries, then the scanned
    names, each once, in first-seen order. *)
Lemma getCommonExpressions_scan document :
  exists matches,
    exec_all noFlags varRegex (getText document) = Some matches /\
    getCommonExpressions document
    = Ok (staticExpressions ++ map userVariable (firstSeen (scannedNames matches))).
Proof.
  destruct (exec_all_total noFlags varRegex (getText document) varRegex_not_nullable)
    as [matches E].
  exists matches. split; [exact E|].
  unfold getCommonExpressions. rewrite E. cbn [loop_result bind].
  rewrite static_label_set, fold_scanMatch, fold_addVariable. cbn [fst].
  rewrite filter_all_true; [reflexivity|].
  intros v Hv. apply sigil_absent_from_static.
  unfold scannedNames in Hv. apply in_flat_map in Hv.
  destruct Hv as (mt & _ & Hv). eapply sigilTokens_sigil; eauto.
Qed.

(** *** The variable scan on the heap *)

Lemma Ok_inj {A} (a b : A) : Ok a = Ok b -> a = b.
Proof. intros H. injection H as ->. reflexivity. Qed.

Lemma search_at_text fl r before after res :
  search_at fl r before after = Some res ->
  rev (seen (final res)) ++ rest (final res) = rev before ++ after.
Proof.
  intros E. apply search_at_some in E. destruct E as (sk & af & -> & H1 & _).
  assert (Hin : In (final res) (m fl r (at_ (rev sk ++ before) af))).
  { destruct (m fl r _); [discriminate|]. injection H1 as ->. now left. }
  apply m_reaches in Hin. destruct Hin as (w & Hr & Hs).
  cbn [rest seen at_] in Hr, Hs. rewrite Hs, Hr.
  rewrite !rev_app_distr, !rev_involutive. rewrite <- !app_assoc. reflexivity.
Qed.

Lemma firstn_rev_app (before after : str) :
  rev (firstn (length before) (rev before ++ after)) = before.
Proof.
  rewrite <- (length_rev before), firstn_app, Nat.sub_diag, firstn_all.
  cbn [firstn]. rewrite app_nil_r. apply rev_involutive.
Qed.

Lemma skipn_rev_app (before after : str) :
  skipn (length before) (rev before ++ after) = after.
Proof.
  rewrite <- (length_rev before), skipn_app, Nat.sub_diag, skipn_all.
  reflexivity.
Qed.

Section Heap.

Import Stateful.

Variables regex items set : Ref.
Hypothesis items_set : items <> set.
Hypothesis items_regex : items <> regex.
Hypothesis set_regex : set <> regex.

Lemma addVariable_heap h its labels v :
  objs h items = Some (ArrayObj its) -> objs h set = Some (SetObj labels) ->
  objs (Stateful.addVariable items set h v) items
    = Some (ArrayObj (fst (Provider.addVariable (its, labels) v))) /\
  objs (Stateful.addVariable items set h v) set
    = Some (SetObj (snd (Provider.addVariable (its, labels) v))) /\
  (forall r, r <> items -> r <> set -> objs (Stateful.addVariable items set h v) r = objs h r) /\
  next (Stateful.addVariable items set h v) = next h.
Proof.
  intros Hi Hs. unfold Stateful.addVariable, Provider.addVariable, setOf.
  rewrite Hs. destruct (JsSet.has labels v) eqn:E.
  - cbn [fst snd]. auto.
  - unfold setAdd, push, write, setOf, arrayOf. cbn [objs next fst snd].
    rewrite Hi. rewrite Nat.eqb_refl.
    replace (items =? set) with false by (symmetry; apply Nat.eqb_neq; exact items_set).
    replace (set =? items) with false
      by (symmetry; apply Nat.eqb_neq; intros H; apply items_set; symmetry; exact H).
    rewrite Hs, Nat.eqb_refl.
    split; [reflexivity|]. split; [reflexivity|]. split; [|reflexivity].
    intros r H1 H2.
    apply Nat.eqb_neq in H1, H2. rewrite H1, H2. reflexivity.
Qed.

Lemma tokens_heap tokens : forall h its labels,
  objs h items = Some (ArrayObj its) -> objs h set = Some (SetObj labels) ->
  let h' := fold_left (Stateful.addVariable items set) tokens h in
  let st := fold_left Provider.addVariable tokens (its, labels) in
  objs h' items = Some (ArrayObj (fst st)) /\
  objs h' set = Some (SetObj (snd st)) /\
  (forall r, r <> items -> r <> set -> objs h' r = objs h r) /\
  next h' = next h.
Proof.
  induction tokens as [|v tokens IH]; intros h its labels Hi Hs; cbn [fold_left].
  - cbn [fst snd]. auto.
  - destruct (addVariable_heap h its labels v Hi Hs) as (A1 & A2 & A3 & A4).
    destruct (Provider.addVariable (its, labels) v) as [its' labels'] eqn:E.
    cbn [fst snd] in A1, A2.
    destruct (IH _ its' labels' A1 A2) as (B1 & B2 & B3 & B4).
    cbv zeta in *.
    split; [exact B1|]. split; [exact B2|]. split.
    + intros r H1 H2. rewrite B3 by assumption. apply A3; assumption.
    + rewrite B4. exact A4.
Qed.

Lemma scan_heap fuel : forall before after h its labels results,
  objs h regex = Some (RegExpObj (length before)) ->
  objs h items = Some (ArrayObj its) -> objs h set = Some (SetObj labels) ->
  exec_loop noFlags varRegex fuel before after = Some results ->
  exists h',
    scan fuel regex items set (rev before ++ after) h = (Ok tt, h') /\
    objs h' items = Some (ArrayObj (fst (fold_left scanMatch results (its, labels)))) /\
    objs h' set = Some (SetObj (snd (fold_left scanMatch results (its, labels)))) /\
    objs h' regex = Some (RegExpObj 0) /\
    (forall r, r <> regex -> r <> items -> r <> set -> objs h' r = objs h r) /\
    next h' = next h.
Proof.
  induction fuel as [|fuel IH]; intros before after h its labels results Hr Hi Hs E;
    [discriminate|].
  cbn [exec_loop] in E. cbn [scan]. unfold execG, lastIndexOf. rewrite Hr.
  assert (Hlen : (length (rev before ++ after) <? length before) = false).
  { apply Nat.ltb_ge. rewrite length_app, length_rev. lia. }
  rewrite Hlen, firstn_rev_app, skipn_rev_app.
  assert (Nir : (items =? regex) = false) by (apply Nat.eqb_neq; exact items_regex).
  assert (Nsr : (set =? regex) = false) by (apply Nat.eqb_neq; exact set_regex).
  destruct (search_at noFlags varRegex before after) as [res|] eqn:Es.
  - destruct (length (rest (final res)) <? length after); [|discriminate].
    destruct (exec_loop noFlags varRegex fuel (seen (final res)) (rest (final res)))
      as [more|] eqn:Em; [|discriminate].
    cbn [option_map] in E. injection E as <-.
    set (h1 := write regex (RegExpObj (Regex.lastIndex res)) h).
    assert (Hi1 : objs h1 items = Some (ArrayObj its)).
    { unfold h1, write. cbn [objs]. rewrite Nir. exact Hi. }
    assert (Hs1 : objs h1 set = Some (SetObj labels)).
    { unfold h1, write. cbn [objs]. rewrite Nsr. exact Hs. }
    destruct (tokens_heap (sigilTokens (group 1 res)) h1 its labels Hi1 Hs1)
      as (T1 & T2 & T3 & T4).
    cbv zeta in T1, T2, T3, T4.
    set (h2 := fold_left (Stateful.addVariable items set) (sigilTokens (group 1 res)) h1) in *.
    assert (Hr2 : objs h2 regex = Some (RegExpObj (length (seen (final res))))).
    { rewrite T3.
      2: { intros H. apply items_regex. symmetry. exact H. }
      2: { intros H. apply set_regex. symmetry. exact H. }
      unfold h1, write. cbn [objs]. rewrite Nat.eqb_refl. reflexivity. }
    destruct (fold_left Provider.addVariable (sigilTokens (group 1 res)) (its, labels))
      as [its' labels'] eqn:Ef.
    cbn [fst snd] in T1, T2.
    destruct (IH _ _ h2 its' labels' more Hr2 T1 T2 Em) as (h' & S1 & S2 & S3 & S4 & S5 & S6).
    rewrite (search_at_text _ _ _ _ _ Es) in S1.
    exists h'. split; [exact S1|]. cbn [fold_left]. unfold scanMatch at 2 4. rewrite Ef.
    split; [exact S2|]. split; [exact S3|]. split; [exact S4|]. split.
    + intros r H1 H2 H3. rewrite S5 by assumption. rewrite T3 by assumption.
      unfold h1, write. cbn [objs]. apply Nat.eqb_neq in H1. rewrite H1. reflexivity.
    + rewrite S6, T4. reflexivity.
  - injection E as <-. eexists. split; [reflexivity|].
    unfold write. cbn [objs next fold_left fst snd]. rewrite Nir, Nsr, Nat.eqb_refl.
    split; [exact Hi|]. split; [exact Hs|]. split; [reflexivity|]. split; [|reflexivity].
    intros r H1 _ _. apply Nat.eqb_neq in H1. rewrite H1. reflexivity.
Qed.

End Heap.

Section Calls.

Import Stateful.

Lemma push_all items l : forall h its,
  objs h items = Some (ArrayObj its) ->
  let h' := fold_left (fun h item => push items item h) l h in
  objs h' items = Some (ArrayObj (its ++ l)) /\
  (forall r, r <> items -> objs h' r = objs h r) /\
  next h' = next h.
Proof.
  induction l as [|x l IH]; intros h its Hi; cbn [fold_left]; cbv zeta.
  - rewrite app_nil_r. auto.
  - assert (Hp : objs (push items x h) items = Some (ArrayObj (its ++ [x]))).
    { unfold push, write, arrayOf. cbn [objs]. rewrite Nat.eqb_refl, Hi. reflexivity. }
    destruct (IH _ _ Hp) as (A1 & A2 & A3). cbv zeta in A1, A2, A3.
    split; [rewrite A1, <- app_assoc; reflexivity|]. split.
    + intros r Hr. rewrite A2 by exact Hr. unfold push, write. cbn [objs].
      apply Nat.eqb_neq in Hr. rewrite Hr. reflexivity.
    + rewrite A3. reflexivity.
Qed.

(** A call on any store returns what the scan of the text alone gives; it
    works on three objects of its own and leaves the others as they
    were. *)
Lemma stateful_call document h :
  exists items h',
    Stateful.getCommonExpressions document h = (Ok items, h') /\
    Provider.getCommonExpressions document = Ok items /\
    (forall r, r < next h -> objs h' r = objs h r) /\
    next h' = 3 + next h.
Proof.
  destruct (exec_all_total noFlags varRegex (getText document) varRegex_not_nullable)
    as [matches E].
  unfold Stateful.getCommonExpressions, Provider.getCommonExpressions.
  rewrite E. cbn [loop_result bind alloc].
  set (items := next h).
  set (h1 := {| next := S items; objs := fun r => if r =? items then Some (ArrayObj []) else objs h r |}).
  assert (H1 : objs h1 items = Some (ArrayObj [])).
  { unfold h1. cbn [objs]. rewrite Nat.eqb_refl. reflexivity. }
  destruct (push_all items staticExpressions h1 [] H1) as (P1 & P2 & P3).
  cbv zeta in P1, P2, P3. cbn [app] in P1.
  set (h2 := fold_left (fun h item => push items item h) staticExpressions h1) in *.
  assert (A2 : arrayOf items h2 = staticExpressions)
    by (unfold arrayOf; rewrite P1; reflexivity).
  rewrite A2, P3. cbn [next h1].
  set (labels := JsSet.of_list (map label staticExpressions)).
  set (h3 := {| next := S (S items);
                objs := fun r => if r =? S items then Some (SetObj labels) else objs h2 r |}).
  set (h4 := {| next := S (S (S items));
                objs := fun r => if r =? S (S items) then Some (RegExpObj 0) else objs h3 r |}).
  assert (R4 : objs h4 (S (S items)) = Some (RegExpObj (length (@nil ascii)))).
  { unfold h4. cbn [objs]. rewrite Nat.eqb_refl. reflexivity. }
  assert (I4 : objs h4 items = Some (ArrayObj staticExpressions)).
  { unfold h4, h3. cbn [objs].
    replace (items =? S (S items)) with false by (symmetry; apply Nat.eqb_neq; lia).
    replace (items =? S items) with false by (symmetry; apply Nat.eqb_neq; lia).
    exact P1. }
  assert (S4 : objs h4 (S items) = Some (SetObj labels)).
  { unfold h4, h3. cbn [objs].
    replace (S items =? S (S items)) with false by (symmetry; apply Nat.eqb_neq; lia).
    rewrite Nat.eqb_refl. reflexivity. }
  destruct (scan_heap (S (S items)) items (S items) ltac:(lia) ltac:(lia) ltac:(lia)
              (S (length (getText document))) [] (getText document) h4
              staticExpressions labels matches R4 I4 S4 E)
    as (h5 & Q1 & Q2 & _ & _ & Q5 & Q6).
  change (rev [] ++ getText document) with (getText document) in Q1. rewrite Q1.
  eexists. exists h5. split; [reflexivity|].
  unfold arrayOf. rewrite Q2. split; [reflexivity|]. split.
  - intros r Hr. rewrite Q5 by (unfold items; lia).
    unfold h4, h3. cbn [objs].
    replace (r =? S (S items)) with false by (symmetry; apply Nat.eqb_neq; unfold items; lia).
    replace (r =? S items) with false by (symmetry; apply Nat.eqb_neq; unfold items; lia).
    rewrite P2 by (unfold items; lia). unfold h1. cbn [objs].
    replace (r =? items) with false by (symmetry; apply Nat.eqb_neq; unfold items; lia).
    reflexivity.
  - rewrite Q6. reflexivity.
Qed.

End Calls.

(** C8.  The variable scan keeps nothing from one run to the next.  On
    every document, and from every store of objects that earlier calls may
    have left, the generator returns, and its result is the list the text
    of the document alone determines; a second run, started on the store
    the first left, returns the identical ordered list.  The array, the set
    and the regex a run works on are its own: the objects that were there
    before are the same after both runs. *)
Theorem variable_scan_deterministic (document : TextDocument) (h : Stateful.Store) :
  exists items h1 h2,
    Stateful.getCommonExpressions document h = (Ok items, h1) /\
    Stateful.getCommonExpressions document h1 = (Ok items, h2) /\
    getCommonExpressions document = Ok items /\
    (forall r, r < Stateful.next h ->
       Stateful.objs h1 r = Stateful.objs h r /\ Stateful.objs h2 r = Stateful.objs h r).
Proof.
  destruct (stateful_call document h) as (items & h1 & E1 & P1 & F1 & N1).
  destruct (stateful_call document h1) as (items' & h2 & E2 & P2 & F2 & N2).
  rewrite P1 in P2. apply Ok_inj in P2. subst items'.
  exists items, h1, h2. split; [exact E1|]. split; [exact E2|]. split; [exact P1|].
  intros r Hr. split; [apply F1, Hr|]. rewrite F2 by lia. apply F1, Hr.
Qed.

(** The loop itself reads the objects it is given: on a set that holds a
    name already, or a regex stopped further on, it yields fewer names. *)
Example scan_reads_the_store :
  let text : str := "{- set $x = 1 -}{- set $y = 2 -}" in
  labelsOf (Stateful.arrayOf 0 (snd (Stateful.scan 40 2 0 1 text (staleStore [] 0))))
  = [L "$x"; L "$y"] /\
  labelsOf (Stateful.arrayOf 0 (snd (Stateful.scan 40 2 0 1 text (staleStore [L "$x"] 0))))
  = [L "$y"] /\
  labelsOf (Stateful.arrayOf 0 (snd (Stateful.scan 40 2 0 1 text (staleStore [] 5))))
  = [L "$y"].
Proof. vm_compute. repeat split. Qed.

(** *** The binding pattern at a statement *)






(** *** The tokens of a captured name list *)






(** *** The binding pattern away from statements *)




Lemma isKeyword_brace_1 b c : isKeyword "{" b c = false.
Proof. reflexivity. Qed.






(** *** The variable scan of a document with binding statements *)








Example loopPage_text :
  string_of_list_ascii (Template.render loopPage)
  = ("<ul>{- for $item, $i : site.pages -}<li>{- set $n = $i -}"
     ++ "{-set $item=1 -}</li>{- end -}</ul>")%string.
Proof. reflexivity. Qed.


Example loopPage_users :
  firstSeen (declaredNames loopPage) = [L "$item"; L "$i"; L "$n"].
Proof. reflexivity. Qed.

(** *** Field completions and the configuration scanner *)

Lemma field_completions_site w document :
  getFieldCompletions w "site" document
  = Ok [createFieldItem "param" "Global configurations from allay.toml";
        createFieldItem "pages" "List of all markdown pages"].
Proof. reflexivity. Qed.

Lemma field_completions_site_param w document :
  getFieldCompletions w "site.param" document = getAllayConfigKeys w.
Proof. reflexivity. Qed.

Lemma field_completions_elsewhere w parent document :
  parent <> L "site" -> parent <> L "site.param" -> parent <> [] ->
  Str.endsWith "page" parent = false ->
  getFieldCompletions w parent document = Ok [].
Proof.
  intros H1 H2 H3 H4. unfold getFieldCompletions.
  apply Str_eqb_neq in H1, H2, H3. rewrite H1, H2.
  change (L "") with (@nil ascii). rewrite H3, H4. reflexivity.
Qed.

Lemma getAllayConfigKeys_no_file w :
  findFiles w "allay.toml" (Some 1) = [] -> getAllayConfigKeys w = Ok [].
Proof. intros H. unfold getAllayConfigKeys. rewrite H. reflexivity. Qed.

Example plain_config_keys document :
  getFieldCompletions (configWorkspace plainConfig) "site.param" document
  = Ok [createFieldItem "author" "Config from allay.toml";
        createFieldItem "year" "Config from allay.toml"].
Proof. reflexivity. Qed.

(** C5.  The section text stops at the first opening bracket after the
    header, also one inside a value: [arrayConfig] has the two entries
    [tags] and [year] under [Param], and a dot access on [site.param]
    returns a candidate for the first only. *)
Theorem config_section_cut_at_bracket (document : TextDocument) :
  getText arrayConfig = Config.render arrayFile /\
  Config.keys arrayFile = [L "tags"; L "year"] /\
  getFieldCompletions (configWorkspace arrayConfig) "site.param" document
  = Ok [configItem "tags"].
Proof. repeat split; reflexivity. Qed.

Lemma no_header_no_section text :
  mentionsParam text = false -> exec paramBlockFlags paramBlockRegex text = None.
Proof. intros H. apply search_without_header; [reflexivity|exact H]. Qed.

(** Nothing thrown while the configuration is read leaves the scanner. *)
Lemma getAllayConfigKeys_never_throws w e : getAllayConfigKeys w <> Throw e.
Proof.
  unfold getAllayConfigKeys. destruct (findFiles w "allay.toml" (Some 1)) as [|f fs];
    [discriminate|].
  destruct (scanConfig w f []) as [items [u|e'|]]; discriminate.
Qed.

(** With no configuration file, with one that cannot be opened, or with one
    in which [[Param]] occurs nowhere in any letter case, the scanner
    returns the empty list; it does not throw, and the dot-access request
    on [site.param] that called it returns the empty list too. *)
Lemma config_scanner_degrades_to_empty (w : Workspace) (document : TextDocument) :
  ConfigUnavailable w ->
  getAllayConfigKeys w = Ok [] /\
  (forall e, getAllayConfigKeys w <> Throw e) /\
  getFieldCompletions w "site.param" document = Ok [].
Proof.
  intros H.
  assert (E : getAllayConfigKeys w = Ok []).
  { destruct H as [H1|file others e H1 H2|file others config H1 H2 H3];
      unfold getAllayConfigKeys; rewrite H1; try reflexivity;
      unfold scanConfig; rewrite H2; try reflexivity.
    rewrite (no_header_no_section _ H3). reflexivity. }
  split; [exact E|]. split; [apply getAllayConfigKeys_never_throws|].
  rewrite field_completions_site_param. exact E.
Qed.

Example config_scanner_degrades_to_empty_cases :
  (getAllayConfigKeys emptyWorkspace = Ok [] /\
   (forall e, getAllayConfigKeys emptyWorkspace <> Throw e) /\
   getFieldCompletions emptyWorkspace "site.param" authorPage = Ok []) /\
  (getAllayConfigKeys unreadableWorkspace = Ok [] /\
   (forall e, getAllayConfigKeys unreadableWorkspace <> Throw e) /\
   getFieldCompletions unreadableWorkspace "site.param" authorPage = Ok []) /\
  (getAllayConfigKeys (configWorkspace headerlessConfig) = Ok [] /\
   (forall e, getAllayConfigKeys (configWorkspace headerlessConfig) <> Throw e) /\
   getFieldCompletions (configWorkspace headerlessConfig) "site.param" authorPage = Ok []).
Proof.
  split; [|split].
  - apply (config_scanner_degrades_to_empty emptyWorkspace authorPage).
    apply NoConfigFile. reflexivity.
  - apply (config_scanner_degrades_to_empty unreadableWorkspace authorPage).
    eapply UnreadableConfig; reflexivity.
  - apply (config_scanner_degrades_to_empty (configWorkspace headerlessConfig) authorPage).
    eapply NoParamMention; reflexivity.
Qed.

(** C7.  The section pattern is searched in the whole text and takes the
    word [[param]] inside a comment for the header.  No line of
    [commentConfig] is a header of the section [Param], yet the scanner
    returns a candidate for the key [title], the line after the comment,
    and so does the dot-access request on [site.param]: not the empty
    list. *)
Theorem param_mention_read_as_header (document : TextDocument) :
  existsb (isHeaderOf "Param") (lines commentConfig) = false /\
  filter (fun line => Str.startsWith "[" (Str.trim line)) (lines commentConfig)
  = [L "[Build]"] /\
  mentionsParam (getText commentConfig) = true /\
  getAllayConfigKeys (configWorkspace commentConfig) = Ok [configItem "title"] /\
  getFieldCompletions (configWorkspace commentConfig) "site.param" document
  = Ok [configItem "title"] /\
  getAllayConfigKeys (configWorkspace commentConfig) <> Ok [].
Proof.
  assert (E : getAllayConfigKeys (configWorkspace commentConfig) = Ok [configItem "title"])
    by (vm_compute; reflexivity).
  split; [reflexivity|]. split; [reflexivity|]. split; [reflexivity|].
  split; [exact E|]. split; [reflexivity|].
  rewrite E. discriminate.
Qed.

(** *** Page keys from the scanned front-matter keys *)

Lemma frontMatterKeys_total text : exists keys, frontMatterKeys text = Some keys.
Proof.
  unfold frontMatterKeys. destruct (exec noFlags yamlRegex text) as [mt|]; [|eauto].
  destruct (exec_all_total keyFlags yamlKeyRegex (group 1 mt) eq_refl) as [l E].
  rewrite E. simpl. eauto.
Qed.

Lemma fold_custom_keys keys : forall items,
  fold_left (fun items keyMatch =>
               let key := group 1 keyMatch in
               if negb (JsSet.has standardFields key)
               then items ++ [customItem key] else items) keys items
  = items ++ map customItem (filter (absent standardFields) (map (group 1) keys)).
Proof.
  induction keys as [|k keys IH]; intros items; cbn [fold_left map filter];
    [now rewrite app_nil_r|].
  rewrite IH. cbv zeta.
  assert (A : absent standardFields (group 1 k)
              = negb (JsSet.has standardFields (group 1 k))) by reflexivity.
  rewrite A. destruct (negb (JsSet.has standardFields (group 1 k)));
    cbn [map]; [rewrite <- app_assoc|]; reflexivity.
Qed.

Lemma getMarkdownPageKeys_keys document keys :
  frontMatterKeys (getText document) = Some keys ->
  getMarkdownPageKeys document
  = Ok (map standardItem standardFields
        ++ map customItem (filter (absent standardFields) keys)).
Proof.
  unfold frontMatterKeys, getMarkdownPageKeys. intros H.
  destruct (exec noFlags yamlRegex (getText document)) as [mt|].
  - destruct (exec_all keyFlags yamlKeyRegex (group 1 mt)) as [l|]; [|discriminate].
    injection H as <-. cbn [loop_result bind].
    change (fold_left JsSet.add standardFields JsSet.empty) with standardFields.
    rewrite (fold_custom_keys l). reflexivity.
  - injection H as <-. cbn [filter map]. rewrite app_nil_r. reflexivity.
Qed.

Lemma page_scope_completions w parent document :
  pageScope parent = true ->
  getFieldCompletions w parent document = getMarkdownPageKeys document.
Proof.
  intros H. unfold getFieldCompletions.
  destruct (Str.eqb parent "site") eqn:E1.
  { apply Str_eqb_eq in E1. subst parent. discriminate H. }
  destruct (Str.eqb parent "site.param") eqn:E2.
  { apply Str_eqb_eq in E2. subst parent. discriminate H. }
  unfold pageScope in H. rewrite H. reflexivity.
Qed.

Lemma labels_of_page_items keys :
  labelsOf (map standardItem standardFields
            ++ map customItem (filter (absent standardFields) keys))
  = standardFields ++ filter (absent standardFields) keys.
Proof.
  unfold labelsOf. rewrite map_app, !map_map. cbn [label standardItem customItem
    createFieldItem withDetail newItem]. rewrite !map_id. reflexivity.
Qed.

Example author_page_labels :
  option_map (map string_of_list_ascii) (frontMatterKeys (getText authorPage))
  = Some ["title"; "author"]%string /\
  match getFieldCompletions emptyWorkspace "" authorPage with
  | Ok items => map string_of_list_ascii (labelsOf items)
  | _ => []
  end = ["title"; "date"; "description"; "tags"; "template"; "url"; "head";
         "content"; "author"]%string.
Proof. split; reflexivity. Qed.

(** A key that is not a standard field is returned as often as the scan
    finds it. *)
Lemma custom_keys_follow_scan
        (w : Workspace) (parent : str) (document : TextDocument)
        (keys : list str) (key : str) :
  pageScope parent = true ->
  frontMatterKeys (getText document) = Some keys ->
  ~ In key standardFields ->
  2 <= count_occ str_dec keys key ->
  exists items,
    getFieldCompletions w parent document = Ok items /\
    count_occ str_dec (labelsOf items) key = count_occ str_dec keys key /\
    2 <= count_occ str_dec (labelsOf items) key.
Proof.
  intros Hp Hk Hstd Htwo. eexists.
  rewrite (page_scope_completions _ _ _ Hp), (getMarkdownPageKeys_keys _ _ Hk).
  split; [reflexivity|]. rewrite labels_of_page_items.
  assert (E : count_occ str_dec (standardFields ++ filter (absent standardFields) keys) key
              = count_occ str_dec keys key).
  { rewrite count_occ_app, count_filter_absent.
    apply absent_not_in in Hstd as A. rewrite A.
    rewrite (proj1 (count_occ_not_In str_dec standardFields key) Hstd).
    reflexivity. }
  rewrite E. split; [reflexivity|exact Htwo].
Qed.

(** *** The block pattern on a front-matter block *)

Lemma closing_needs_delimiter s :
  closesAt (rest s) = false -> m noFlags closingPattern s = [].
Proof.
  intros H. destruct (m noFlags closingPattern s) as [|x l] eqn:E; [reflexivity|].
  exfalso. assert (Hin : In x (m noFlags closingPattern s)) by (rewrite E; now left).
  unfold closingPattern in Hin. rewrite m_seq in Hin.
  apply in_flat_map in Hin. destruct Hin as (s1 & H1 & H2).
  apply in_star_class in H1. destruct H1 as (w & E1 & Hw).
  apply in_m_lit in H2.
  unfold closesAt in H. rewrite E1, H2 in H.
  rewrite trimStart_spaces in H
    by (eapply Forall_impl; [|exact Hw]; intros a Ha; rewrite <- space_is_ws; exact Ha).
  discriminate H.
Qed.

Lemma delimiter_not_across q c z :
  q <> [] -> occurs "---" q = false -> Str.isSpace c = true ->
  Str.startsWith "---" (q ++ c :: z) = false.
Proof.
  intros Hq Ho Hc. apply occurs_head in Ho. apply space_not_dash in Hc.
  destruct q as [|a [|b [|d q]]]; [contradiction| | |].
  - cbn [L list_ascii_of_string Str.startsWith app]. rewrite Hc.
    rewrite andb_false_r. reflexivity.
  - cbn [L list_ascii_of_string Str.startsWith app]. rewrite Hc.
    rewrite !andb_false_r. reflexivity.
  - cbn [L list_ascii_of_string Str.startsWith app] in *. exact Ho.
Qed.

Lemma endsSolid_suffix p q : q <> [] -> endsSolid (p ++ q) = true -> endsSolid q = true.
Proof.
  intros Hq. unfold endsSolid. rewrite rev_app_distr.
  destruct (rev q) as [|c l] eqn:E; [|auto].
  apply (f_equal (@rev ascii)) in E. rewrite rev_involutive in E. contradiction.
Qed.

Lemma endsSolid_not_blank q : endsSolid q = true -> Str.trimStart q <> [].
Proof.
  unfold endsSolid. intros H E. apply trimStart_all_space in E.
  apply Forall_rev in E. destruct (rev q) as [|c l]; [discriminate|].
  inversion E as [|? ? Hc _]; subst. rewrite Hc in H. discriminate.
Qed.

(** Inside the content no closing delimiter is next. *)
Lemma no_delimiter_inside body closing_ws z p q :
  occurs "---" body = false -> endsSolid body = true ->
  Forall (fun c => Str.isSpace c = true) closing_ws -> closing_ws <> [] ->
  body = p ++ q -> q <> [] ->
  closesAt (q ++ closing_ws ++ z) = false.
Proof.
  intros Ho He Hc Hne -> Hq.
  apply (endsSolid_suffix p q Hq) in He. apply endsSolid_not_blank in He.
  unfold closesAt. rewrite trimStart_app.
  destruct (Str.trimStart q) as [|a q'] eqn:E; [contradiction|].
  destruct closing_ws as [|c cw]; [contradiction|].
  inversion Hc as [|? ? Hc0 _]; subst.
  destruct (trimStart_suffix q) as [w Ew]. rewrite E in Ew.
  apply delimiter_not_across; [discriminate| |exact Hc0].
  apply (occurs_suffix "---" (p ++ w)). rewrite <- app_assoc, <- Ew. exact Ho.
Qed.

Lemma wf_parts b :
  FrontMatter.wf b = true ->
  Forall (fun c => Str.isSpace c = true) (opening b) /\
  Forall (fun c => Str.isSpace c = true) (closing b) /\
  closing b <> [] /\
  forallb wfEntry (entries b) = true /\
  occurs "---" (content b) = false /\
  endsSolid (content b) = true.
Proof.
  unfold FrontMatter.wf. intros H.
  repeat (apply andb_true_iff in H; destruct H as [H ?]).
  repeat split; auto using forallb_Forall.
  - apply Str_eqb_neq. apply negb_true_iff. assumption.
  - apply negb_true_iff. assumption.
Qed.

Lemma wfEntry_parts e :
  wfEntry e = true ->
  key e <> [] /\ Forall (fun c => isKeyChar c = true) (key e) /\
  Forall (fun c => inLine c = true) (value e).
Proof.
  unfold wfEntry. intros H.
  repeat (apply andb_true_iff in H; destruct H as [H ?]).
  repeat split; auto using forallb_Forall.
  apply Str_eqb_neq. apply negb_true_iff. assumption.
Qed.

Lemma content_starts_solid b :
  FrontMatter.wf b = true ->
  exists c r, content b = c :: r /\ Str.isSpace c = false.
Proof.
  intros H. apply wf_parts in H. destruct H as (_ & _ & _ & He & _ & Hs).
  unfold content in *. destruct (entries b) as [|e es]; [discriminate Hs|].
  cbn [forallb] in He. apply andb_true_iff in He. destruct He as [He _].
  apply wfEntry_parts in He. destruct He as (Hk & Hc & _).
  cbn [map]. rewrite join_cons. unfold renderEntry.
  destruct (key e) as [|c k]; [contradiction|].
  inversion Hc as [|? ? Hc0 _]; subst.
  eexists. eexists. split; [reflexivity|]. apply key_not_space, Hc0.
Qed.

(** On a well-formed block the block pattern captures the content. *)
Lemma yaml_block b :
  FrontMatter.wf b = true ->
  exists res,
    exec noFlags yamlRegex (FrontMatter.render b) = Some res /\
    group 1 res = content b.
Proof.
  intros Hwf. destruct (content_starts_solid b Hwf) as (c0 & r0 & Ec & Hc0).
  apply wf_parts in Hwf. destruct Hwf as (Hop & Hcl & Hne & _ & Ho & Hs).
  set (x := closing b ++ "---" ++ remainder b).
  set (s0 := at_ [] (FrontMatter.render b)).
  set (s1 := mk (rev "---") (opening b ++ content b ++ x) []).
  set (s2 := mk (rev (opening b) ++ seen s1) (content b ++ x) []).
  set (s3 := mk (rev (content b) ++ seen s2) x [(1, content b)]).
  set (s4 := mk (rev (closing b) ++ seen s3) ("---" ++ remainder b) [(1, content b)]).
  set (s5 := mk (rev "---" ++ seen s4) (remainder b) [(1, content b)]).
  assert (Hhd : hd_error (m noFlags yamlRegex s0) = Some s5).
  { unfold yamlRegex.
    apply hd_seq with (x := s0); [rewrite m_bol by reflexivity; reflexivity|].
    apply hd_seq with (x := s1).
    { rewrite (m_lit "---" s0 (opening b ++ content b ++ x) eq_refl). reflexivity. }
    apply hd_seq with (x := s2).
    { apply (hd_star_class noFlags false [Sp] (opening b) s1 _ eq_refl).
      - eapply Forall_impl; [|exact Hop]. intros c Hc. rewrite space_is_ws. exact Hc.
      - rewrite Ec. cbn [app stops]. rewrite space_is_ws. exact Hc0. }
    rewrite m_seq.
    change (m noFlags (Group 1 (Star false (Class false [Sp; NSp]))) s2)
      with (map (set_cap 1 s2)
                (iter (m noFlags (Class false [Sp; NSp])) false (length (rest s2)) s2)).
    rewrite flat_map_map.
    apply (hd_lazy_run noFlags false [Sp; NSp]
             (fun s' => m noFlags closingPattern (set_cap 1 s2 s')) x s5 (content b) s2
             eq_refl).
    - apply Forall_forall. intros c _. apply any_char_ok.
    - intros p q Ep Hq. apply closing_needs_delimiter. cbn [rest set_cap mk].
      apply (no_delimiter_inside (content b) (closing b) _ p q); assumption.
    - unfold set_cap. rewrite consumed_run. cbn [seen rest caps mk].
      fold s3. unfold closingPattern.
      apply hd_seq with (x := s4).
      + apply (hd_star_class noFlags false [Sp] (closing b) s3 _ eq_refl).
        * eapply Forall_impl; [|exact Hcl]. intros c Hc. rewrite space_is_ws. exact Hc.
        * reflexivity.
      + rewrite (m_lit "---" s4 (remainder b) eq_refl). reflexivity. }
  exists {| index := 0; final := s5 |}. split; [|reflexivity].
  unfold exec. apply (search_hit noFlags yamlRegex [] _ s5 Hhd).
Qed.

(** *** The key pattern on the lines of a block *)

(** At the start of an entry line the key pattern captures the key. *)
Lemma key_at_line_start e tail s :
  wfEntry e = true -> at_bol keyFlags s = true ->
  rest s = renderEntry e ++ tail ->
  exists fin,
    hd_error (m keyFlags yamlKeyRegex s) = Some fin /\
    rest fin = value e ++ tail /\
    caps fin = (1, key e) :: caps s /\
    exists sn, seen fin = ":"%char :: sn.
Proof.
  intros Hwf Hbol E. apply wfEntry_parts in Hwf. destruct Hwf as (Hne & Hk & _).
  destruct (key e) as [|k0 ks] eqn:Ek; [contradiction|].
  unfold renderEntry in E. rewrite Ek in E. rewrite <- !app_assoc in E.
  cbn [app] in E.
  set (s2 := mk (rev (k0 :: ks) ++ seen s) (":"%char :: value e ++ tail) (caps s)).
  set (s3 := mk (":"%char :: seen s2) (value e ++ tail) ((1, k0 :: ks) :: caps s)).
  exists s3. split; [|split; [reflexivity|split; [reflexivity|eexists; reflexivity]]].
  unfold yamlKeyRegex, ws.
  apply hd_seq with (x := s); [rewrite m_bol by exact Hbol; reflexivity|].
  apply hd_seq with (x := s).
  { rewrite (hd_star_class keyFlags false [Sp] [] s (rest s) eq_refl).
    - destruct s; reflexivity.
    - constructor.
    - rewrite E. cbn [stops]. rewrite space_is_ws. apply key_not_space.
      inversion Hk; assumption. }
  apply hd_seq with (x := set_cap 1 s s2).
  { apply hd_group.
    apply (hd_plus_class keyFlags false keyChars k0 ks s _ E).
    - eapply Forall_impl; [|exact Hk]. apply key_in_class.
    - reflexivity. }
  unfold set_cap. unfold s2 at 3. rewrite consumed_run. cbn [seen rest caps mk s2].
  erewrite m_char; [|reflexivity|reflexivity]. reflexivity.
Qed.

Lemma midLine_no_bol before after :
  midLine before -> at_bol keyFlags (at_ before after) = false.
Proof. intros (p & sn & -> & H). cbn. exact H. Qed.

Lemma midLine_rev t before :
  midLine before -> Forall (fun c => inLine c = true) t -> midLine (rev t ++ before).
Proof.
  intros Hm Ht. destruct (rev t) as [|c l] eqn:E; [exact Hm|].
  apply Forall_rev in Ht. rewrite E in Ht. inversion Ht as [|? ? Hc _]; subst.
  exists c, (l ++ before). split; [reflexivity|].
  unfold inLine in Hc. apply negb_true_iff in Hc. exact Hc.
Qed.

(** Inside a line the key pattern finds nothing: the search moves to the
    next line. *)
Lemma search_rest_of_line r t c x before :
  midLine before -> Forall (fun c => inLine c = true) t ->
  search_at keyFlags (Seq Bol r) before (t ++ c :: x)
  = search_at keyFlags (Seq Bol r) (c :: rev t ++ before) x.
Proof.
  intros Hm Ht.
  change (t ++ c :: x) with (t ++ [c] ++ x). rewrite app_assoc.
  rewrite search_skip.
  - rewrite rev_app_distr. reflexivity.
  - intros pre u E Hu. apply m_bol_fail. apply midLine_no_bol.
    assert (Hpre : exists t', t = pre ++ t').
    { destruct u as [|a u] using rev_ind; [contradiction|].
      rewrite app_assoc in E. apply app_inj_tail in E. destruct E as [E _].
      eauto. }
    destruct Hpre as (t' & ->). apply Forall_app in Ht. destruct Ht as [Ht _].
    apply midLine_rev; assumption.
Qed.

Lemma search_last_line r t before :
  midLine before -> Forall (fun c => inLine c = true) t ->
  search_at keyFlags (Seq Bol r) before t = None.
Proof.
  intros Hm Ht. rewrite <- (app_nil_r t) at 1. rewrite search_skip.
  - assert (E0 : m keyFlags (Seq Bol r) (at_ (rev t ++ before) []) = [])
      by (apply m_bol_fail, midLine_no_bol, midLine_rev; assumption).
    unfold at_ in E0. cbn [search_at]. rewrite E0. reflexivity.
  - intros pre u E Hu. apply m_bol_fail. apply midLine_no_bol.
    subst t. apply Forall_app in Ht. destruct Ht as [Ht _].
    apply midLine_rev; assumption.
Qed.

Lemma lineStart_bol before after :
  lineStart before -> at_bol keyFlags (at_ before after) = true.
Proof. intros H. exact H. Qed.

Lemma yamlKeyRegex_not_nullable : nullable yamlKeyRegex = false.
Proof. reflexivity. Qed.

(** The key scan over entry lines finds the key of every line, in order. *)
Lemma scan_entries l : forall before fuel,
  lineStart before -> forallb wfEntry l = true ->
  length (Str.join newline (map renderEntry l)) < fuel ->
  exists results,
    exec_loop keyFlags yamlKeyRegex fuel before (Str.join newline (map renderEntry l))
    = Some results /\
    map (group 1) results = map key l.
Proof.
  induction l as [|e l IH]; intros before fuel Hstart Hwf Hfuel;
    (destruct fuel as [|fuel]; [lia|]).
  - cbn [map Str.join exec_loop search_at].
    replace (m keyFlags yamlKeyRegex {| seen := before; rest := []; caps := [] |})
      with (@nil mstate).
    + exists []. auto.
    + unfold yamlKeyRegex. rewrite m_seq. cbn [m].
      destruct (at_bol keyFlags _); reflexivity.
  - cbn [forallb] in Hwf. apply andb_true_iff in Hwf. destruct Hwf as [He Hwf].
    cbn [map] in *. rewrite join_cons in *.
    set (tail := match map renderEntry l with
                 | [] => []
                 | _ :: _ => newline ++ Str.join newline (map renderEntry l)
                 end) in *.
    destruct (key_at_line_start e tail (at_ before (renderEntry e ++ tail)) He
                (lineStart_bol _ _ Hstart) eq_refl)
      as (fin & Hhd & Hrest & Hcaps & sn & Hseen).
    cbn [exec_loop]. rewrite (search_hit _ _ _ _ fin Hhd). cbn [final].
    rewrite Hrest.
    assert (Hlt : length (value e ++ tail) < length (renderEntry e ++ tail)).
    { unfold renderEntry. rewrite !length_app. cbn. lia. }
    apply Nat.ltb_lt in Hlt as Hb. rewrite Hb.
    assert (Hmid : midLine (seen fin)).
    { rewrite Hseen. exists ":"%char, sn. split; reflexivity. }
    pose proof (wfEntry_parts e He) as (_ & _ & Hv).
    assert (Hgroup : group 1 {| index := length before; final := fin |} = key e).
    { unfold group. cbn [final]. rewrite Hcaps. reflexivity. }
    assert (Hrec : exists results,
               exec_loop keyFlags yamlKeyRegex fuel (seen fin) (value e ++ tail)
               = Some results /\ map (group 1) results = map key l).
    { destruct fuel as [|fuel]; [lia|].
      destruct l as [|e' l'].
      - cbn [map] in tail. subst tail. rewrite app_nil_r.
        cbn [exec_loop]. unfold yamlKeyRegex at 1.
        rewrite (search_last_line _ _ _ Hmid Hv). exists []. auto.
      - assert (Et : tail = "010"%char :: Str.join newline (map renderEntry (e' :: l')))
          by reflexivity.
        rewrite Et.
        rewrite (exec_loop_search_eq keyFlags yamlKeyRegex fuel _ _ _ _
                   yamlKeyRegex_not_nullable
                   (search_rest_of_line _ (value e) "010" _ (seen fin) Hmid Hv)).
        apply IH; [reflexivity|exact Hwf|].
        rewrite Et, !length_app in Hfuel. cbn [length] in Hfuel. lia. }
    destruct Hrec as (results & Er & Eg).
    rewrite Er. cbn [option_map]. eexists. split; [reflexivity|].
    cbn [map]. rewrite Hgroup, Eg. reflexivity.
Qed.

(** On a well-formed block the scan finds the keys of the entries. *)
Lemma frontMatterKeys_render b :
  FrontMatter.wf b = true ->
  frontMatterKeys (FrontMatter.render b) = Some (keys b).
Proof.
  intros Hwf. destruct (yaml_block b Hwf) as (res & Ex & Eg).
  unfold frontMatterKeys. rewrite Ex, Eg.
  apply wf_parts in Hwf. destruct Hwf as (_ & _ & _ & He & _).
  destruct (scan_entries (entries b) [] _ eq_refl He (Nat.lt_succ_diag_r _))
    as (results & Er & Ek).
  unfold exec_all, content. rewrite Er. cbn [option_map]. rewrite Ek. reflexivity.
Qed.

(** *** Page-scope requests *)

(** A page-scope field request returns the 8 standard fields first, then
    the [identifier:] keys the scan found that are not standard fields, in
    scan order; each standard field is listed once, also when the block has
    a key of that name.  On a block with no [---] inside its content the
    scanned keys are the keys of its lines. *)
Lemma page_keys_standard_then_custom
        (w : Workspace) (parent : str) (document : TextDocument) :
  pageScope parent = true ->
  exists scanned items,
    frontMatterKeys (getText document) = Some scanned /\
    getFieldCompletions w parent document = Ok items /\
    labelsOf items = standardFields ++ filter (absent standardFields) scanned /\
    firstn 8 (labelsOf items)
    = map L ["title"; "date"; "description"; "tags"; "template"; "url";
             "head"; "content"]%string /\
    (forall key, In key (skipn 8 (labelsOf items))
                 <-> In key scanned /\ ~ In key standardFields) /\
    (forall field, In field standardFields ->
                   count_occ str_dec (labelsOf items) field = 1) /\
    (forall b, FrontMatter.wf b = true ->
               getText document = FrontMatter.render b ->
               scanned = FrontMatter.keys b).
Proof.
  intros Hp. destruct (frontMatterKeys_total (getText document)) as [scanned Hk].
  exists scanned. eexists. split; [exact Hk|].
  rewrite (page_scope_completions _ _ _ Hp), (getMarkdownPageKeys_keys _ _ Hk).
  split; [reflexivity|]. rewrite labels_of_page_items.
  split; [reflexivity|]. split; [reflexivity|]. split; [|split].
  - intros key. change (skipn 8 (standardFields ++ ?l)) with l.
    rewrite filter_In, absent_not_in. tauto.
  - intros field Hin. rewrite count_occ_app, count_filter_absent.
    assert (A : absent standardFields field = false).
    { apply not_true_iff_false. intros A. apply absent_not_in in A. auto. }
    rewrite A, Nat.add_0_r.
    simpl in Hin. repeat (destruct Hin as [<-|Hin]; [reflexivity|]). destruct Hin.
  - intros b Hwf Hb. rewrite Hb, (frontMatterKeys_render b Hwf) in Hk.
    injection Hk as <-. reflexivity.
Qed.

Example page_keys_standard_then_custom_authorPage :
  exists scanned items,
    frontMatterKeys (getText authorPage) = Some scanned /\
    getFieldCompletions emptyWorkspace "" authorPage = Ok items /\
    labelsOf items = standardFields ++ filter (absent standardFields) scanned /\
    firstn 8 (labelsOf items)
    = map L ["title"; "date"; "description"; "tags"; "template"; "url";
             "head"; "content"]%string /\
    (forall key, In key (skipn 8 (labelsOf items))
                 <-> In key scanned /\ ~ In key standardFields) /\
    (forall field, In field standardFields ->
                   count_occ str_dec (labelsOf items) field = 1) /\
    (forall b, FrontMatter.wf b = true ->
               getText authorPage = FrontMatter.render b ->
               scanned = FrontMatter.keys b).
Proof.
  apply (page_keys_standard_then_custom emptyWorkspace "" authorPage). reflexivity.
Qed.

(** C6.  The block pattern ends the block at the first [---] after the
    opening delimiter, also one inside a value.  The front matter of
    [dashPage] is laid out in lines and has the keys [title] and [author],
    the title holding [---]; a page-scope request returns the 8 standard
    fields and no candidate [author]. *)
Theorem front_matter_cut_inside_value (w : Workspace) :
  getText dashPage = FrontMatter.render dashBlock /\
  FrontMatter.linewise dashBlock = true /\
  FrontMatter.keys dashBlock = [L "title"; L "author"] /\
  frontMatterKeys (getText dashPage) = Some [L "title"] /\
  getFieldCompletions w "" dashPage = Ok (map standardItem standardFields) /\
  getFieldCompletions w "" dashPage
  <> Ok (map standardItem standardFields ++ [customItem "author"]).
Proof.
  assert (E : getFieldCompletions w "" dashPage = Ok (map standardItem standardFields))
    by reflexivity.
  split; [reflexivity|]. split; [reflexivity|]. split; [reflexivity|].
  split; [vm_compute; reflexivity|]. split; [exact E|].
  rewrite E. intros H.
  apply (f_equal (fun r => match r with Ok l => length l | _ => 0 end)) in H.
  discriminate H.
Qed.

(** Custom keys are filtered against the standard fields only: on a
    document whose front-matter block has no [---] inside its content and
    has a key that is not a standard field on two or more lines, a
    page-scope field request returns one candidate with that label per such
    line. *)
Lemma custom_keys_keep_duplicates
        (w : Workspace) (parent : str) (document : TextDocument)
        (b : block) (key : str) :
  pageScope parent = true ->
  FrontMatter.wf b = true ->
  getText document = FrontMatter.render b ->
  ~ In key standardFields ->
  2 <= count_occ str_dec (FrontMatter.keys b) key ->
  exists items,
    getFieldCompletions w parent document = Ok items /\
    count_occ str_dec (labelsOf items) key = count_occ str_dec (FrontMatter.keys b) key /\
    2 <= count_occ str_dec (labelsOf items) key.
Proof.
  intros Hp Hwf Hb Hstd Htwo.
  apply (custom_keys_follow_scan w parent document (FrontMatter.keys b) key);
    try assumption.
  rewrite Hb. apply frontMatterKeys_render, Hwf.
Qed.

Example custom_keys_keep_duplicates_twiceAuthorPage :
  exists items,
    getFieldCompletions emptyWorkspace "" twiceAuthorPage = Ok items /\
    count_occ str_dec (labelsOf items) "author"
    = count_occ str_dec (FrontMatter.keys twiceAuthorBlock) "author" /\
    2 <= count_occ str_dec (labelsOf items) "author".
Proof.
  apply (custom_keys_keep_duplicates emptyWorkspace "" twiceAuthorPage
           twiceAuthorBlock "author").
  - reflexivity.
  - reflexivity.
  - reflexivity.
  - vm_compute. intuition discriminate.
  - vm_compute. lia.
Qed.

(** C10.  The block pattern ends the block at the first [---] after the
    opening delimiter, also one inside a value.  The front matter of
    [twiceDashPage] is laid out in lines and has the key [author], not a
    standard field, on two lines, the first value holding [---]; a
    page-scope request returns one candidate [author], not two. *)
Theorem duplicate_key_lost_inside_value (w : Workspace) :
  getText twiceDashPage = FrontMatter.render twiceDashBlock /\
  FrontMatter.linewise twiceDashBlock = true /\
  count_occ str_dec (FrontMatter.keys twiceDashBlock) "author" = 2 /\
  JsSet.has standardFields "author" = false /\
  getFieldCompletions w "" twiceDashPage
  = Ok (map standardItem standardFields ++ [customItem "author"]) /\
  (forall items, getFieldCompletions w "" twiceDashPage = Ok items ->
                 count_occ str_dec (labelsOf items) "author" = 1).
Proof.
  assert (E : getFieldCompletions w "" twiceDashPage
              = Ok (map standardItem standardFields ++ [customItem "author"]))
    by reflexivity.
  split; [reflexivity|]. split; [reflexivity|]. split; [vm_compute; reflexivity|].
  split; [reflexivity|]. split; [exact E|].
  intros items H. rewrite E in H. apply Ok_inj in H. subst items.
  vm_compute. reflexivity.
Qed.

Example twice_author_labels :
  match getFieldCompletions emptyWorkspace "" twiceAuthorPage with
  | Ok items => map string_of_list_ascii (labelsOf items)
  | _ => []
  end = ["title"; "date"; "description"; "tags"; "template"; "url"; "head";
         "content"; "author"; "author"]%string.
Proof. reflexivity. Qed.

(** *** The configuration patterns on a configuration file *)

Lemma space_not_key c : Str.isSpace c = true -> class_ok false keyChars c = false.
Proof. intros H. ascii_cases c; first [reflexivity | discriminate H]. Qed.

Lemma space_no_bracket c : Str.isSpace c = true -> Config.noBracket c = true.
Proof. intros H. ascii_cases c; first [reflexivity | discriminate H]. Qed.

Lemma key_no_bracket c : isKeyChar c = true -> Config.noBracket c = true.
Proof. intros H. ascii_cases c; first [reflexivity | discriminate H]. Qed.

Lemma prefixCI_app p : forall a b,
  length p <= length a -> prefixCI p (a ++ b) = prefixCI p a.
Proof.
  induction p as [|c p IH]; intros a b H; [reflexivity|].
  destruct a as [|x a]; [cbn in H; lia|].
  cbn [app prefixCI]. rewrite IH by (cbn in H; lia). reflexivity.
Qed.

(** A literal word read with the [i] flag. *)
Lemma m_lit_ci fl w : ignoreCase fl = true -> forall s h r,
  rest s = h ++ r -> length h = length w -> prefixCI w h = true ->
  m fl (Lit w) s = [mk (rev h ++ seen s) r (caps s)].
Proof.
  intros Hfl. induction w as [|c w IH]; intros s h r E Hlen Hp.
  - destruct h; [|discriminate]. destruct s as [sn rs cs]. cbn in *. subst rs.
    reflexivity.
  - destruct h as [|x h]; [discriminate|]. cbn [prefixCI] in Hp.
    apply andb_true_iff in Hp. destruct Hp as [Hx Hp].
    cbn [Lit]. rewrite m_seq.
    rewrite (m_char fl c s x (h ++ r) E) by (unfold char_ok; rewrite Hfl; exact Hx).
    cbn [flat_map].
    rewrite (IH (mk (x :: seen s) (h ++ r) (caps s)) h r eq_refl) by
      (try exact Hp; cbn in Hlen; lia).
    rewrite app_nil_r. cbn [seen caps mk rev]. rewrite <- app_assoc. reflexivity.
Qed.

Lemma config_wf_parts f :
  Config.wf f = true ->
  prefixCI "[Param]" (Config.header f) = true /\
  length (Config.header f) = 7 /\
  Config.clearOf (Config.header f) (Config.preamble f) = true /\
  forallb Config.wfEntry (Config.entries f) = true /\
  Forall (fun c => Str.isSpace c = true) (Config.trailing f) /\
  Config.endOrBracket (Config.following f) = true.
Proof.
  unfold Config.wf. intros H.
  repeat (apply andb_true_iff in H; destruct H as [H ?]).
  repeat split; auto using forallb_Forall. apply Nat.eqb_eq. assumption.
Qed.

Lemma config_entry_parts e :
  Config.wfEntry e = true ->
  Forall (fun c => Str.isSpace c = true) (Config.lead e) /\
  Config.key e <> [] /\
  Forall (fun c => isKeyChar c = true) (Config.key e) /\
  Forall (fun c => Str.isSpace c = true) (Config.gap e) /\
  Forall (fun c => Config.plain c = true) (Config.value e).
Proof.
  unfold Config.wfEntry. intros H.
  repeat (apply andb_true_iff in H; destruct H as [H ?]).
  repeat split; auto using forallb_Forall.
  apply Str_eqb_neq. apply negb_true_iff. assumption.
Qed.

Lemma config_entry_no_bracket e :
  Config.wfEntry e = true ->
  Forall (fun c => Config.noBracket c = true) (Config.renderEntry e).
Proof.
  intros H. apply config_entry_parts in H. destruct H as (Hl & _ & Hk & Hg & Hv).
  unfold Config.renderEntry.
  apply Forall_app. split; [eapply Forall_impl; [|exact Hl]; apply space_no_bracket|].
  apply Forall_app. split; [eapply Forall_impl; [|exact Hk]; apply key_no_bracket|].
  apply Forall_app. split; [eapply Forall_impl; [|exact Hg]; apply space_no_bracket|].
  constructor; [reflexivity|].
  apply Forall_app. split; [|repeat constructor].
  eapply Forall_impl; [|exact Hv]. intros c Hc. unfold Config.plain in Hc.
  apply andb_true_iff in Hc. tauto.
Qed.

Lemma config_section_no_bracket f :
  Config.wf f = true ->
  Forall (fun c => Config.noBracket c = true) (Config.section f).
Proof.
  intros H. apply config_wf_parts in H. destruct H as (_ & _ & _ & He & Ht & _).
  unfold Config.section. apply Forall_app. split.
  - induction (Config.entries f) as [|e l IH]; cbn [flat_map]; [constructor|].
    cbn [forallb] in He. apply andb_true_iff in He. destruct He as [He Hl].
    apply Forall_app. split; [apply config_entry_no_bracket, He|apply IH, Hl].
  - eapply Forall_impl; [|exact Ht]. apply space_no_bracket.
Qed.

Lemma clearOf_suffix h pre u :
  Config.clearOf h (pre ++ u) = true -> u <> [] ->
  prefixCI "[Param]" (u ++ h) = false.
Proof.
  induction pre as [|c pre IH]; intros H Hu.
  - destruct u as [|a u]; [contradiction|]. cbn [app Config.clearOf] in H.
    apply andb_true_iff in H. destruct H as [H _]. apply negb_true_iff in H. exact H.
  - cbn [app Config.clearOf] in H. apply andb_true_iff in H. destruct H as [_ H].
    auto.
Qed.

Lemma sectionEnd_inside s c r :
  rest s = c :: r -> Config.noBracket c = true -> m paramBlockFlags sectionEnd s = [].
Proof.
  intros E Hc. unfold sectionEnd.
  change (m paramBlockFlags (Alt (Char "[") Eol) s)
    with (m paramBlockFlags (Char "[") s ++ m paramBlockFlags Eol s).
  rewrite m_char_fail.
  - cbn [m app]. unfold at_eol. rewrite E. reflexivity.
  - rewrite E. unfold char_ok. cbn [ignoreCase paramBlockFlags].
    unfold Config.noBracket in Hc. apply negb_true_iff in Hc.
    revert Hc. clear. ascii_cases c; intros Hc; first [reflexivity | discriminate Hc].
Qed.

Lemma sectionEnd_reached sn x cs :
  Config.endOrBracket x = true ->
  exists fin, hd_error (m paramBlockFlags sectionEnd (mk sn x cs)) = Some fin /\
              caps fin = cs.
Proof.
  intros H. destruct x as [|c x].
  - eexists. split; reflexivity.
  - cbn [Config.endOrBracket] in H. apply Ascii.eqb_eq in H. subst c.
    eexists. split; reflexivity.
Qed.

(** On a well-formed file the section pattern captures the section. *)
Lemma param_block f :
  Config.wf f = true ->
  exists res,
    exec paramBlockFlags paramBlockRegex (Config.render f) = Some res /\
    group 1 res = Config.section f.
Proof.
  intros Hwf. pose proof (config_section_no_bracket f Hwf) as Hnb.
  apply config_wf_parts in Hwf. destruct Hwf as (Hh & Hlen & Hclear & _ & _ & Hend).
  set (x := Config.following f).
  set (before := rev (Config.preamble f) ++ []).
  set (s0 := at_ before (Config.header f ++ Config.section f ++ x)).
  set (s1 := mk (rev (Config.header f) ++ before) (Config.section f ++ x) []).
  set (s2 := mk (rev (Config.section f) ++ seen s1) x [(1, Config.section f)]).
  destruct (sectionEnd_reached (rev (Config.section f) ++ seen s1) x
              [(1, Config.section f)] Hend) as (fin & Hfin & Hcaps).
  assert (Hhd : hd_error (m paramBlockFlags paramBlockRegex s0) = Some fin).
  { unfold paramBlockRegex.
    apply hd_seq with (x := s1).
    { rewrite (m_lit_ci paramBlockFlags "[Param]" eq_refl s0 (Config.header f)
                 (Config.section f ++ x) eq_refl Hlen Hh). reflexivity. }
    rewrite m_seq.
    change (m paramBlockFlags (Group 1 (Star false (Class false [Sp; NSp]))) s1)
      with (map (set_cap 1 s1)
                (iter (m paramBlockFlags (Class false [Sp; NSp])) false
                      (length (rest s1)) s1)).
    rewrite flat_map_map.
    apply (hd_lazy_run paramBlockFlags false [Sp; NSp]
             (fun s' => m paramBlockFlags sectionEnd (set_cap 1 s1 s')) x fin
             (Config.section f) s1 eq_refl).
    - apply Forall_forall. intros c _. apply any_char_ok.
    - intros p q Ep Hq. destruct q as [|c q]; [contradiction|].
      apply (sectionEnd_inside _ c (q ++ x)); [reflexivity|].
      rewrite Ep in Hnb. apply Forall_app in Hnb. destruct Hnb as [_ Hnb].
      inversion Hnb; assumption.
    - unfold set_cap. rewrite consumed_run. cbn [seen rest caps mk]. exact Hfin. }
  exists {| index := length before; final := fin |}. split.
  - unfold exec, Config.render.
    rewrite search_skip.
    + apply (search_hit paramBlockFlags paramBlockRegex before _ fin Hhd).
    + intros pre u E Hu. unfold paramBlockRegex. rewrite m_seq.
      rewrite m_lit_ci_fail; [reflexivity|reflexivity|].
      cbn [rest at_]. rewrite app_assoc, prefixCI_app.
      * apply (clearOf_suffix _ pre u); [rewrite <- E; exact Hclear|exact Hu].
      * rewrite length_app, Hlen. cbn. lia.
  - unfold group. cbn [final]. rewrite Hcaps. reflexivity.
Qed.

Lemma plain_in_line c : Config.plain c = true -> inLine c = true.
Proof. unfold Config.plain. intros H. apply andb_true_iff in H. tauto. Qed.

(** At the start of an entry the key pattern captures its key. *)
Lemma key_at_config_entry e tail s :
  Config.wfEntry e = true -> at_bol keyFlags s = true ->
  rest s = Config.renderEntry e ++ tail ->
  exists fin,
    hd_error (m keyFlags configKeyRegex s) = Some fin /\
    rest fin = Config.value e ++ "010"%char :: tail /\
    caps fin = (1, Config.key e) :: caps s /\
    exists sn, seen fin = "="%char :: sn.
Proof.
  intros Hwf Hbol E. apply config_entry_parts in Hwf.
  destruct Hwf as (Hl & Hne & Hk & Hg & _).
  destruct (Config.key e) as [|k0 ks] eqn:Ek; [contradiction|].
  unfold Config.renderEntry in E. rewrite Ek in E. rewrite <- !app_assoc in E.
  cbn [app] in E.
  set (r3 := Config.value e ++ "010"%char :: tail).
  assert (E' : rest s = Config.lead e ++ k0 :: ks ++ Config.gap e ++ "="%char :: r3).
  { rewrite E. unfold r3, newline. cbn [app]. reflexivity. }
  set (s1 := mk (rev (Config.lead e) ++ seen s)
                (k0 :: ks ++ Config.gap e ++ "="%char :: r3) (caps s)).
  set (s2 := mk (rev (k0 :: ks) ++ seen s1) (Config.gap e ++ "="%char :: r3) (caps s)).
  set (s2' := mk (seen s2) (rest s2) ((1, k0 :: ks) :: caps s)).
  set (s3 := mk (rev (Config.gap e) ++ seen s2') ("="%char :: r3) (caps s2')).
  set (s4 := mk ("="%char :: seen s3) r3 (caps s2')).
  exists s4. split; [|split; [reflexivity|split; [reflexivity|eexists; reflexivity]]].
  unfold configKeyRegex, ws.
  apply hd_seq with (x := s); [rewrite m_bol by exact Hbol; reflexivity|].
  apply hd_seq with (x := s1).
  { apply (hd_star_class keyFlags false [Sp] (Config.lead e) s _ E').
    - eapply Forall_impl; [|exact Hl]. intros c Hc. rewrite space_is_ws. exact Hc.
    - cbn [stops]. rewrite space_is_ws. apply key_not_space.
      inversion Hk; assumption. }
  apply hd_seq with (x := s2').
  { rewrite (hd_group keyFlags 1 _ s1 s2).
    - unfold set_cap. unfold s2 at 3. rewrite consumed_run. reflexivity.
    - apply (hd_plus_class keyFlags false keyChars k0 ks s1 _ eq_refl).
      + eapply Forall_impl; [|exact Hk]. apply key_in_class.
      + destruct (Config.gap e) as [|g gs]; [reflexivity|].
        cbn [app stops]. apply space_not_key. inversion Hg; assumption. }
  apply hd_seq with (x := s3).
  { apply (hd_star_class keyFlags false [Sp] (Config.gap e) s2' _ eq_refl).
    - eapply Forall_impl; [|exact Hg]. intros c Hc. rewrite space_is_ws. exact Hc.
    - reflexivity. }
  erewrite m_char; [|reflexivity|reflexivity]. reflexivity.
Qed.

(** On blanks the key pattern finds nothing. *)
Lemma config_key_blank s :
  Forall (fun c => Str.isSpace c = true) (rest s) -> m keyFlags configKeyRegex s = [].
Proof.
  intros H. destruct (m keyFlags configKeyRegex s) as [|y l] eqn:E; [reflexivity|].
  exfalso. assert (Hin : In y (m keyFlags configKeyRegex s)) by (rewrite E; now left).
  clear E. unfold configKeyRegex in Hin. rewrite m_seq in Hin.
  apply in_flat_map in Hin. destruct Hin as (s0 & H0 & Hin).
  assert (E0 : s0 = s).
  { cbn [m] in H0. destruct (at_bol keyFlags s); [|destruct H0].
    destruct H0 as [<-|[]]. reflexivity. }
  subst s0. rewrite m_seq in Hin.
  apply in_flat_map in Hin. destruct Hin as (s1 & H1 & Hin).
  apply in_star_class in H1. destruct H1 as (w & E1 & _).
  rewrite m_seq in Hin. apply in_flat_map in Hin. destruct Hin as (s2 & H2 & _).
  change (m keyFlags (Group 1 (Plus true (Class false keyChars))) s1)
    with (map (set_cap 1 s1) (m keyFlags (Plus true (Class false keyChars)) s1)) in H2.
  apply in_map_iff in H2. destruct H2 as (s2' & _ & H2).
  unfold Plus in H2. rewrite m_seq in H2.
  apply in_flat_map in H2. destruct H2 as (s3 & H3 & _).
  apply in_step1 in H3. destruct H3 as (c & Hc & E3 & _).
  rewrite E1, E3 in H. apply Forall_app in H. destruct H as [_ H].
  inversion H as [|? ? Hs _]; subst. apply space_not_key in Hs. congruence.
Qed.

Lemma search_blank_tail u : forall before,
  Forall (fun c => Str.isSpace c = true) u ->
  search_at keyFlags configKeyRegex before u = None.
Proof.
  induction u as [|c u IH]; intros before H; cbn [search_at];
    rewrite config_key_blank by exact H; [reflexivity|].
  apply IH. inversion H; assumption.
Qed.

Lemma configKeyRegex_not_nullable : nullable configKeyRegex = false.
Proof. reflexivity. Qed.

(** The key scan over the entries of a section finds every key, in order. *)
Lemma scan_config_entries trailing l : forall before fuel,
  lineStart before -> forallb Config.wfEntry l = true ->
  Forall (fun c => Str.isSpace c = true) trailing ->
  length (flat_map Config.renderEntry l ++ trailing) < fuel ->
  exists results,
    exec_loop keyFlags configKeyRegex fuel before
              (flat_map Config.renderEntry l ++ trailing) = Some results /\
    map (group 1) results = map Config.key l.
Proof.
  induction l as [|e l IH]; intros before fuel Hstart Hwf Ht Hfuel;
    (destruct fuel as [|fuel]; [lia|]).
  - cbn [flat_map app exec_loop]. rewrite search_blank_tail by exact Ht.
    exists []. auto.
  - cbn [forallb] in Hwf. apply andb_true_iff in Hwf. destruct Hwf as [He Hwf].
    cbn [flat_map] in *. rewrite <- app_assoc in *.
    set (tail := flat_map Config.renderEntry l ++ trailing) in *.
    destruct (key_at_config_entry e tail (at_ before (Config.renderEntry e ++ tail)) He
                (lineStart_bol _ _ Hstart) eq_refl)
      as (fin & Hhd & Hrest & Hcaps & sn & Hseen).
    cbn [exec_loop]. rewrite (search_hit _ _ _ _ fin Hhd). cbn [final].
    rewrite Hrest.
    assert (Hlt : length (Config.value e ++ "010"%char :: tail)
                  < length (Config.renderEntry e ++ tail)).
    { unfold Config.renderEntry, newline. repeat rewrite length_app.
      cbn [length L list_ascii_of_string]. lia. }
    apply Nat.ltb_lt in Hlt as Hb. rewrite Hb.
    assert (Hmid : midLine (seen fin)).
    { rewrite Hseen. exists "="%char, sn. split; reflexivity. }
    pose proof (config_entry_parts e He) as (_ & _ & _ & _ & Hv).
    assert (Hv' : Forall (fun c => inLine c = true) (Config.value e))
      by (eapply Forall_impl; [|exact Hv]; apply plain_in_line).
    destruct fuel as [|fuel]; [lia|].
    rewrite (exec_loop_search_eq keyFlags configKeyRegex fuel _ _ _ _
               configKeyRegex_not_nullable
               (search_rest_of_line _ (Config.value e) "010" tail (seen fin) Hmid Hv')).
    destruct (IH ("010"%char :: rev (Config.value e) ++ seen fin) (S fuel))
      as (results & Er & Eg); [reflexivity|exact Hwf|exact Ht| |].
    { rewrite length_app in Hlt. cbn [length] in Hlt. lia. }
    rewrite Er. cbn [option_map]. eexists. split; [reflexivity|].
    cbn [map]. rewrite Eg. f_equal.
    unfold group. cbn [final]. rewrite Hcaps. reflexivity.
Qed.

(** X13.  On a configuration file with a [Param] header in any letter
    case, before which the word [[Param]] occurs nowhere, followed by entry
    lines [identifier = value] that each end with a line feed and hold no
    opening bracket, up to the next bracket or the end of the file, the
    scanner returns one candidate per entry of the section, in order. *)
Lemma config_keys_of_file w file others config f :
  findFiles w "allay.toml" (Some 1) = file :: others ->
  openTextDocument w file = Ok config ->
  getText config = Config.render f ->
  Config.wf f = true ->
  getAllayConfigKeys w = Ok (map configItem (Config.keys f)).
Proof.
  intros Hfiles Hopen Htext Hwf.
  destruct (param_block f Hwf) as (res & Ex & Eg).
  apply config_wf_parts in Hwf. destruct Hwf as (_ & _ & _ & He & Ht & _).
  destruct (scan_config_entries (Config.trailing f) (Config.entries f) [] _
              eq_refl He Ht (Nat.lt_succ_diag_r _)) as (results & Er & Ek).
  unfold getAllayConfigKeys. rewrite Hfiles. unfold scanConfig.
  rewrite Hopen, Htext, Ex, Eg. unfold exec_all, Config.section. rewrite Er.
  cbn [app]. f_equal. unfold Config.keys. rewrite <- Ek, map_map. reflexivity.
Qed.

Example plain_config_is_well_formed :
  Config.wf plainFile = true /\ getText plainConfig = Config.render plainFile.
Proof. split; reflexivity. Qed.

(** *** Words inside a text *)

Lemma startsWith_inv p : forall s, Str.startsWith p s = true -> exists x, s = p ++ x.
Proof.
  induction p as [|c p IH]; intros s H; [exists s; reflexivity|].
  destruct s as [|x s]; [discriminate|]. cbn [Str.startsWith] in H.
  apply andb_true_iff in H. destruct H as [H1 H2].
  apply Ascii.eqb_eq in H1. subst x.
  destruct (IH _ H2) as [y ->]. exists y. reflexivity.
Qed.

Lemma startsWith_app p x : Str.startsWith p (p ++ x) = true.
Proof.
  induction p as [|c p IH]; [reflexivity|].
  cbn [app Str.startsWith]. rewrite Ascii.eqb_refl. exact IH.
Qed.

Lemma endsWith_inv p s : Str.endsWith p s = true -> exists pre, s = pre ++ p.
Proof.
  unfold Str.endsWith. intros H. apply startsWith_inv in H. destruct H as [x E].
  exists (rev x). rewrite <- (rev_involutive s), E, rev_app_distr, rev_involutive.
  reflexivity.
Qed.

Lemma occurs_intro p a : forall b, occurs p (a ++ p ++ b) = true.
Proof.
  induction a as [|c a IH]; intros b.
  - cbn [app]. destruct (p ++ b) eqn:E; cbn [occurs]; rewrite <- E, startsWith_app;
      reflexivity.
  - cbn [app occurs]. rewrite IH. apply orb_true_r.
Qed.

Lemma occurs_at p a b : occurs p (a ++ b) = false -> Str.startsWith p b = false.
Proof. intros H. apply occurs_head. eapply occurs_suffix. exact H. Qed.

Lemma endsWith_occurs p s : occurs p s = false -> Str.endsWith p s = false.
Proof.
  intros H. destruct (Str.endsWith p s) eqn:E; [|reflexivity].
  apply endsWith_inv in E. destruct E as [pre ->].
  replace (pre ++ p) with (pre ++ p ++ []) in H by (rewrite app_nil_r; reflexivity).
  rewrite occurs_intro in H. discriminate.
Qed.

Lemma endsWith_last_differs q b c d :
  Ascii.eqb d b = false -> Str.endsWith [c; d] (q ++ [b]) = false.
Proof.
  intros H. unfold Str.endsWith. rewrite rev_app_distr. cbn. rewrite H. reflexivity.
Qed.

Lemma endsWith_last_two q a b c d :
  Str.endsWith [c; d] (q ++ [a; b]) = Ascii.eqb d b && Ascii.eqb c a.
Proof.
  unfold Str.endsWith. rewrite rev_app_distr. cbn. rewrite andb_true_r. reflexivity.
Qed.

Lemma noneOf_app cs a b : noneOf cs (a ++ b) = noneOf cs a && noneOf cs b.
Proof. apply forallb_app. Qed.

Lemma noneOf_class cs w :
  noneOf cs w = true <-> Forall (fun c => class_ok true (map One cs) c = true) w.
Proof.
  assert (E : forall c, class_ok true (map One cs) c = negb (existsb (Ascii.eqb c) cs)).
  { intros c. unfold class_ok.
    replace (existsb (item_mem c) (map One cs)) with (existsb (Ascii.eqb c) cs)
      by (induction cs as [|x cs IH]; cbn; [reflexivity|now rewrite IH]).
    destruct (existsb _ cs); reflexivity. }
  unfold noneOf. rewrite forallb_forall, Forall_forall.
  split; intros H c Hc; specialize (H c Hc); rewrite E in *; exact H.
Qed.

Lemma noneOf_not_in c cs w : noneOf cs w = true -> In c cs -> ~ In c w.
Proof.
  unfold noneOf. rewrite forallb_forall. intros H Hc Hw.
  specialize (H c Hw). apply negb_true_iff in H.
  assert (X : existsb (Ascii.eqb c) cs = true).
  { apply existsb_exists. exists c. split; [exact Hc|apply Ascii.eqb_refl]. }
  congruence.
Qed.

Lemma noneOf_weaken cs cs' w :
  (forall c, In c cs' -> In c cs) -> noneOf cs w = true -> noneOf cs' w = true.
Proof.
  intros Hsub H. unfold noneOf in *. rewrite forallb_forall in *.
  intros x Hx. specialize (H x Hx). apply negb_true_iff in H. apply negb_true_iff.
  destruct (existsb (Ascii.eqb x) cs') eqn:E; [|reflexivity].
  apply existsb_exists in E. destruct E as (c & Hc & Hxc).
  rewrite <- H. symmetry. apply existsb_exists. exists c. auto.
Qed.

(** *** The matcher: every way a run of a class is read *)

Lemma in_seq fl r1 r2 s s' :
  In s' (m fl (Seq r1 r2) s) <-> exists mid, In mid (m fl r1 s) /\ In s' (m fl r2 mid).
Proof. rewrite m_seq. apply in_flat_map. Qed.

Lemma in_group fl i r s s' :
  In s' (m fl (Group i r) s) <-> exists x, In x (m fl r s) /\ s' = set_cap i s x.
Proof.
  cbn [m]. rewrite in_map_iff. split; intros (x & H1 & H2); exists x; auto.
Qed.

Lemma in_eol s s' : In s' (m noFlags Eol s) <-> s' = s /\ rest s = [].
Proof.
  cbn [m]. unfold at_eol. destruct (rest s) as [|x tl] eqn:E; cbn.
  - split; [intros [<-|[]]; auto|intros [-> _]; auto].
  - split; [intros []|intros [_ H]; discriminate].
Qed.

Lemma in_char c s s' :
  In s' (m noFlags (Char c) s) <-> s' = mk (c :: seen s) (tl (rest s)) (caps s) /\
                                  rest s = c :: tl (rest s).
Proof.
  cbn [m]. unfold step1, char_ok. cbn [ignoreCase noFlags].
  destruct (rest s) as [|x after] eqn:E; cbn [tl].
  - split; [intros []|intros [_ H]; discriminate].
  - destruct (Ascii.eqb_spec x c) as [->|N].
    + split; [intros [<-|[]]; auto|intros [-> _]; now left].
    + split; [intros []|intros [_ H]; congruence].
Qed.

Lemma in_iter_class_full fl neg items greedy n : forall s s',
  In s' (iter (m fl (Class neg items)) greedy n s) ->
  exists w r, s' = mk (rev w ++ seen s) r (caps s) /\
              rest s = w ++ r /\
              Forall (fun c => class_ok neg items c = true) w.
Proof.
  induction n as [|n IH]; intros s s' H.
  - destruct H as [<-|[]]. exists [], (rest s). destruct s; auto.
  - apply in_iter in H. destruct H as [->|(n' & mid & En & Hmid & _ & Hin)].
    + exists [], (rest s). destruct s; auto.
    + injection En as <-. apply in_step1 in Hmid.
      destruct Hmid as (x & Hx & E & Es & Ec).
      destruct (IH _ _ Hin) as (w & r & Ew & Er & Hw).
      exists (x :: w), r. rewrite E, Er. split; [|auto].
      rewrite Ew, Es, Ec. cbn [rev]. rewrite <- app_assoc. reflexivity.
Qed.

Lemma in_star_class_full fl neg items greedy s s' :
  In s' (m fl (Star greedy (Class neg items)) s) ->
  exists w r, s' = mk (rev w ++ seen s) r (caps s) /\
              rest s = w ++ r /\
              Forall (fun c => class_ok neg items c = true) w.
Proof.
  change (m fl (Star greedy (Class neg items)) s)
    with (iter (m fl (Class neg items)) greedy (length (rest s)) s).
  apply in_iter_class_full.
Qed.

Lemma in_plus_class_full fl neg items greedy s s' :
  In s' (m fl (Plus greedy (Class neg items)) s) ->
  exists w r, s' = mk (rev w ++ seen s) r (caps s) /\
              rest s = w ++ r /\ w <> [] /\
              Forall (fun c => class_ok neg items c = true) w.
Proof.
  unfold Plus. rewrite in_seq. intros (mid & H1 & H2).
  apply in_step1 in H1. destruct H1 as (x & Hx & E & Es & Ec).
  apply in_star_class_full in H2. destruct H2 as (w & r & Ew & Er & Hw).
  exists (x :: w), r. rewrite E, Er.
  split; [|split; [reflexivity|split; [discriminate|auto]]].
  rewrite Ew, Es, Ec. cbn [rev]. rewrite <- app_assoc. reflexivity.
Qed.

(** What a group captures around a run. *)
Lemma set_cap_run i s w r :
  set_cap i s (mk (rev w ++ seen s) r (caps s))
  = mk (rev w ++ seen s) r ((i, w) :: caps s).
Proof. unfold set_cap. rewrite consumed_run. reflexivity. Qed.

Lemma iter_self step greedy n s : In s (iter step greedy n s).
Proof.
  destruct n; cbn [iter]; [now left|].
  destruct greedy; [apply in_or_app; right|]; now left.
Qed.

Lemma in_iter_class_intro fl neg items greedy w : forall s r,
  rest s = w ++ r ->
  Forall (fun c => class_ok neg items c = true) w ->
  In (mk (rev w ++ seen s) r (caps s))
     (iter (m fl (Class neg items)) greedy (length (rest s)) s).
Proof.
  induction w as [|c w IH]; intros s r E Hw.
  - destruct s as [sn rs cs]. cbn [rest seen caps app rev] in *. subst rs.
    apply iter_self.
  - inversion Hw as [|? ? Hc Hw']; subst.
    rewrite E. cbn [length app iter].
    rewrite (m_class fl neg items s c (w ++ r) E Hc). cbn [flat_map rest mk].
    rewrite E. cbn [length app].
    replace (length (w ++ r) <? S (length (w ++ r))) with true
      by (symmetry; apply Nat.ltb_lt; lia).
    rewrite app_nil_r.
    specialize (IH (mk (c :: seen s) (w ++ r) (caps s)) r eq_refl Hw').
    cbn [rest seen caps mk] in IH. cbn [rev]. rewrite <- app_assoc.
    destruct greedy; [apply in_or_app; left|right]; exact IH.
Qed.

Lemma in_star_class_intro fl neg items greedy w s r :
  rest s = w ++ r ->
  Forall (fun c => class_ok neg items c = true) w ->
  In (mk (rev w ++ seen s) r (caps s)) (m fl (Star greedy (Class neg items)) s).
Proof.
  change (m fl (Star greedy (Class neg items)) s)
    with (iter (m fl (Class neg items)) greedy (length (rest s)) s).
  apply in_iter_class_intro.
Qed.

(** *** Searching: where no match starts, and the first place one does *)

Lemma search_none fl r : forall after before,
  (forall pre u, after = pre ++ u -> m fl r (at_ (rev pre ++ before) u) = []) ->
  search_at fl r before after = None.
Proof.
  induction after as [|c after IH]; intros before H.
  - cbn [search_at]. pose proof (H [] [] eq_refl) as H0. unfold at_ in H0.
    cbn [rev app] in H0. rewrite H0. reflexivity.
  - cbn [search_at]. pose proof (H [] (c :: after) eq_refl) as H0. unfold at_ in H0.
    cbn [rev app] in H0. rewrite H0. apply IH.
    intros pre u ->. specialize (H (c :: pre) u eq_refl).
    cbn [rev] in H. rewrite <- app_assoc in H. exact H.
Qed.

Lemma search_first fl r pre after before :
  (forall p u, pre = p ++ u -> u <> [] ->
               m fl r (at_ (rev p ++ before) (u ++ after)) = []) ->
  m fl r (at_ (rev pre ++ before) after) <> [] ->
  exists fin,
    search_at fl r before (pre ++ after)
    = Some {| index := length (rev pre ++ before); final := fin |} /\
    In fin (m fl r (at_ (rev pre ++ before) after)).
Proof.
  intros Hskip Hhit. rewrite (search_skip fl r after pre before Hskip).
  destruct (m fl r (at_ (rev pre ++ before) after)) as [|fin l] eqn:E; [contradiction|].
  exists fin. split; [|now left].
  apply search_hit. rewrite E. reflexivity.
Qed.

Lemma test_false fl r text :
  (forall pre u, text = pre ++ u -> m fl r (at_ (rev pre ++ []) u) = []) ->
  test fl r text = false.
Proof. intros H. unfold test, exec. rewrite search_none by exact H. reflexivity. Qed.

Lemma test_true_inv fl r text :
  test fl r text = true ->
  exists pre u fin, text = pre ++ u /\ In fin (m fl r (at_ (rev pre ++ []) u)).
Proof.
  unfold test, exec. destruct (search_at fl r [] text) as [res|] eqn:E; [|discriminate].
  intros _. apply search_at_some in E. destruct E as (sk & af & -> & H & _).
  exists sk, af, (final res). split; [reflexivity|].
  destruct (m fl r _) as [|x l]; [discriminate|]. injection H as ->. now left.
Qed.

Lemma test_true_intro fl r pre u fin :
  In fin (m fl r (at_ (rev pre ++ []) u)) -> test fl r (pre ++ u) = true.
Proof.
  intros H. unfold test, exec.
  destruct (search_at fl r [] (pre ++ u)) eqn:E; [reflexivity|].
  exfalso. revert E. apply search_finds. intros E. rewrite E in H. destruct H.
Qed.

(** *** The context patterns, both ways *)

Lemma in_lit w s s' :
  In s' (m noFlags (Lit w) s) <->
  exists r, rest s = w ++ r /\ s' = mk (rev w ++ seen s) r (caps s).
Proof.
  split.
  - intros H. pose proof (in_m_lit _ _ _ H) as E. exists (rest s'). split; [exact E|].
    rewrite (m_lit w s _ E) in H. destruct H as [<-|[]]. reflexivity.
  - intros (r & E & ->). rewrite (m_lit w s _ E). now left.
Qed.

Lemma blanks_ws w :
  Forall isBlank w <-> Forall (fun c => class_ok false [Sp] c = true) w.
Proof.
  split; intros H; (eapply Forall_impl; [|exact H]); intros c Hc;
    unfold isBlank in *; rewrite space_is_ws in *; exact Hc.
Qed.

Lemma commandRegex_shape : commandRegex = openRegex "{-" ["}"%char].
Proof. reflexivity. Qed.

Lemma expressionRegex_shape : expressionRegex = openRegex "{:" ["}"%char].
Proof. reflexivity. Qed.

Lemma openRegex_inv o cs s fin :
  In fin (m noFlags (openRegex o cs) s) ->
  exists body, rest s = o ++ body /\ noneOf cs body = true /\
               rest fin = [] /\ caps fin = (1, body) :: caps s.
Proof.
  unfold openRegex. rewrite in_seq. intros (s1 & H1 & H).
  apply in_lit in H1. destruct H1 as (r1 & E1 & ->).
  apply in_seq in H. destruct H as (s2 & H2 & H3).
  apply in_group in H2. destruct H2 as (y & Hy & ->).
  apply in_star_class_full in Hy. destruct Hy as (w & r & -> & Er & Hw).
  apply in_eol in H3. destruct H3 as [-> H3].
  rewrite set_cap_run in *. cbn [rest seen caps mk] in *. subst r.
  rewrite app_nil_r in Er. subst r1.
  exists w. split; [exact E1|].
  split; [apply noneOf_class; exact Hw|]. auto.
Qed.

Lemma openRegex_intro o cs s body :
  rest s = o ++ body -> noneOf cs body = true ->
  exists fin, In fin (m noFlags (openRegex o cs) s).
Proof.
  intros E Hb. unfold openRegex.
  set (s1 := mk (rev o ++ seen s) body (caps s)).
  set (y := mk (rev body ++ seen s1) [] (caps s1)).
  exists (set_cap 1 s1 y).
  apply in_seq. exists s1. split; [apply in_lit; exists body; auto|].
  apply in_seq. exists (set_cap 1 s1 y). split.
  - apply in_group. exists y. split; [|reflexivity].
    apply in_star_class_intro; [cbn [rest s1 mk]; rewrite app_nil_r; reflexivity|].
    apply noneOf_class. exact Hb.
  - apply in_eol. auto.
Qed.

Lemma test_openRegex o cs p : test noFlags (openRegex o cs) p = true <-> openAt o cs p.
Proof.
  split.
  - intros H. apply test_true_inv in H. destruct H as (pre & u & fin & -> & Hin).
    apply openRegex_inv in Hin. destruct Hin as (body & E & Hb & _).
    cbn [rest at_] in E. subst u. exists pre, body. auto.
  - intros (pre & body & -> & Hb).
    destruct (openRegex_intro o cs (at_ (rev pre ++ []) (o ++ body)) body eq_refl Hb)
      as [fin Hin].
    eapply test_true_intro. exact Hin.
Qed.

(** The shortcode pattern: the slash of a closing tag is optional, and is
    itself a character the captured run accepts. *)
Lemma shortcodeRegex_inv s fin :
  In fin (m noFlags shortcodeRegex s) ->
  exists body, rest s = "{<" ++ body /\ noneOf [">"; "}"]%char body = true /\
               rest fin = [].
Proof.
  unfold shortcodeRegex. rewrite in_seq. intros (s1 & H1 & H).
  apply in_lit in H1. destruct H1 as (r1 & E1 & ->).
  apply in_seq in H. destruct H as (s2 & H2 & H).
  apply in_seq in H. destruct H as (s3 & H3 & H4).
  apply in_group in H3. destruct H3 as (y & Hy & ->).
  apply in_star_class_full in Hy. destruct Hy as (w & r & -> & Er & Hw).
  apply in_eol in H4. destruct H4 as [-> H4].
  unfold set_cap in H4. cbn [rest mk] in H4. subst r. rewrite app_nil_r in Er.
  apply (proj2 (noneOf_class [">"; "}"]%char w)) in Hw.
  unfold Opt in H2. cbn [m] in H2. apply in_app_or in H2. destruct H2 as [H2|H2].
  - apply in_step1 in H2. destruct H2 as (x & Hx & E2 & _).
    unfold char_ok in Hx. cbn in Hx. apply Ascii.eqb_eq in Hx. subst x.
    cbn [rest mk] in E2. exists ("/"%char :: w). rewrite E1, E2, Er.
    split; [reflexivity|]. split; [|reflexivity].
    cbn [noneOf forallb]. exact Hw.
  - destruct H2 as [<-|[]]. cbn [rest mk] in Er. exists w. rewrite E1, Er. auto.
Qed.

Lemma shortcodeRegex_intro s body :
  rest s = "{<" ++ body -> noneOf [">"; "}"]%char body = true ->
  exists fin, In fin (m noFlags shortcodeRegex s).
Proof.
  intros E Hb. unfold shortcodeRegex.
  set (s1 := mk (rev "{<" ++ seen s) body (caps s)).
  set (y := mk (rev body ++ seen s1) [] (caps s1)).
  exists (set_cap 1 s1 y).
  apply in_seq. exists s1. split; [apply (in_lit "{<"); exists body; auto|].
  apply in_seq. exists s1. split.
  { unfold Opt. cbn [m]. apply in_or_app. right. now left. }
  apply in_seq. exists (set_cap 1 s1 y). split.
  - apply in_group. exists y. split; [|reflexivity].
    apply in_star_class_intro; [cbn [rest s1 mk]; rewrite app_nil_r; reflexivity|].
    apply (proj1 (noneOf_class [">"; "}"]%char body)). exact Hb.
  - apply in_eol. auto.
Qed.

(** The path pattern. *)
Lemma includeRegex_inv s fin :
  In fin (m noFlags includeRegex s) ->
  exists sp1 kw sp2 partial,
    rest s = "{-" ++ sp1 ++ kw ++ sp2 ++ quote :: partial /\
    Forall isBlank sp1 /\ pathKeyword kw /\ sp2 <> [] /\ Forall isBlank sp2 /\
    noneOf [quote] partial = true /\ rest fin = [] /\
    caps fin = (1, partial) :: caps s.
Proof.
  unfold includeRegex. rewrite in_seq. intros (s1 & H1 & H).
  apply in_lit in H1. destruct H1 as (r1 & E1 & ->).
  apply in_seq in H. destruct H as (s2 & H2 & H).
  apply in_star_class_full in H2. destruct H2 as (sp1 & r2 & Es2 & E2 & Hsp1).
  apply in_seq in H. destruct H as (s3 & H3 & H).
  assert (Hkw : exists kw, pathKeyword kw /\ In s3 (m noFlags (Lit kw) s2)).
  { cbn [m] in H3. apply in_app_or in H3.
    destruct H3 as [H3|H3]; [exists (L "include")|exists (L "extends")];
      (split; [unfold pathKeyword; auto|exact H3]). }
  clear H3. destruct Hkw as (kw & Hkw & H3).
  apply in_lit in H3. destruct H3 as (r3 & E3 & ->).
  apply in_seq in H. destruct H as (s4 & H4 & H).
  apply in_plus_class_full in H4. destruct H4 as (sp2 & r4 & -> & E4 & Hne & Hsp2).
  apply in_seq in H. destruct H as (s5 & H5 & H).
  apply in_char in H5. destruct H5 as [-> E5].
  apply in_seq in H. destruct H as (s6 & H6 & H7).
  apply in_group in H6. destruct H6 as (y & Hy & ->).
  apply in_star_class_full in Hy. destruct Hy as (partial & r6 & -> & E6 & Hp).
  apply in_eol in H7. destruct H7 as [-> H7].
  rewrite set_cap_run in *. subst s2.
  cbn [rest seen caps mk] in *. subst r6.
  rewrite app_nil_r in E6.
  exists sp1, kw, sp2, partial.
  split; [rewrite E1, E2, E3, E4, E5, E6; reflexivity|].
  split; [apply blanks_ws; exact Hsp1|]. split; [exact Hkw|].
  split; [exact Hne|]. split; [apply blanks_ws; exact Hsp2|].
  split; [apply (proj2 (noneOf_class [quote] partial)); exact Hp|].
  split; reflexivity.
Qed.

Lemma includeRegex_intro s sp1 kw sp2 partial :
  rest s = "{-" ++ sp1 ++ kw ++ sp2 ++ quote :: partial ->
  Forall isBlank sp1 -> pathKeyword kw -> sp2 <> [] -> Forall isBlank sp2 ->
  noneOf [quote] partial = true ->
  exists fin, In fin (m noFlags includeRegex s).
Proof.
  intros E Hsp1 Hkw Hne Hsp2 Hp. unfold includeRegex.
  set (s1 := mk (rev "{-" ++ seen s) (sp1 ++ kw ++ sp2 ++ quote :: partial) (caps s)).
  set (s2 := mk (rev sp1 ++ seen s1) (kw ++ sp2 ++ quote :: partial) (caps s1)).
  set (s3 := mk (rev kw ++ seen s2) (sp2 ++ quote :: partial) (caps s2)).
  set (s4 := mk (rev sp2 ++ seen s3) (quote :: partial) (caps s3)).
  set (s5 := mk (quote :: seen s4) partial (caps s4)).
  set (y := mk (rev partial ++ seen s5) [] (caps s5)).
  exists (set_cap 1 s5 y).
  apply in_seq. exists s1. split.
  { apply (in_lit "{-"). exists (sp1 ++ kw ++ sp2 ++ quote :: partial). auto. }
  apply in_seq. exists s2. split.
  { apply in_star_class_intro; [reflexivity|apply blanks_ws; exact Hsp1]. }
  apply in_seq. exists s3. split.
  { cbn [m]. apply in_or_app.
    destruct Hkw as [-> | ->]; [left|right]; apply in_lit;
      exists (sp2 ++ quote :: partial); split; reflexivity. }
  apply in_seq. exists s4. split.
  { destruct sp2 as [|c sp2]; [contradiction|].
    inversion Hsp2 as [|? ? Hc Hsp2']; subst.
    unfold Plus. apply in_seq.
    exists (mk (c :: seen s3) (sp2 ++ quote :: partial) (caps s3)).
    split.
    - unfold ws. rewrite (m_class noFlags false [Sp] s3 c (sp2 ++ quote :: partial) eq_refl).
      + now left.
      + rewrite space_is_ws. exact Hc.
    - unfold s4. cbn [rev]. rewrite <- app_assoc.
      apply (in_star_class_intro noFlags false [Sp] true sp2
               (mk (c :: seen s3) (sp2 ++ quote :: partial) (caps s3)));
        [reflexivity|apply blanks_ws; exact Hsp2']. }
  apply in_seq. exists s5. split; [apply in_char; auto|].
  apply in_seq. exists (set_cap 1 s5 y). split.
  - apply in_group. exists y. split; [|reflexivity].
    apply in_star_class_intro; [cbn [rest s5 mk]; rewrite app_nil_r; reflexivity|].
    apply (proj1 (noneOf_class [quote] partial)). exact Hp.
  - apply in_eol. auto.
Qed.

Lemma test_includeRegex p : test noFlags includeRegex p = true <-> pathContext p.
Proof.
  split.
  - intros H. apply test_true_inv in H. destruct H as (pre & u & fin & -> & Hin).
    apply includeRegex_inv in Hin.
    destruct Hin as (sp1 & kw & sp2 & partial & E & H1 & H2 & H3 & H4 & H5 & _).
    cbn [rest at_] in E. subst u. exists pre, sp1, kw, sp2, partial. auto 10.
  - intros (pre & sp1 & kw & sp2 & partial & -> & H1 & H2 & H3 & H4 & H5).
    destruct (includeRegex_intro (at_ (rev pre ++ []) _) sp1 kw sp2 partial
                eq_refl H1 H2 H3 H4 H5) as [fin Hin].
    eapply test_true_intro. exact Hin.
Qed.

Lemma test_shortcodeRegex p :
  test noFlags shortcodeRegex p = true <-> openAt "{<" [">"; "}"]%char p.
Proof.
  split.
  - intros H. apply test_true_inv in H. destruct H as (pre & u & fin & -> & Hin).
    apply shortcodeRegex_inv in Hin. destruct Hin as (body & E & Hb & _).
    cbn [rest at_] in E. subst u. exists pre, body. auto.
  - intros (pre & body & -> & Hb).
    destruct (shortcodeRegex_intro (at_ (rev pre ++ []) ("{<" ++ body)) body eq_refl Hb)
      as [fin Hin].
    eapply test_true_intro. exact Hin.
Qed.

(** The block pattern of the dot access. *)
Lemma openBlockRegex_inv s fin :
  In fin (m noFlags openBlockRegex s) ->
  exists opener body,
    (opener = L "{:" \/ opener = L "{-") /\ rest s = opener ++ body /\
    body <> [] /\ noneOf ["}"%char] body = true.
Proof.
  unfold openBlockRegex. rewrite in_seq. intros (s1 & H1 & H).
  apply in_group in H1. destruct H1 as (x & Hx & ->).
  assert (Ho : exists opener, (opener = L "{:" \/ opener = L "{-")
                              /\ In x (m noFlags (Lit opener) s)).
  { cbn [m] in Hx. apply in_app_or in Hx.
    destruct Hx as [Hx|Hx]; [exists (L "{:")|exists (L "{-")]; auto. }
  clear Hx. destruct Ho as (opener & Ho & Hx).
  apply in_lit in Hx. destruct Hx as (r1 & E1 & ->).
  apply in_seq in H. destruct H as (s2 & H2 & H3).
  apply in_group in H2. destruct H2 as (y & Hy & ->).
  apply in_plus_class_full in Hy. destruct Hy as (w & r & -> & Er & Hne & Hw).
  apply in_eol in H3. destruct H3 as [_ H3].
  unfold set_cap in *. cbn [rest seen caps mk] in *. subst r. rewrite app_nil_r in Er.
  subst r1. exists opener, w. split; [exact Ho|]. split; [exact E1|].
  split; [exact Hne|]. apply (proj2 (noneOf_class ["}"%char] w)). exact Hw.
Qed.

Lemma openBlockRegex_intro s opener body :
  opener = L "{:" \/ opener = L "{-" -> rest s = opener ++ body ->
  body <> [] -> noneOf ["}"%char] body = true ->
  exists fin, In fin (m noFlags openBlockRegex s).
Proof.
  intros Ho E Hne Hb. unfold openBlockRegex.
  destruct body as [|c body]; [contradiction|].
  apply (proj1 (noneOf_class ["}"%char] (c :: body))) in Hb.
  inversion Hb as [|? ? Hc Hb']; subst.
  set (x := mk (rev opener ++ seen s) (c :: body) (caps s)).
  set (s1 := set_cap 1 s x).
  set (x2 := mk (c :: seen s1) body (caps s1)).
  set (y := mk (rev body ++ seen x2) [] (caps x2)).
  exists (set_cap 2 s1 y).
  apply in_seq. exists s1. split.
  { apply in_group. exists x. split; [|reflexivity].
    cbn [m]. apply in_or_app.
    destruct Ho as [-> | ->]; [left|right]; apply in_lit;
      exists (c :: body); split; auto. }
  apply in_seq. exists (set_cap 2 s1 y). split; [|apply in_eol; auto].
  apply in_group. exists y. split; [|reflexivity].
  unfold Plus. apply in_seq. exists x2. split.
  - rewrite (m_class noFlags true [One "}"%char] s1 c body eq_refl Hc). now left.
  - apply in_star_class_intro; [cbn [rest x2 mk]; rewrite app_nil_r; reflexivity|].
    exact Hb'.
Qed.

(** The root pattern of the dot access: the text from the match on is a
    run of root characters and a final dot; the run is captured. *)
Lemma dotRegex_inv s fin :
  In fin (m noFlags dotRegex s) ->
  exists root, rest s = root ++ "." /\
               Forall (fun c => isRootChar c = true) root /\
               caps fin = (1, root) :: caps s.
Proof.
  unfold dotRegex. rewrite in_seq. intros (s1 & H1 & H).
  apply in_group in H1. destruct H1 as (y & Hy & ->).
  apply in_star_class_full in Hy. destruct Hy as (w & r & -> & Er & Hw).
  apply in_seq in H. destruct H as (s2 & H2 & H3).
  apply in_char in H2. destruct H2 as [-> E2].
  apply in_eol in H3. destruct H3 as [-> H3].
  rewrite set_cap_run in *. cbn [rest seen caps mk] in *.
  rewrite H3 in E2. subst r.
  exists w. auto.
Qed.

Lemma dotRegex_intro s root :
  rest s = root ++ "." -> Forall (fun c => isRootChar c = true) root ->
  exists fin, In fin (m noFlags dotRegex s).
Proof.
  intros E Hr. unfold dotRegex.
  set (y := mk (rev root ++ seen s) (L ".") (caps s)).
  set (s1 := set_cap 1 s y).
  exists (mk ("."%char :: seen s1) [] (caps s1)).
  apply in_seq. exists s1. split.
  { apply in_group. exists y. split; [|reflexivity].
    apply in_star_class_intro; [exact E|exact Hr]. }
  apply in_seq. exists (mk ("."%char :: seen s1) [] (caps s1)).
  split; [apply in_char; auto|apply in_eol; auto].
Qed.

Lemma dot_needs_final_dot p :
  Str.endsWith "." p = false -> exec noFlags dotRegex p = None.
Proof.
  intros H. unfold exec. apply search_none.
  intros pre u ->.
  destruct (m noFlags dotRegex (at_ (rev pre ++ []) u)) as [|fin l] eqn:E; [reflexivity|].
  exfalso.
  assert (Hin : In fin (m noFlags dotRegex (at_ (rev pre ++ []) u)))
    by (rewrite E; now left).
  apply dotRegex_inv in Hin. destruct Hin as (root & Eu & _).
  cbn [rest at_] in Eu. subst u.
  rewrite app_assoc, endsWith_app in H. discriminate.
Qed.

(** The root a dot access resolves: the longest run of root characters
    left of the final dot. *)
Lemma dot_root front root :
  endsWhere notRootChar front = true ->
  Forall (fun c => isRootChar c = true) root ->
  exists res, exec noFlags dotRegex (front ++ root ++ ".") = Some res /\
              group 1 res = root.
Proof.
  intros Hf Hr. unfold exec.
  destruct (search_first noFlags dotRegex front (root ++ ".") []) as (fin & E & Hin).
  - intros p u Ef Hu.
    destruct (m noFlags dotRegex _) as [|fin l] eqn:E; [reflexivity|]. exfalso.
    assert (Hin : In fin (m noFlags dotRegex (at_ (rev p ++ []) (u ++ root ++ "."))))
      by (rewrite E; now left).
    apply dotRegex_inv in Hin. destruct Hin as (w & Ew & Hw & _).
    cbn [rest at_] in Ew. rewrite app_assoc in Ew.
    apply app_inj_tail in Ew. destruct Ew as [Ew _]. subst w.
    apply Forall_app in Hw. destruct Hw as [Hu' _].
    destruct (exists_last Hu) as (u' & d & ->).
    apply Forall_app in Hu'. destruct Hu' as [_ Hd]. inversion Hd as [|? ? Hd' _]; subst.
    unfold endsWhere in Hf. rewrite app_assoc, rev_app_distr in Hf. cbn [rev app] in Hf.
    unfold notRootChar in Hf. rewrite Hd' in Hf. discriminate.
  - destruct (dotRegex_intro (at_ (rev front ++ []) (root ++ ".")) root eq_refl Hr)
      as [fin Hin].
    intros E. rewrite E in Hin. destruct Hin.
  - rewrite E. eexists. split; [reflexivity|].
    apply dotRegex_inv in Hin. destruct Hin as (w & Ew & _ & Ec).
    cbn [rest at_] in Ew. apply app_inj_tail in Ew. destruct Ew as [<- _].
    unfold group. cbn [final]. rewrite Ec. reflexivity.
Qed.

(** *** Requests by the shape of the line prefix *)

Lemma unique_split (c : ascii) a : forall b a' b',
  ~ In c a -> ~ In c b -> a ++ c :: b = a' ++ c :: b' -> a = a' /\ b = b'.
Proof.
  induction a as [|x a IH]; intros b a' b' Ha Hb E.
  - destruct a' as [|y a']; cbn [app] in E.
    + injection E as ->. auto.
    + injection E as <- ->. exfalso. apply Hb. apply in_or_app. right. now left.
  - destruct a' as [|y a']; cbn [app] in E.
    + injection E as -> _. exfalso. apply Ha. now left.
    + injection E as <- E. destruct (IH b a' b') as [-> ->]; auto.
      intros H. apply Ha. now right.
Qed.

Lemma lit_seq_fail w r s :
  Str.startsWith w (rest s) = false -> m noFlags (Seq (Lit w) r) s = [].
Proof. intros H. rewrite m_seq, (m_lit_fail w s H). reflexivity. Qed.

Lemma substr_nonempty lineText n :
  Str.substr lineText 0 n <> [] -> 1 <= n.
Proof. destruct n; [intros H; exfalso; apply H; reflexivity|lia]. Qed.

Lemma getBlockCompletions_none p position document :
  1 <= character position ->
  Str.endsWith "{-" p = false -> Str.endsWith "{:" p = false ->
  Str.endsWith "{<" p = false ->
  getBlockCompletions p position document = Ok None.
Proof.
  intros H H1 H2 H3. unfold getBlockCompletions.
  rewrite (translate_left _ H), translate_right. cbn [bind].
  rewrite H1, H2, H3. reflexivity.
Qed.

Lemma getBlockCompletions_opened p position document opener :
  1 <= character position ->
  In opener [L "{-"; L "{:"; L "{<"] -> Str.endsWith opener p = true ->
  exists l, getBlockCompletions p position document = Ok (Some l).
Proof.
  intros H Ho He. unfold getBlockCompletions.
  rewrite (translate_left _ H), translate_right. cbn [bind].
  destruct (Str.endsWith "{-" p) eqn:E1; [eexists; reflexivity|].
  destruct (Str.endsWith "{:" p) eqn:E2; [eexists; reflexivity|].
  destruct (Str.endsWith "{<" p) eqn:E3; [eexists; reflexivity|].
  exfalso. cbn [In] in Ho. destruct Ho as [<-|[<-|[<-|[]]]]; congruence.
Qed.

Lemma no_opener_at_end pre o1 o2 body d :
  body <> [] -> noneOf ["{"%char] body = true -> o2 <> "{"%char ->
  Str.endsWith ["{"%char; d] (pre ++ [o1; o2] ++ body) = false.
Proof.
  intros Hne Hb Ho. destruct (exists_last Hne) as (body' & b & ->).
  destruct body' as [|x body'] using rev_ind.
  - replace (pre ++ [o1; o2] ++ [] ++ [b]) with ((pre ++ [o1]) ++ [o2; b])
      by (rewrite <- app_assoc; reflexivity).
    rewrite endsWith_last_two.
    destruct (Ascii.eqb_spec "{"%char o2) as [E|_]; [congruence|apply andb_false_r].
  - clear IHbody'.
    replace (pre ++ [o1; o2] ++ (body' ++ [x]) ++ [b])
      with ((pre ++ [o1; o2] ++ body') ++ [x; b])
      by (repeat rewrite <- app_assoc; reflexivity).
    rewrite endsWith_last_two.
    assert (Hx : ~ In x ["{"%char] \/ x <> "{"%char).
    { right. intros ->. apply (noneOf_not_in "{"%char _ _ Hb); [now left|].
      apply in_or_app. left. apply in_or_app. right. now left. }
    destruct (Ascii.eqb_spec "{"%char x) as [E|_]; [|apply andb_false_r].
    destruct Hx as [Hx|Hx]; [exfalso; apply Hx; now left|congruence].
Qed.

Lemma endsWhere_app p a b :
  endsWhere p (a ++ b) = match b with [] => endsWhere p a | _ :: _ => endsWhere p b end.
Proof.
  destruct b as [|y b]; [rewrite app_nil_r; reflexivity|].
  unfold endsWhere. rewrite rev_app_distr.
  destruct (rev (y :: b)) as [|c l] eqn:E; [|reflexivity].
  apply (f_equal (@length ascii)) in E. rewrite length_rev in E. discriminate.
Qed.

Lemma test_openBlockRegex p :
  test noFlags openBlockRegex p = true <->
  exists pre opener body,
    p = pre ++ opener ++ body /\ (opener = L "{:" \/ opener = L "{-") /\
    body <> [] /\ noneOf ["}"%char] body = true.
Proof.
  split.
  - intros H. apply test_true_inv in H. destruct H as (pre & u & fin & -> & Hin).
    apply openBlockRegex_inv in Hin. destruct Hin as (opener & body & Ho & E & Hne & Hb).
    cbn [rest at_] in E. subst u. exists pre, opener, body. auto.
  - intros (pre & opener & body & -> & Ho & Hne & Hb).
    destruct (openBlockRegex_intro (at_ (rev pre ++ []) (opener ++ body)) opener body
                Ho eq_refl Hne Hb) as [fin Hin].
    eapply test_true_intro. exact Hin.
Qed.

(** The steps of a request once the line and the snippets are known. *)
Lemma request_steps w document position lineText snippets :
  lineAt document position = Ok lineText ->
  getBlockCompletions (Str.substr lineText 0 (character position)) position document
    = Ok snippets ->
  let p := Str.substr lineText 0 (character position) in
  test noFlags includeRegex p = false ->
  (if test noFlags openBlockRegex p then exec noFlags dotRegex p else None) = None ->
  provideCompletionItems w document position
  = (items3 <-
       (if test noFlags commandRegex p
        then commonExpressions <- getCommonExpressions document ;;
             Ok (itemsOf snippets ++ getControlKeywords ++ commonExpressions)
        else Ok (itemsOf snippets)) ;;
     items4 <-
       (if test noFlags expressionRegex p
        then commonExpressions <- getCommonExpressions document ;;
             Ok (items3 ++ getOutputKeywords ++ commonExpressions)
        else Ok items3) ;;
     let items5 :=
       if test noFlags shortcodeRegex p
       then items4 ++ getShortcodeCompletions w else items4 in
     Ok (match items5 with [] => None | _ :: _ => Some items5 end)).
Proof.
  intros Hline Hblock p Hinc Hdot. subst p. unfold provideCompletionItems.
  rewrite Hline. cbn [bind]. rewrite Hblock. cbn [bind].
  rewrite Hinc, Hdot. reflexivity.
Qed.

Lemma single_opener pre o2 body pre' o2' body' :
  noneOf ["{"%char] pre = true -> noneOf ["{"%char] body = true -> o2 <> "{"%char ->
  pre ++ "{"%char :: o2 :: body = pre' ++ "{"%char :: o2' :: body' ->
  pre' = pre /\ o2' = o2 /\ body' = body.
Proof.
  intros Hp Hb Ho E.
  destruct (unique_split "{"%char pre (o2 :: body) pre' (o2' :: body')) as [E1 E2].
  - apply (noneOf_not_in _ _ _ Hp). now left.
  - intros [H|H]; [congruence|]. revert H. apply (noneOf_not_in _ _ _ Hb). now left.
  - exact E.
  - injection E2 as -> ->. auto.
Qed.

(** On a line whose only brace opens the block, the path pattern needs a
    quote in the body. *)
Lemma single_opener_no_path pre o2 body :
  noneOf ["{"%char] pre = true -> noneOf ["{"%char] body = true -> o2 <> "{"%char ->
  o2 <> "-"%char \/ noneOf [quote] body = true ->
  test noFlags includeRegex (pre ++ "{"%char :: o2 :: body) = false.
Proof.
  intros Hp Hb Ho Hq.
  destruct (test noFlags includeRegex _) eqn:E; [exfalso|reflexivity].
  apply test_includeRegex in E.
  destruct E as (pre' & sp1 & kw & sp2 & partial & E & _).
  apply (single_opener pre o2 body pre' "-"%char
           (sp1 ++ kw ++ sp2 ++ quote :: partial) Hp Hb Ho) in E.
  destruct E as (_ & Eo & E). destruct Hq as [Hq|Hq]; [congruence|].
  apply (noneOf_not_in quote _ _ Hq); [now left|].
  rewrite <- E. repeat (apply in_or_app; right). now left.
Qed.

Lemma single_opener_other pre o2 body x cs :
  noneOf ["{"%char] pre = true -> noneOf ["{"%char] body = true -> o2 <> "{"%char ->
  x <> o2 ->
  test noFlags (openRegex ["{"%char; x] cs) (pre ++ "{"%char :: o2 :: body) = false.
Proof.
  intros Hp Hb Ho Hx.
  destruct (test noFlags _ _) eqn:E; [exfalso|reflexivity].
  apply test_openRegex in E. destruct E as (pre' & body' & E & _).
  apply (single_opener pre o2 body pre' x body' Hp Hb Ho) in E.
  destruct E as (_ & E & _). congruence.
Qed.

Lemma single_opener_same pre o2 body cs :
  noneOf cs body = true ->
  test noFlags (openRegex ["{"%char; o2] cs) (pre ++ "{"%char :: o2 :: body) = true.
Proof.
  intros Hb. apply test_openRegex. exists pre, body. auto.
Qed.

Lemma single_opener_no_shortcode pre o2 body :
  noneOf ["{"%char] pre = true -> noneOf ["{"%char] body = true -> o2 <> "{"%char ->
  o2 <> "<"%char ->
  test noFlags shortcodeRegex (pre ++ "{"%char :: o2 :: body) = false.
Proof.
  intros Hp Hb Ho Hx.
  destruct (test noFlags _ _) eqn:E; [exfalso|reflexivity].
  apply test_shortcodeRegex in E. destruct E as (pre' & body' & E & _).
  apply (single_opener pre o2 body pre' "<"%char body' Hp Hb Ho) in E.
  destruct E as (_ & E & _). congruence.
Qed.

Lemma single_opener_no_block pre o2 body :
  noneOf ["{"%char] pre = true -> noneOf ["{"%char] body = true -> o2 <> "{"%char ->
  body = [] \/ (o2 <> ":"%char /\ o2 <> "-"%char) ->
  test noFlags openBlockRegex (pre ++ "{"%char :: o2 :: body) = false.
Proof.
  intros Hp Hb Ho Hx.
  destruct (test noFlags _ _) eqn:E; [exfalso|reflexivity].
  apply test_openBlockRegex in E.
  destruct E as (pre' & opener & body' & E & Hop & Hne & _).
  assert (Eo : exists x, opener = ["{"%char; x] /\ (x = ":"%char \/ x = "-"%char)).
  { destruct Hop as [-> | ->]; eexists; split; try reflexivity; auto. }
  destruct Eo as (x & -> & Hx').
  apply (single_opener pre o2 body pre' x body' Hp Hb Ho) in E.
  destruct E as (_ & -> & ->).
  destruct Hx as [->|[H1 H2]]; [contradiction|]. destruct Hx'; contradiction.
Qed.

Lemma body_parts body :
  noneOf ["{"; "}"; quote]%char body = true ->
  noneOf ["{"%char] body = true /\ noneOf ["}"%char] body = true /\
  noneOf [quote] body = true.
Proof.
  intros H. repeat split; (eapply noneOf_weaken; [|exact H]);
    intros c [<-|[]]; cbn; auto.
Qed.

Lemma common_expressions_returned document :
  exists common, getCommonExpressions document = Ok common.
Proof.
  destruct (getCommonExpressions_scan document) as (ms & _ & E). eexists. exact E.
Qed.

(** The core of a request inside the single open block of a line. *)
Lemma open_block_core w document position lineText pre o2 body :
  lineAt document position = Ok lineText ->
  Str.substr lineText 0 (character position) = pre ++ "{"%char :: o2 :: body ->
  o2 = "-"%char \/ o2 = ":"%char ->
  noneOf ["{"%char] pre = true -> noneOf ["{"; "}"; quote]%char body = true ->
  Str.endsWith "." body = false ->
  exists snippets common,
    getBlockCompletions (pre ++ "{"%char :: o2 :: body) position document = Ok snippets /\
    (snippets = None <-> body <> []) /\
    getCommonExpressions document = Ok common /\
    provideCompletionItems w document position
    = Ok (Some (itemsOf snippets ++ keywordsOf ["{"%char; o2] ++ common)).
Proof.
  intros Hline Ep Ho Hpre Hbody Hdot.
  destruct (body_parts body Hbody) as (Hb1 & Hb2 & Hb3).
  assert (Ho2 : o2 <> "{"%char) by (destruct Ho as [-> | ->]; discriminate).
  assert (Hc : 1 <= character position).
  { apply (substr_nonempty lineText). rewrite Ep. destruct pre; discriminate. }
  destruct (common_expressions_returned document) as [common Ecommon].
  assert (Hblock : exists snippets,
             getBlockCompletions (pre ++ "{"%char :: o2 :: body) position document
             = Ok snippets /\ (snippets = None <-> body <> [])).
  { destruct body as [|b body].
    - destruct (getBlockCompletions_opened (pre ++ ["{"%char; o2]) position document
                  ["{"%char; o2] Hc) as [l El].
      + destruct Ho as [-> | ->]; cbn; auto.
      + apply endsWith_app.
      + exists (Some l). split; [exact El|]. split; [discriminate|intros H; now elim H].
    - exists None. split; [|split; [discriminate|reflexivity]].
      apply getBlockCompletions_none; [exact Hc| | |];
        apply (no_opener_at_end pre "{"%char o2 (b :: body)); auto; discriminate. }
  destruct Hblock as (snippets & Eblock & Hsn).
  exists snippets, common. split; [exact Eblock|]. split; [exact Hsn|].
  split; [exact Ecommon|].
  rewrite (request_steps w document position lineText snippets Hline);
    rewrite ?Ep; try exact Eblock.
  - rewrite (single_opener_no_shortcode pre o2 body Hpre Hb1 Ho2)
      by (destruct Ho as [-> | ->]; discriminate).
    rewrite commandRegex_shape, expressionRegex_shape.
    change (L "{-") with ["{"%char; "-"%char].
    change (L "{:") with ["{"%char; ":"%char].
    destruct Ho as [-> | ->].
    + rewrite (single_opener_same pre "-" body ["}"%char] Hb2).
      rewrite (single_opener_other pre "-" body ":" ["}"%char] Hpre Hb1)
        by discriminate.
      rewrite Ecommon. cbn [bind].
      change (keywordsOf ["{"%char; "-"%char]) with getControlKeywords.
      destruct (itemsOf snippets ++ getControlKeywords ++ common) eqn:E; [|reflexivity].
      apply app_eq_nil in E. destruct E as [_ E]. discriminate E.
    + rewrite (single_opener_other pre ":" body "-" ["}"%char] Hpre Hb1)
        by discriminate.
      rewrite (single_opener_same pre ":" body ["}"%char] Hb2).
      rewrite Ecommon. cbn [bind].
      change (keywordsOf ["{"%char; ":"%char]) with getOutputKeywords.
      destruct (itemsOf snippets ++ getOutputKeywords ++ common) eqn:E; [|reflexivity].
      apply app_eq_nil in E. destruct E as [_ E]. discriminate E.
  - exact (single_opener_no_path pre o2 body Hpre Hb1 Ho2 (or_intror Hb3)).
  - destruct (test noFlags openBlockRegex _); [|reflexivity].
    apply dot_needs_final_dot.
    destruct body as [|b body] using rev_ind.
    + replace (pre ++ ["{"%char; o2]) with ((pre ++ ["{"%char]) ++ [o2])
        by (rewrite <- app_assoc; reflexivity).
      change (L ".") with ["."%char]. unfold Str.endsWith.
      rewrite rev_app_distr. cbn.
      destruct Ho as [-> | ->]; reflexivity.
    + clear IHbody.
      replace (pre ++ "{"%char :: o2 :: body ++ [b])
        with ((pre ++ "{"%char :: o2 :: body) ++ [b])
        by (rewrite <- app_assoc; reflexivity).
      change (L ".") with ["."%char] in *. unfold Str.endsWith in *.
      rewrite rev_app_distr in *. cbn in *. exact Hdot.
Qed.

(** X1.  A line prefix in which no block opens gets no opinion: the host's own
    suggestions are left alone. *)
Theorem no_opener_no_opinion
        (w : Workspace) (document : TextDocument) (position : Position)
        (lineText : str) :
  lineAt document position = Ok lineText ->
  1 <= character position ->
  occurs "{-" (Str.substr lineText 0 (character position)) = false ->
  occurs "{:" (Str.substr lineText 0 (character position)) = false ->
  occurs "{<" (Str.substr lineText 0 (character position)) = false ->
  provideCompletionItems w document position = Ok None.
Proof.
  intros Hline Hc H1 H2 H3.
  set (p := Str.substr lineText 0 (character position)) in *.
  assert (F : forall o, occurs o p = false ->
              forall r pre u, p = pre ++ u ->
                m noFlags (Seq (Lit o) r) (at_ (rev pre ++ []) u) = []).
  { intros o Ho r pre u E. apply lit_seq_fail. cbn [rest at_].
    rewrite E in Ho. eapply occurs_at. exact Ho. }
  rewrite (request_steps w document position lineText None Hline).
  - fold p.
    rewrite (test_false noFlags commandRegex p) by (apply (F "{-" H1)).
    rewrite (test_false noFlags expressionRegex p) by (apply (F "{:" H2)).
    rewrite (test_false noFlags shortcodeRegex p) by (apply (F "{<" H3)).
    reflexivity.
  - apply getBlockCompletions_none; [exact Hc| | |]; apply endsWith_occurs; assumption.
  - apply test_false. apply (F "{-" H1).
  - fold p. rewrite (test_false noFlags openBlockRegex p); [reflexivity|].
    intros pre u E. unfold openBlockRegex. rewrite m_seq. cbn [m].
    rewrite !m_lit_fail; [reflexivity| |]; cbn [rest at_]; rewrite E in *;
      eapply occurs_at; eassumption.
Qed.

Lemma no_opener_no_opinion_witness :
  provideCompletionItems emptyWorkspace
    (document_of ["# Title"; "Some {% note %} text. "]%string) (cursor 1 22)
  = Ok None.
Proof.
  apply (no_opener_no_opinion emptyWorkspace _ (cursor 1 22)
           (L "Some {% note %} text. ")); [reflexivity|cbn; lia| | |]; reflexivity.
Defined.

(** X2.  Inside the only open block of a line, a command block or an expression
    block, the request returns the block snippets (when the opener was just
    typed), the keywords of the block and the common expressions, in this
    order. *)
Theorem open_block_request
        (w : Workspace) (document : TextDocument) (position : Position)
        (lineText pre opener body : str) :
  lineAt document position = Ok lineText ->
  Str.substr lineText 0 (character position) = pre ++ opener ++ body ->
  opener = L "{-" \/ opener = L "{:" ->
  noneOf ["{"%char] pre = true ->
  noneOf ["{"; "}"; quote]%char body = true ->
  Str.endsWith "." body = false ->
  exists snippets common,
    getBlockCompletions (pre ++ opener ++ body) position document = Ok snippets /\
    (snippets = None <-> body <> []) /\
    getCommonExpressions document = Ok common /\
    provideCompletionItems w document position
    = Ok (Some (itemsOf snippets ++ keywordsOf opener ++ common)).
Proof.
  intros Hline Ep Ho Hpre Hbody Hdot.
  destruct Ho as [-> | ->].
  - apply (open_block_core w document position lineText pre "-" body); auto.
  - apply (open_block_core w document position lineText pre ":" body); auto.
Qed.

Lemma open_block_request_witness :
  exists snippets common,
    getBlockCompletions ("<p>" ++ "{-" ++ " if ") (cursor 0 9) (oneLine "<p>{- if  -}</p>")
      = Ok snippets /\
    (snippets = None <-> L " if " <> []) /\
    getCommonExpressions (oneLine "<p>{- if  -}</p>") = Ok common /\
    provideCompletionItems emptyWorkspace (oneLine "<p>{- if  -}</p>") (cursor 0 9)
    = Ok (Some (itemsOf snippets ++ keywordsOf "{-" ++ common)).
Proof.
  apply (open_block_request emptyWorkspace (oneLine "<p>{- if  -}</p>") (cursor 0 9)
           "<p>{- if  -}</p>" "<p>" "{-" " if "); try reflexivity. now left.
Defined.

Lemma block_snippet_labels p position document l it :
  getBlockCompletions p position document = Ok (Some l) -> In it l ->
  Str.startsWith "{" (label it) = true.
Proof.
  unfold getBlockCompletions.
  destruct (translate position 0 (-1)) as [startPos| |]; cbn [bind]; try discriminate.
  destruct (translate position 0 1) as [next| |]; cbn [bind]; try discriminate.
  destruct (Str.endsWith "{-" p);
    [|destruct (Str.endsWith "{:" p); [|destruct (Str.endsWith "{<" p)]];
    intros E Hin; try discriminate; injection E as <-;
    cbn [In] in Hin; intuition (subst; reflexivity).
Qed.

Lemma count_occ_none_start (labels : list str) (x : str) c d :
  (forall y, In y labels -> Str.startsWith [c] y = true) ->
  Str.startsWith [d] x = true -> Ascii.eqb c d = false ->
  count_occ str_dec labels x = 0.
Proof.
  intros H Hx Hcd. apply count_occ_not_In. intros Hin.
  specialize (H x Hin). destruct x as [|a x]; [discriminate|].
  cbn in H, Hx. rewrite andb_true_r in *.
  apply Ascii.eqb_eq in H, Hx. subst. rewrite Ascii.eqb_refl in Hcd. discriminate.
Qed.

Lemma user_labels_sigil matches y :
  In y (firstSeen (scannedNames matches)) -> Str.startsWith "$" y = true.
Proof.
  intros H. apply (proj1 (firstSeen_In _ _)) in H. unfold scannedNames in H.
  apply in_flat_map in H. destruct H as (mt & _ & H).
  eapply sigilTokens_sigil. exact H.
Qed.

(** X3.  In a command block the labels [end] and [param] are each listed twice:
    among the control keywords and among the common expressions. *)
Theorem command_block_lists_end_and_param_twice
        (w : Workspace) (document : TextDocument) (position : Position)
        (lineText pre body : str) :
  lineAt document position = Ok lineText ->
  Str.substr lineText 0 (character position) = pre ++ "{-" ++ body ->
  noneOf ["{"%char] pre = true ->
  noneOf ["{"; "}"; quote]%char body = true ->
  Str.endsWith "." body = false ->
  exists items,
    provideCompletionItems w document position = Ok (Some items) /\
    count_occ str_dec (labelsOf items) "end" = 2 /\
    count_occ str_dec (labelsOf items) "param" = 2.
Proof.
  intros Hline Ep Hpre Hbody Hdot.
  destruct (open_block_core w document position lineText pre "-" body Hline Ep
              (or_introl eq_refl) Hpre Hbody Hdot)
    as (snippets & common & Eblock & _ & Ecommon & E).
  destruct (getCommonExpressions_scan document) as (matches & _ & Escan).
  rewrite Escan in Ecommon. apply Ok_inj in Ecommon. subst common.
  eexists. split; [exact E|].
  change (keywordsOf ["{"%char; "-"%char]) with getControlKeywords.
  unfold labelsOf. rewrite !map_app, !count_occ_app, map_map.
  assert (Hs : forall x c, Ascii.eqb "{" c = false -> Str.startsWith [c] x = true ->
               count_occ str_dec (map label (itemsOf snippets)) x = 0).
  { intros x c Hc Hx. apply (count_occ_none_start _ x "{"%char c); auto.
    intros y Hy. apply in_map_iff in Hy. destruct Hy as (it & <- & Hit).
    destruct snippets as [l|]; [|destruct Hit].
    eapply block_snippet_labels; eauto. }
  assert (Hu : forall x c, Ascii.eqb "$" c = false -> Str.startsWith [c] x = true ->
               count_occ str_dec
                 (map (fun v => label (userVariable v)) (firstSeen (scannedNames matches)))
                 x = 0).
  { intros x c Hc Hx. apply (count_occ_none_start _ x "$"%char c); auto.
    intros y Hy. apply in_map_iff in Hy. destruct Hy as (v & <- & Hv).
    apply user_labels_sigil in Hv. exact Hv. }
  split.
  - rewrite (Hs "end" "e"%char eq_refl eq_refl).
    rewrite (Hu "end" "e"%char eq_refl eq_refl). reflexivity.
  - rewrite (Hs "param" "p"%char eq_refl eq_refl).
    rewrite (Hu "param" "p"%char eq_refl eq_refl). reflexivity.
Qed.

Lemma command_block_lists_end_and_param_twice_witness :
  exists items,
    provideCompletionItems emptyWorkspace (oneLine "{- ") (cursor 0 3) = Ok (Some items) /\
    count_occ str_dec (labelsOf items) "end" = 2 /\
    count_occ str_dec (labelsOf items) "param" = 2.
Proof.
  apply (command_block_lists_end_and_param_twice emptyWorkspace (oneLine "{- ")
           (cursor 0 3) "{- " [] " "); reflexivity.
Defined.

(** X4.  Inside the only open block of a line, a shortcode tag, the request
    returns the three tag snippets (when the opener was just typed) and the
    shortcode names, and no opinion when there is neither. *)
Theorem shortcode_request
        (w : Workspace) (document : TextDocument) (position : Position)
        (lineText pre body : str) :
  lineAt document position = Ok lineText ->
  Str.substr lineText 0 (character position) = pre ++ "{<" ++ body ->
  noneOf ["{"%char] pre = true ->
  noneOf ["{"; "}"; ">"]%char body = true ->
  exists snippets,
    getBlockCompletions (pre ++ "{<" ++ body) position document = Ok snippets /\
    (snippets = None <-> body <> []) /\
    provideCompletionItems w document position
    = Ok (unlessEmpty (itemsOf snippets ++ getShortcodeCompletions w)).
Proof.
  intros Hline Ep Hpre Hbody.
  assert (Hb1 : noneOf ["{"%char] body = true).
  { eapply noneOf_weaken; [|exact Hbody]. intros c [<-|[]]. now left. }
  assert (Hb2 : noneOf [">"; "}"]%char body = true).
  { eapply noneOf_weaken; [|exact Hbody]. intros c [<-|[<-|[]]]; cbn; auto. }
  assert (Hc : 1 <= character position).
  { apply (substr_nonempty lineText). rewrite Ep. destruct pre; discriminate. }
  assert (Hblock : exists snippets,
             getBlockCompletions (pre ++ "{<" ++ body) position document
             = Ok snippets /\ (snippets = None <-> body <> [])).
  { destruct body as [|b body].
    - destruct (getBlockCompletions_opened (pre ++ "{<") position document "{<" Hc)
        as [l El].
      + cbn; auto.
      + apply endsWith_app.
      + exists (Some l). split; [exact El|]. split; [discriminate|intros H; now elim H].
    - exists None. split; [|split; [discriminate|reflexivity]].
      apply getBlockCompletions_none; [exact Hc| | |];
        apply (no_opener_at_end pre "{"%char "<"%char (b :: body)); auto; discriminate. }
  destruct Hblock as (snippets & Eblock & Hsn).
  exists snippets. split; [exact Eblock|]. split; [exact Hsn|].
  change (pre ++ "{<" ++ body) with (pre ++ "{"%char :: "<"%char :: body) in *.
  rewrite (request_steps w document position lineText snippets Hline);
    rewrite ?Ep; try exact Eblock.
  - rewrite commandRegex_shape, expressionRegex_shape.
    change (L "{-") with ["{"%char; "-"%char].
    change (L "{:") with ["{"%char; ":"%char].
    rewrite !(single_opener_other pre "<" body _ ["}"%char] Hpre Hb1) by discriminate.
    cbn [bind].
    replace (test noFlags shortcodeRegex (pre ++ "{"%char :: "<"%char :: body)) with true.
    + reflexivity.
    + symmetry. apply test_shortcodeRegex. exists pre, body. auto.
  - apply (single_opener_no_path pre "<" body Hpre Hb1); [discriminate|].
    left. discriminate.
  - rewrite (single_opener_no_block pre "<" body Hpre Hb1); [reflexivity|discriminate|].
    right. split; discriminate.
Qed.

Lemma shortcode_request_witness :
  exists snippets,
    getBlockCompletions ("<p>" ++ "{<" ++ "/fig") (cursor 0 9) (oneLine "<p>{</fig")
      = Ok snippets /\
    (snippets = None <-> L "/fig" <> []) /\
    provideCompletionItems emptyWorkspace (oneLine "<p>{</fig") (cursor 0 9)
    = Ok (unlessEmpty (itemsOf snippets ++ getShortcodeCompletions emptyWorkspace)).
Proof.
  apply (shortcode_request emptyWorkspace (oneLine "<p>{</fig") (cursor 0 9)
           "<p>{</fig" "<p>" "/fig"); reflexivity.
Defined.

(** X5.  A dot typed inside an open command or expression block, on a line with
    no quote: the request returns the field candidates of the root left of
    the dot, the longest run of letters, digits, underscores and dots, and
    nothing else. *)
Theorem dot_access_request
        (w : Workspace) (document : TextDocument) (position : Position)
        (lineText pre opener mid root : str) :
  lineAt document position = Ok lineText ->
  Str.substr lineText 0 (character position) = pre ++ opener ++ mid ++ root ++ "." ->
  opener = L "{-" \/ opener = L "{:" ->
  noneOf [quote] (pre ++ opener ++ mid ++ root) = true ->
  noneOf ["}"%char] (mid ++ root) = true ->
  endsWhere notRootChar mid = true ->
  Forall (fun c => isRootChar c = true) root ->
  provideCompletionItems w document position
  = (fieldItems <- getFieldCompletions w root document ;; Ok (Some fieldItems)).
Proof.
  intros Hline Ep Ho Hq Hb Hmid Hroot.
  set (p := pre ++ opener ++ mid ++ root ++ ".") in *.
  assert (Hc : 1 <= character position).
  { apply (substr_nonempty lineText). rewrite Ep. unfold p.
    destruct pre; [destruct Ho as [-> | ->]|]; discriminate. }
  assert (Ep' : p = (pre ++ opener ++ mid ++ root) ++ ["."%char]).
  { unfold p. repeat rewrite <- app_assoc. reflexivity. }
  assert (Hblock : getBlockCompletions p position document = Ok None).
  { apply getBlockCompletions_none; [exact Hc| | |]; rewrite Ep';
      apply endsWith_last_differs; reflexivity. }
  assert (Hinc : test noFlags includeRegex p = false).
  { destruct (test noFlags includeRegex p) eqn:E; [exfalso|reflexivity].
    apply test_includeRegex in E.
    destruct E as (pre' & sp1 & kw & sp2 & partial & E & _).
    assert (Hin : In quote p).
    { rewrite E. repeat (apply in_or_app; right). now left. }
    rewrite Ep' in Hin. apply in_app_or in Hin. destruct Hin as [Hin|[Hin|[]]].
    - revert Hin. apply (noneOf_not_in quote _ _ Hq). now left.
    - discriminate Hin. }
  assert (Hopen : test noFlags openBlockRegex p = true).
  { apply test_openBlockRegex. exists pre, opener, (mid ++ root ++ ".").
    split; [unfold p; repeat rewrite <- app_assoc; reflexivity|].
    split; [tauto|]. split; [destruct mid; [destruct root|]; discriminate|].
    rewrite app_assoc, noneOf_app, Hb. reflexivity. }
  destruct (dot_root (pre ++ opener ++ mid) root) as (res & Eres & Eroot).
  { rewrite app_assoc, endsWhere_app.
    destruct mid as [|x mid]; [|exact Hmid].
    rewrite endsWhere_app. destruct Ho as [-> | ->]; reflexivity. }
  { exact Hroot. }
  replace ((pre ++ opener ++ mid) ++ root ++ ".") with p in Eres
    by (unfold p; repeat rewrite <- app_assoc; reflexivity).
  unfold provideCompletionItems. rewrite Hline. cbn [bind].
  rewrite Ep, Hblock. cbn [bind]. rewrite Hinc, Hopen, Eres, Eroot.
  destruct (getFieldCompletions w root document); reflexivity.
Qed.

Lemma dot_access_request_witness :
  provideCompletionItems emptyWorkspace (oneLine "<h1>{: site.") (cursor 0 12)
  = (fieldItems <- getFieldCompletions emptyWorkspace "site" (oneLine "<h1>{: site.") ;;
     Ok (Some fieldItems)).
Proof.
  apply (dot_access_request emptyWorkspace (oneLine "<h1>{: site.") (cursor 0 12)
           "<h1>{: site." "<h1>" "{:" " " "site"); try reflexivity.
  - now right.
  - repeat constructor.
Defined.

(** X7.  The three block contexts are recognised exactly when the text left of
    the cursor holds the opener of the block with no closing character
    after it. *)
Theorem block_contexts (linePrefix : str) :
  (test noFlags commandRegex linePrefix = true <-> openAt "{-" ["}"%char] linePrefix) /\
  (test noFlags expressionRegex linePrefix = true <-> openAt "{:" ["}"%char] linePrefix) /\
  (test noFlags shortcodeRegex linePrefix = true
   <-> openAt "{<" [">"; "}"]%char linePrefix).
Proof.
  split; [|split].
  - rewrite commandRegex_shape. apply test_openRegex.
  - rewrite expressionRegex_shape. apply test_openRegex.
  - apply test_shortcodeRegex.
Qed.

(** X8.  The path context is recognised exactly when the text left of the
    cursor ends with an include or extends command up to a partial path:
    opener, blanks, keyword, blanks, a quote, no further quote. *)
Theorem path_context (linePrefix : str) :
  test noFlags includeRegex linePrefix = true <-> pathContext linePrefix.
Proof. apply test_includeRegex. Qed.

(** X6.  When a command block and an expression block are both open left of the
    cursor, the two steps run one after the other and the common
    expressions are listed twice; the shortcode candidates follow exactly
    when a shortcode block is open there too. *)
Theorem both_blocks_list_common_twice
        (w : Workspace) (document : TextDocument) (position : Position)
        (lineText : str) :
  lineAt document position = Ok lineText ->
  openAt "{-" ["}"%char] (Str.substr lineText 0 (character position)) ->
  openAt "{:" ["}"%char] (Str.substr lineText 0 (character position)) ->
  ~ pathContext (Str.substr lineText 0 (character position)) ->
  Str.endsWith "." (Str.substr lineText 0 (character position)) = false ->
  exists snippets common shortcodes,
    getBlockCompletions (Str.substr lineText 0 (character position)) position document
      = Ok snippets /\
    getCommonExpressions document = Ok common /\
    (openAt "{<" [">"; "}"]%char (Str.substr lineText 0 (character position)) ->
       shortcodes = getShortcodeCompletions w) /\
    (~ openAt "{<" [">"; "}"]%char (Str.substr lineText 0 (character position)) ->
       shortcodes = []) /\
    provideCompletionItems w document position
    = Ok (Some (itemsOf snippets ++ getControlKeywords ++ common
                ++ getOutputKeywords ++ common ++ shortcodes)).
Proof.
  intros Hline Hcmd Hexp Hpath Hdot.
  set (p := Str.substr lineText 0 (character position)) in *.
  assert (Hc : 1 <= character position).
  { apply (substr_nonempty lineText). fold p.
    destruct Hcmd as (pre & body & -> & _). destruct pre; discriminate. }
  destruct (getBlockCompletions_returns p position document Hc) as (snippets & Eblock & _).
  destruct (common_expressions_returned document) as [common Ecommon].
  exists snippets, common,
    (if test noFlags shortcodeRegex p then getShortcodeCompletions w else []).
  split; [exact Eblock|]. split; [exact Ecommon|].
  split.
  { intros Hs. apply test_shortcodeRegex in Hs. rewrite Hs. reflexivity. }
  split.
  { intros Hs. destruct (test noFlags shortcodeRegex p) eqn:E; [|reflexivity].
    exfalso. apply Hs, test_shortcodeRegex, E. }
  rewrite (request_steps w document position lineText snippets Hline Eblock).
  - fold p.
    replace (test noFlags commandRegex p) with true
      by (symmetry; rewrite commandRegex_shape; apply test_openRegex; exact Hcmd).
    replace (test noFlags expressionRegex p) with true
      by (symmetry; rewrite expressionRegex_shape; apply test_openRegex; exact Hexp).
    rewrite Ecommon. cbn [bind].
    destruct (test noFlags shortcodeRegex p).
    + repeat rewrite <- app_assoc.
      destruct (itemsOf snippets ++ _) eqn:E; [|reflexivity].
      apply app_eq_nil in E. destruct E as [_ E]. discriminate E.
    + rewrite app_nil_r. repeat rewrite <- app_assoc.
      destruct (itemsOf snippets ++ _) eqn:E; [|reflexivity].
      apply app_eq_nil in E. destruct E as [_ E]. discriminate E.
  - fold p. destruct (test noFlags includeRegex p) eqn:E; [|reflexivity].
    exfalso. apply Hpath. apply test_includeRegex. exact E.
  - fold p. rewrite (dot_needs_final_dot p Hdot).
    destruct (test noFlags openBlockRegex p); reflexivity.
Qed.

Lemma both_blocks_list_common_twice_witness :
  exists snippets common shortcodes,
    getBlockCompletions (Str.substr "{- set $x = {: {< " 0 18) (cursor 0 18)
                        (oneLine "{- set $x = {: {< ")
      = Ok snippets /\
    getCommonExpressions (oneLine "{- set $x = {: {< ") = Ok common /\
    (openAt "{<" [">"; "}"]%char (Str.substr "{- set $x = {: {< " 0 18) ->
       shortcodes = getShortcodeCompletions (siteWorkspace [] [cardHtml; cardMd])) /\
    (~ openAt "{<" [">"; "}"]%char (Str.substr "{- set $x = {: {< " 0 18) ->
       shortcodes = []) /\
    provideCompletionItems (siteWorkspace [] [cardHtml; cardMd])
                           (oneLine "{- set $x = {: {< ") (cursor 0 18)
    = Ok (Some (itemsOf snippets ++ getControlKeywords ++ common
                ++ getOutputKeywords ++ common ++ shortcodes)).
Proof.
  apply (both_blocks_list_common_twice (siteWorkspace [] [cardHtml; cardMd])
           (oneLine "{- set $x = {: {< ") (cursor 0 18) "{- set $x = {: {< ").
  - reflexivity.
  - exists [], (L " set $x = {: {< "). split; reflexivity.
  - exists (L "{- set $x = "), (L " {< "). split; reflexivity.
  - intros H. apply test_includeRegex in H. discriminate H.
  - reflexivity.
Defined.

(** *** The variable scan on any document *)

Lemma split_pieces sep s :
  Forall (fun x => ~ In sep x /\ incl x s) (Str.split sep s).
Proof.
  induction s as [|c s IH]; cbn [Str.split].
  - constructor; [|constructor]. split; [intros []|apply incl_refl].
  - destruct (Ascii.eqb_spec c sep) as [->|N].
    + constructor; [split; [intros []|intros x []]|].
      eapply Forall_impl; [|exact IH]. intros x [H1 H2]. split; [exact H1|].
      apply incl_tl. exact H2.
    + destruct (Str.split sep s) as [|w ws].
      * constructor; [|constructor]. split.
        -- intros [H|[]]. congruence.
        -- intros x [<-|[]]. now left.
      * inversion IH as [|? ? [H1 H2] Hws]; subst. constructor.
        -- split; [intros [H|H]; [congruence|contradiction]|].
           intros x [<-|Hx]; [now left|right; apply H2; exact Hx].
        -- eapply Forall_impl; [|exact Hws]. intros x [H3 H4]. split; [exact H3|].
           apply incl_tl. exact H4.
Qed.

Lemma trimStart_incl s : incl (Str.trimStart s) s.
Proof.
  destruct (trimStart_suffix s) as [w E]. rewrite E at 2.
  apply incl_appr, incl_refl.
Qed.

Lemma trim_incl s : incl (Str.trim s) s.
Proof.
  unfold Str.trim, Str.trimEnd. intros c Hc.
  apply in_rev in Hc. apply trimStart_incl in Hc. apply in_rev in Hc.
  apply trimStart_incl. exact Hc.
Qed.

Lemma trimStart_head s c r : Str.trimStart s = c :: r -> Str.isSpace c = false.
Proof.
  induction s as [|x s IH]; cbn [Str.trimStart]; [discriminate|].
  destruct (Str.isSpace x) eqn:E; [exact IH|].
  intros H. injection H as <- _. exact E.
Qed.

Lemma trim_ends_solid s : Str.trim s <> [] -> endsSolid (Str.trim s) = true.
Proof.
  unfold Str.trim, Str.trimEnd, endsSolid. rewrite rev_involutive.
  destruct (Str.trimStart (rev (Str.trimStart s))) as [|c r] eqn:E.
  - intros H. now elim H.
  - intros _. apply trimStart_head in E. rewrite E. reflexivity.
Qed.

Lemma name_chars c :
  class_ok false varClass c = true -> c <> ","%char -> isNameChar c = true.
Proof.
  intros H N. ascii_cases c; first [reflexivity | discriminate H | now elim N].
Qed.

Lemma in_char_cs fl c s s' : In s' (m fl (Char c) s) -> caps s' = caps s.
Proof.
  intros H. apply in_step1 in H. destruct H as (x & _ & _ & _ & E). exact E.
Qed.

(** What the binding pattern captures: a run of characters of its class. *)
Lemma varRegex_capture s fin :
  In fin (m noFlags varRegex s) ->
  exists w, caps fin = (1, w) :: caps s /\ Forall inVarClass w.
Proof.
  unfold varRegex. rewrite in_seq. intros (s1 & H1 & H).
  apply in_lit in H1. destruct H1 as (r1 & E1 & ->).
  apply in_seq in H. destruct H as (s2 & H2 & H).
  apply in_star_class_full in H2. destruct H2 as (sp1 & r2 & Es2 & E2 & Hsp1).
  apply in_seq in H. destruct H as (s3 & H3 & H).
  assert (Hc3 : caps s3 = caps s2).
  { cbn [m] in H3. apply in_app_or in H3.
    destruct H3 as [H3|H3]; apply in_lit in H3; destruct H3 as (r3 & _ & ->);
      reflexivity. }
  apply in_seq in H. destruct H as (s4 & H4 & H).
  apply in_plus_class_full in H4. destruct H4 as (sp2 & r4 & Es4 & _).
  apply in_seq in H. destruct H as (s5 & H5 & H6).
  apply in_group in H5. destruct H5 as (y & Hy & ->).
  apply in_plus_class_full in Hy. destruct Hy as (w & r & -> & _ & _ & Hw).
  rewrite set_cap_run in H6.
  assert (Hc6 : caps fin = (1, w) :: caps s4).
  { cbn [m] in H6. apply in_app_or in H6.
    destruct H6 as [H6|H6]; apply in_char_cs in H6; exact H6. }
  exists w. split; [|exact Hw].
  rewrite Hc6, Es4. cbn [caps mk]. rewrite Hc3, Es2. reflexivity.
Qed.

(** Every result of an [exec] loop is a match of the pattern from a
    position with no capture. *)
Lemma exec_loop_results fl r (P : mstate -> Prop) :
  (forall s fin, caps s = [] -> In fin (m fl r s) -> P fin) ->
  forall fuel before after results,
    exec_loop fl r fuel before after = Some results ->
    Forall (fun res => P (final res)) results.
Proof.
  intros HP. induction fuel as [|fuel IH]; intros before after results E;
    cbn [exec_loop] in E; [discriminate|].
  destruct (search_at fl r before after) as [res|] eqn:Es.
  - destruct (length (rest (final res)) <? length after); [|discriminate].
    destruct (exec_loop fl r fuel _ _) as [l|] eqn:El; [|discriminate].
    injection E as <-. constructor; [|eapply IH; exact El].
    apply search_at_some in Es. destruct Es as (sk & af & _ & Hhd & _).
    apply (HP (at_ (rev sk ++ before) af)); [reflexivity|].
    destruct (m fl r _) as [|x l']; [discriminate|]. injection Hhd as ->. now left.
  - injection E as <-. constructor.
Qed.

Lemma group_of_capture res w : caps (final res) = [(1, w)] -> group 1 res = w.
Proof. intros E. unfold group. rewrite E. reflexivity. Qed.

Lemma NoDup_staticLabels : NoDup staticLabels.
Proof.
  unfold staticLabels. cbn [map].
  repeat (constructor; [cbn [In]; intuition discriminate|]). constructor.
Qed.

(** X10.  On every document the common expressions are the static entries
    followed by the scanned names, no label twice; each scanned name starts
    with the sigil, ends with a character that is not white space, and
    holds only the sigil, identifier characters and white space. *)
Theorem common_expressions_shape (document : TextDocument) :
  exists users,
    getCommonExpressions document = Ok (staticExpressions ++ map userVariable users) /\
    NoDup (labelsOf (staticExpressions ++ map userVariable users)) /\
    Forall (fun v => Str.startsWith "$" v = true /\ endsSolid v = true /\
                     forallb isNameChar v = true) users.
Proof.
  destruct (getCommonExpressions_scan document) as (matches & Em & E).
  exists (firstSeen (scannedNames matches)). split; [exact E|]. split.
  - unfold labelsOf. rewrite map_app, map_map. cbn [label userVariable withDetail newItem].
    rewrite map_id. apply NoDup_app.
    + apply NoDup_staticLabels.
    + apply firstSeen_NoDup.
    + intros v Hs Hu. apply user_labels_sigil in Hu.
      apply sigil_absent_from_static in Hu. apply absent_not_in in Hu.
      apply Hu. exact Hs.
  - apply Forall_forall. intros v Hv.
    pose proof (user_labels_sigil _ _ Hv) as Hsig.
    split; [exact Hsig|].
    apply (proj1 (firstSeen_In _ _)) in Hv. unfold scannedNames in Hv.
    apply in_flat_map in Hv. destruct Hv as (mt & Hmt & Hv).
    unfold sigilTokens in Hv. apply filter_In in Hv. destruct Hv as [Hv _].
    apply in_map_iff in Hv. destruct Hv as (piece & <- & Hpiece).
    split.
    + apply trim_ends_solid. destruct (Str.trim piece); discriminate.
    + pose proof (split_pieces ","%char (group 1 mt)) as Hsp.
      rewrite Forall_forall in Hsp. destruct (Hsp _ Hpiece) as [Hcomma Hincl].
      assert (Hcap : Forall inVarClass (group 1 mt)).
      { unfold exec_all in Em.
        pose proof (exec_loop_results noFlags varRegex
                      (fun fin => exists w, caps fin = [(1, w)] /\ Forall inVarClass w)) as X.
        eapply X in Em.
        - rewrite Forall_forall in Em. destruct (Em _ Hmt) as (w & Ew & Hw).
          rewrite (group_of_capture _ _ Ew). exact Hw.
        - intros s fin Hs Hin. apply varRegex_capture in Hin.
          destruct Hin as (w & Ew & Hw). rewrite Hs in Ew. eauto. }
      apply forallb_forall. intros c Hc. apply trim_incl in Hc.
      apply name_chars.
      * rewrite Forall_forall in Hcap. apply Hcap, Hincl, Hc.
      * intros ->. contradiction.
Qed.

(** *** Field candidates on any input *)

Lemma in_star_cs fl neg items greedy s s' :
  In s' (m fl (Star greedy (Class neg items)) s) -> caps s' = caps s.
Proof.
  intros H. apply in_star_class_full in H. destruct H as (w & r & -> & _). reflexivity.
Qed.

(** What the two key patterns capture: a non-empty run of key characters. *)
Lemma key_capture fl tail s fin :
  (forall x y, In y (m fl tail x) -> caps y = caps x) ->
  In fin (m fl (Seq Bol (Seq (Star true ws)
                 (Seq (Group 1 (Plus true (Class false keyChars))) tail))) s) ->
  exists k, caps fin = (1, k) :: caps s /\ k <> [] /\
            Forall (fun c => isKeyChar c = true) k.
Proof.
  intros Htail H. apply in_seq in H. destruct H as (s0 & H0 & H).
  cbn [m] in H0. destruct (at_bol fl s); [|destruct H0]. destruct H0 as [<-|[]].
  apply in_seq in H. destruct H as (s1 & H1 & H).
  apply in_star_cs in H1.
  apply in_seq in H. destruct H as (s2 & H2 & H3).
  apply in_group in H2. destruct H2 as (y & Hy & ->).
  apply in_plus_class_full in Hy. destruct Hy as (k & r & -> & _ & Hne & Hk).
  rewrite set_cap_run in H3. apply Htail in H3. cbn [caps mk] in H3.
  exists k. rewrite H3, H1. auto.
Qed.

Lemma configKeyRegex_capture s fin :
  In fin (m keyFlags configKeyRegex s) ->
  exists k, caps fin = (1, k) :: caps s /\ k <> [] /\
            Forall (fun c => isKeyChar c = true) k.
Proof.
  apply key_capture. intros x y H. apply in_seq in H. destruct H as (z & H1 & H2).
  apply in_star_cs in H1. apply in_char_cs in H2. congruence.
Qed.

Lemma yamlKeyRegex_capture s fin :
  In fin (m keyFlags yamlKeyRegex s) ->
  exists k, caps fin = (1, k) :: caps s /\ k <> [] /\
            Forall (fun c => isKeyChar c = true) k.
Proof. apply key_capture. intros x y H. apply in_char_cs in H. exact H. Qed.

Lemma scanned_keys_identifiers r text results :
  (forall s fin, In fin (m keyFlags r s) ->
     exists k, caps fin = (1, k) :: caps s /\ k <> [] /\
               Forall (fun c => isKeyChar c = true) k) ->
  exec_all keyFlags r text = Some results ->
  Forall (fun res => group 1 res <> [] /\ forallb isKeyChar (group 1 res) = true) results.
Proof.
  intros Hcap E. unfold exec_all in E.
  pose proof (exec_loop_results keyFlags r
                (fun fin => exists k, caps fin = [(1, k)] /\ k <> [] /\
                                      Forall (fun c => isKeyChar c = true) k)) as X.
  eapply X in E.
  - eapply Forall_impl; [|exact E]. intros res (k & Ek & Hne & Hk).
    rewrite (group_of_capture _ _ Ek). split; [exact Hne|].
    apply forallb_forall. rewrite Forall_forall in Hk. exact Hk.
  - intros s fin Hs Hin. apply Hcap in Hin. destruct Hin as (k & Ek & H).
    rewrite Hs in Ek. eauto.
Qed.

Lemma config_items_identifiers w file items0 items outcome :
  Forall identifierField items0 ->
  scanConfig w file items0 = (items, outcome) ->
  Forall identifierField items.
Proof.
  intros H0. unfold scanConfig.
  destruct (openTextDocument w file) as [doc| |];
    try (intros E; injection E as <- _; exact H0).
  destruct (exec paramBlockFlags paramBlockRegex (getText doc)) as [mt|];
    [|intros E; injection E as <- _; exact H0].
  destruct (exec_all keyFlags configKeyRegex (group 1 mt)) as [keyMatches|] eqn:Ek;
    [|intros E; injection E as <- _; exact H0].
  intros E. injection E as <- _. apply Forall_app. split; [exact H0|].
  apply (scanned_keys_identifiers configKeyRegex _ _ configKeyRegex_capture) in Ek.
  apply Forall_forall. intros it Hit. apply in_map_iff in Hit.
  destruct Hit as (res & <- & Hres). rewrite Forall_forall in Ek.
  destruct (Ek _ Hres) as [H1 H2]. repeat split; assumption.
Qed.

Lemma standard_items_identifiers : Forall identifierField (map standardItem standardFields).
Proof.
  repeat constructor; try reflexivity; discriminate.
Qed.

(** X11.  Whatever the root, the document and the configuration file hold, every
    candidate of a dot access is a field whose label is a non-empty
    identifier. *)
Theorem field_candidates_are_identifiers
        (w : Workspace) (parent : str) (document : TextDocument)
        (items : list CompletionItem) :
  getFieldCompletions w parent document = Ok items ->
  Forall identifierField items.
Proof.
  unfold getFieldCompletions.
  destruct (Str.eqb parent "site").
  { intros E. apply Ok_inj in E. subst items.
    repeat constructor; try reflexivity; discriminate. }
  destruct (Str.eqb parent "site.param").
  { unfold getAllayConfigKeys.
    destruct (findFiles w "allay.toml" (Some 1)) as [|file others].
    - intros E. apply Ok_inj in E. subst items. constructor.
    - destruct (scanConfig w file []) as [items' outcome] eqn:Es.
      apply (config_items_identifiers w file [] items' outcome (Forall_nil _)) in Es.
      destruct outcome; intros E; try discriminate; apply Ok_inj in E; subst items;
        exact Es. }
  destruct (Str.eqb parent "" || Str.endsWith "page" parent); [|
    intros E; apply Ok_inj in E; subst items; constructor].
  destruct (frontMatterKeys_total (getText document)) as [keys Ekeys].
  rewrite (getMarkdownPageKeys_keys document keys Ekeys).
  intros E. apply Ok_inj in E. subst items.
  apply Forall_app. split; [apply standard_items_identifiers|].
  unfold frontMatterKeys in Ekeys.
  destruct (exec noFlags yamlRegex (getText document)) as [yamlMatch|].
  - destruct (exec_all keyFlags yamlKeyRegex (group 1 yamlMatch)) as [results|] eqn:Er;
      [|discriminate].
    cbn [option_map] in Ekeys. injection Ekeys as <-.
    apply (scanned_keys_identifiers yamlKeyRegex _ _ yamlKeyRegex_capture) in Er.
    apply Forall_forall. intros it Hit. apply in_map_iff in Hit.
    destruct Hit as (key & <- & Hkey). apply filter_In in Hkey. destruct Hkey as [Hkey _].
    apply in_map_iff in Hkey. destruct Hkey as (res & <- & Hres).
    rewrite Forall_forall in Er. destruct (Er _ Hres) as [H1 H2].
    repeat split; assumption.
  - injection Ekeys as <-. constructor.
Qed.

Lemma field_candidates_are_identifiers_witness :
  Forall identifierField [configItem "author"; configItem "year"].
Proof.
  apply (field_candidates_are_identifiers (configWorkspace plainConfig) "site.param"
           authorPage).
  reflexivity.
Defined.

(** *** Pages without a front-matter block *)

Lemma yamlRegex_inv s fin :
  In fin (m noFlags yamlRegex s) ->
  seen s = [] /\ exists x y, rest s = "---" ++ x ++ "---" ++ y.
Proof.
  unfold yamlRegex. rewrite in_seq. intros (s0 & H0 & H).
  cbn [m] in H0. unfold at_bol in H0. cbn [multiline noFlags andb] in H0.
  destruct (seen s) as [|c sn] eqn:Es; [|destruct H0]. destruct H0 as [<-|[]].
  split; [reflexivity|].
  apply in_seq in H. destruct H as (s1 & H1 & H).
  apply in_lit in H1. destruct H1 as (r1 & E1 & ->).
  apply in_seq in H. destruct H as (s2 & H2 & H).
  apply in_star_class_full in H2. destruct H2 as (w1 & r2 & -> & E2 & _).
  apply in_seq in H. destruct H as (s3 & H3 & H).
  apply in_group in H3. destruct H3 as (y & Hy & ->).
  apply in_star_class_full in Hy. destruct Hy as (body & r3 & -> & E3 & _).
  apply in_seq in H. destruct H as (s4 & H4 & H5).
  apply in_star_class_full in H4. destruct H4 as (w2 & r4 & -> & E4 & _).
  apply in_lit in H5. destruct H5 as (r5 & E5 & _).
  unfold set_cap in *. cbn [rest seen caps mk] in *.
  exists (w1 ++ body ++ w2), r5.
  rewrite E1, E2, E3, E4, E5. repeat rewrite <- app_assoc. reflexivity.
Qed.

Lemma no_block_no_match text :
  unopened text = true \/ unclosed text = true -> exec noFlags yamlRegex text = None.
Proof.
  intros H. unfold exec. apply search_none. intros pre u ->.
  destruct (m noFlags yamlRegex _) as [|fin l] eqn:E; [reflexivity|]. exfalso.
  assert (Hin : In fin (m noFlags yamlRegex (at_ (rev pre ++ []) u)))
    by (rewrite E; now left).
  apply yamlRegex_inv in Hin. destruct Hin as (Hs & x & y & Eu).
  cbn [seen rest at_] in Hs, Eu. rewrite app_nil_r in Hs.
  assert (pre = []) by (destruct pre using rev_ind; [reflexivity|];
                        rewrite rev_app_distr in Hs; discriminate).
  subst pre u. cbn [app] in H.
  destruct H as [H|H].
  - unfold unopened in H. rewrite (startsWith_app "---") in H. discriminate.
  - unfold unclosed in H. apply andb_true_iff in H. destruct H as [_ H].
    change (skipn 3 ("---" ++ x ++ "---" ++ y)) with (x ++ "---" ++ y) in H.
    rewrite occurs_intro in H. discriminate.
Qed.

(** X12.  A page whose text does not start with the front-matter delimiter, or
    whose block is never closed, gets the eight standard fields and no
    custom key. *)
Theorem no_front_matter_standard_only (document : TextDocument) :
  unopened (getText document) = true \/ unclosed (getText document) = true ->
  getMarkdownPageKeys document = Ok (map standardItem standardFields).
Proof.
  intros H. unfold getMarkdownPageKeys.
  rewrite (no_block_no_match _ H). reflexivity.
Qed.

Lemma no_front_matter_standard_only_witness :
  getMarkdownPageKeys (document_of [""; "---"; "author: me"; "---"]%string)
    = Ok (map standardItem standardFields) /\
  getMarkdownPageKeys (document_of ["---"; "author: me"; "--"; "text"]%string)
    = Ok (map standardItem standardFields).
Proof.
  split.
  - apply (no_front_matter_standard_only
             (document_of [""; "---"; "author: me"; "---"]%string)).
    left. reflexivity.
  - apply (no_front_matter_standard_only
             (document_of ["---"; "author: me"; "--"; "text"]%string)).
    right. reflexivity.
Defined.

(** *** The outcome of a request *)

Lemma getAllayConfigKeys_returns w :
  (forall file, openTextDocument w file <> Hang) ->
  exists items, getAllayConfigKeys w = Ok items.
Proof.
  intros Hw. unfold getAllayConfigKeys.
  destruct (findFiles w "allay.toml" (Some 1)) as [|file others]; [eauto|].
  unfold scanConfig. specialize (Hw file).
  destruct (openTextDocument w file) as [doc|e|]; [|eauto|contradiction].
  destruct (exec paramBlockFlags paramBlockRegex (getText doc)) as [mt|]; [|eauto].
  destruct (exec_all_total keyFlags configKeyRegex (group 1 mt)
              configKeyRegex_not_nullable) as [l El].
  rewrite El. eauto.
Qed.

Lemma getFieldCompletions_returns w parent document :
  (forall file, openTextDocument w file <> Hang) ->
  exists items, getFieldCompletions w parent document = Ok items.
Proof.
  intros Hw. unfold getFieldCompletions.
  destruct (Str.eqb parent "site"); [eauto|].
  destruct (Str.eqb parent "site.param"); [apply getAllayConfigKeys_returns, Hw|].
  destruct (Str.eqb parent "" || Str.endsWith "page" parent); [|eauto].
  destruct (frontMatterKeys_total (getText document)) as [keys Ekeys].
  rewrite (getMarkdownPageKeys_keys document keys Ekeys). eauto.
Qed.

(** X9.  On a line of the document a request throws at column 0, where the
    replace span would start left of the line, and returns at every other
    column: the scanning loops always end. *)
Theorem request_fails_only_at_column_zero
        (w : Workspace) (document : TextDocument) (l : nat) (lineText : str) :
  lineAt document (cursor l 0) = Ok lineText ->
  (forall file, openTextDocument w file <> Hang) ->
  provideCompletionItems w document (cursor l 0)
  = Throw "Illegal argument: character must be non-negative" /\
  (forall c, 1 <= c ->
     exists result, provideCompletionItems w document (cursor l c) = Ok result).
Proof.
  intros Hline Hw. split.
  - apply (request_at_column_zero_throws w document l lineText). exact Hline.
  - intros c Hc. unfold provideCompletionItems.
    change (lineAt document (cursor l c)) with (lineAt document (cursor l 0)).
    rewrite Hline. cbn [bind].
    destruct (getBlockCompletions_returns (Str.substr lineText 0 (character (cursor l c)))
                (cursor l c) document Hc) as (snippets & Eblock & _).
    rewrite Eblock. cbn [bind].
    destruct (test noFlags includeRegex _); [eauto|].
    match goal with
    | |- exists r, match ?d with Some _ => _ | None => _ end = _ => destruct d as [dm|]
    end.
    + destruct (getFieldCompletions_returns w (group 1 dm) document Hw) as [items E].
      rewrite E. cbn [bind]. eauto.
    + destruct (common_expressions_returned document) as [common Ecommon].
      rewrite Ecommon.
      destruct (test noFlags commandRegex _); destruct (test noFlags expressionRegex _);
        cbn [bind]; eauto.
Qed.

Lemma request_fails_only_at_column_zero_witness :
  provideCompletionItems (configWorkspace plainConfig) twiceAuthorPage (cursor 5 0)
  = Throw "Illegal argument: character must be non-negative" /\
  (forall c, 1 <= c ->
     exists result,
       provideCompletionItems (configWorkspace plainConfig) twiceAuthorPage (cursor 5 c)
       = Ok result).
Proof.
  apply (request_fails_only_at_column_zero (configWorkspace plainConfig) twiceAuthorPage
           5 "{: ."); [reflexivity|].
  intros file. discriminate.
Defined.

(** *** File names *)

Lemma takeSegment_length s : length (Path.takeSegment s) <= length s.
Proof.
  induction s as [|c s IH]; cbn [Path.takeSegment]; [lia|].
  destruct (Path.isSep c); cbn [length]; lia.
Qed.

Lemma dropSeps_length s : length (Path.dropSeps s) <= length s.
Proof.
  induction s as [|c s IH]; cbn [Path.dropSeps]; [lia|].
  destruct (Path.isSep c); cbn [length]; lia.
Qed.

Lemma base_length p : length (Path.base p) <= length p.
Proof.
  unfold Path.base. rewrite length_rev.
  pose proof (takeSegment_length (Path.dropSeps (rev p))).
  pose proof (dropSeps_length (rev p)). rewrite length_rev in *. lia.
Qed.

Lemma lastDot_bound b : forall k found i,
  Path.lastDot b k found = Some i -> found = Some i \/ (k <= i /\ i < k + length b).
Proof.
  induction b as [|c b IH]; intros k found i H; cbn [Path.lastDot] in H; [now left|].
  apply IH in H. cbn [length]. destruct H as [H|H]; [|right; lia].
  destruct (Ascii.eqb c "."); [|now left].
  injection H as <-. right. lia.
Qed.

Lemma extStart_bound b i : Path.extStart b = Some i -> 0 < i /\ i < length b.
Proof.
  unfold Path.extStart. destruct (Path.lastDot b 0 None) as [j|] eqn:E; [|discriminate].
  apply lastDot_bound in E. destruct E as [E|E]; [discriminate|].
  destruct j as [|j]; [discriminate|].
  destruct (Str.eqb b ".."); [discriminate|].
  intros H. injection H as <-. lia.
Qed.

Lemma endsWith_skipn i b : Str.endsWith (skipn i b) b = true.
Proof. rewrite <- (firstn_skipn i b) at 2. apply endsWith_app. Qed.

Lemma names_agree (file : Uri) :
  Path.rootParent (fsPath file) = false -> shortcodeName file = templateName file.
Proof.
  intros Hroot.
  unfold shortcodeName, templateName, Path.extname, Path.parse_name.
  rewrite Hroot.
  set (p := fsPath file). set (b := Path.base p).
  destruct (Path.extStart b) as [i|] eqn:E; [|reflexivity].
  apply extStart_bound in E. destruct E as [Hi Hb].
  unfold Path.basename. fold b.
  destruct (skipn i b) as [|c e] eqn:Ee.
  { apply (f_equal (@length ascii)) in Ee. rewrite length_skipn in Ee.
    cbn [length] in Ee. lia. }
  rewrite <- Ee.
  assert (Hlen : length (skipn i b) = length b - i) by apply length_skipn.
  replace (Str.eqb (skipn i b) p) with false.
  - rewrite endsWith_skipn. cbn [andb].
    replace (length (skipn i b) <? length b) with true
      by (symmetry; apply Nat.ltb_lt; lia).
    f_equal. lia.
  - symmetry. apply Str_eqb_neq. intros H. apply (f_equal (@length ascii)) in H.
    pose proof (base_length p). fold b in H0. lia.
Qed.

Lemma dropSeps_seps a r : forallb Path.isSep a = true -> Path.dropSeps (a ++ r) = Path.dropSeps r.
Proof.
  induction a as [|c a IH]; intros H; [reflexivity|].
  cbn [forallb] in H. apply andb_true_iff in H. destruct H as [Hc Ha].
  cbn [app Path.dropSeps]. rewrite Hc. apply IH, Ha.
Qed.

Lemma forallb_rev {A} (f : A -> bool) l : forallb f l = true -> forallb f (rev l) = true.
Proof.
  rewrite !forallb_forall. intros H x Hx. apply H. apply in_rev. exact Hx.
Qed.

(** The one path the two derivations split on: [/..], alone or followed by
    separators. *)
Lemma names_at_root_parent (file : Uri) :
  Path.rootParent (fsPath file) = true ->
  shortcodeName file = ".." /\ templateName file = ".".
Proof.
  intros H. unfold shortcodeName, templateName, Path.parse_name. rewrite H.
  split; [|reflexivity].
  unfold Path.rootParent in H.
  destruct (fsPath file) as [|a [|b [|c rest]]] eqn:Ep; try discriminate.
  rewrite !andb_true_iff in H. destruct H as [[[Ha Hb] Hc] Hr].
  unfold Path.isSep in Ha.
  apply Ascii.eqb_eq in Ha, Hb, Hc. subst a b c.
  assert (Eb : Path.base ("/" :: "." :: "." :: rest)%char = "..").
  { unfold Path.base.
    change ("/" :: "." :: "." :: rest)%char with (["/"; "."; "."]%char ++ rest).
    rewrite rev_app_distr, dropSeps_seps by (apply forallb_rev, Hr). reflexivity. }
  unfold Path.extname. rewrite Eb.
  change (Path.extStart "..") with (@None nat). cbv iota.
  unfold Path.basename. exact Eb.
Qed.

(** X14.  On every POSIX path but [/..] (alone or followed by separators)
    the two lookups derive the same name: the base name with its extension removed
    is the name part of the parsed path, so the shortcode lookup labels its
    files as the template lookup would.  At [/..] they differ: the base name
    is [..], the parsed name [.]. *)
Theorem lookup_names_agree (w : Workspace) :
  (forall file, In file (findFiles w "**/shortcodes/*.{html,md}" None) ->
                Path.rootParent (fsPath file) = false) ->
  labelsOf (getShortcodeCompletions w)
  = firstSeen (map templateName (findFiles w "**/shortcodes/*.{html,md}" None)) /\
  (forall file, Path.rootParent (fsPath file) = false ->
                shortcodeName file = templateName file) /\
  (forall file, Path.rootParent (fsPath file) = true ->
                shortcodeName file = ".." /\ templateName file = ".").
Proof.
  intros H. split; [|split].
  - rewrite shortcode_labels. f_equal. apply map_ext_in. intros file Hf.
    apply names_agree, H, Hf.
  - apply names_agree.
  - apply names_at_root_parent.
Qed.

Lemma takeSegment_app a r :
  noneOf ["/"%char] a = true -> Path.takeSegment (a ++ "/"%char :: r) = a.
Proof.
  induction a as [|c a IH]; intros H; [reflexivity|].
  cbn [noneOf forallb] in H. apply andb_true_iff in H. destruct H as [Hc Ha].
  cbn [app Path.takeSegment]. unfold Path.isSep.
  cbn [existsb] in Hc. rewrite orb_false_r in Hc. apply negb_true_iff in Hc.
  rewrite Hc. f_equal. apply IH. exact Ha.
Qed.

Lemma noneOf_rev cs s : noneOf cs (rev s) = noneOf cs s.
Proof.
  unfold noneOf. destruct (forallb _ s) eqn:E.
  - apply forallb_forall. intros x Hx. apply in_rev in Hx.
    rewrite forallb_forall in E. apply E, Hx.
  - destruct (forallb _ (rev s)) eqn:E'; [|reflexivity].
    rewrite <- E. symmetry. apply forallb_forall. intros x Hx.
    rewrite forallb_forall in E'. apply E'. apply in_rev in Hx. exact Hx.
Qed.

Lemma lastDot_app a e : forall k found,
  noneOf ["."%char] e = true ->
  Path.lastDot (a ++ "."%char :: e) k found = Some (k + length a).
Proof.
  induction a as [|c a IH]; intros k found He.
  - cbn [app Path.lastDot length]. rewrite Nat.add_0_r.
    change (Ascii.eqb "." ".") with true. cbv iota.
    generalize (S k) as j.
    induction e as [|x e IHe]; intros j; [reflexivity|].
    cbn [noneOf forallb] in He. apply andb_true_iff in He. destruct He as [Hx He].
    cbn [existsb] in Hx. rewrite orb_false_r in Hx. apply negb_true_iff in Hx.
    cbn [Path.lastDot]. rewrite Hx. apply IHe. exact He.
  - cbn [app Path.lastDot length]. rewrite IH by exact He. f_equal. lia.
Qed.

Lemma wfFile_parts e :
  wfFile e = true ->
  stem e <> [] /\ ext e <> [] /\ noneOf ["/"%char] (stem e) = true /\
  noneOf ["/"%char] (ext e) = true /\ noneOf ["."%char] (ext e) = true.
Proof.
  unfold wfFile. rewrite !andb_true_iff, !negb_true_iff.
  intros [[[H1 H2] H3] H4]. apply Str_eqb_neq in H1, H2.
  repeat split; auto; (eapply noneOf_weaken; [|exact H4]); intros c [<-|[]];
    cbn; auto.
Qed.

Lemma rootParent_chars p c :
  Path.rootParent p = true -> In c p -> c = "/"%char \/ c = "."%char.
Proof.
  unfold Path.rootParent. destruct p as [|a [|b [|d rest]]]; try discriminate.
  rewrite !andb_true_iff. intros [[[Ha Hb] Hd] Hr] Hin.
  unfold Path.isSep in Ha. apply Ascii.eqb_eq in Ha, Hb, Hd. subst a b d.
  destruct Hin as [<-|[<-|[<-|Hin]]]; auto.
  rewrite forallb_forall in Hr. apply Hr in Hin. unfold Path.isSep in Hin.
  apply Ascii.eqb_eq in Hin. now left.
Qed.

Lemma noneOf_one c x s : noneOf [c] s = true -> In x s -> x <> c.
Proof.
  unfold noneOf. rewrite forallb_forall. intros H Hx ->. apply H in Hx.
  cbn [existsb] in Hx. rewrite Ascii.eqb_refl in Hx. discriminate.
Qed.

Lemma path_not_root_parent e : wfFile e = true -> Path.rootParent (fsPath (pathOf e)) = false.
Proof.
  intros H. apply wfFile_parts in H. destruct H as (Hs & He & Hs1 & He1 & He2).
  destruct (Path.rootParent (fsPath (pathOf e))) eqn:E; [|reflexivity].
  destruct (ext e) as [|x r] eqn:Ee; [now elim He|].
  assert (Hx : x = "/"%char \/ x = "."%char).
  { apply (rootParent_chars _ x E). unfold pathOf. cbn [fsPath]. rewrite Ee.
    rewrite !in_app_iff. right. right. right. right. now left. }
  destruct Hx as [-> | ->].
  - exfalso. apply (noneOf_one "/"%char "/"%char ("/"%char :: r) He1); [now left|reflexivity].
  - exfalso. apply (noneOf_one "."%char "."%char ("."%char :: r) He2); [now left|reflexivity].
Qed.

Lemma stem_of_path e : wfFile e = true -> templateName (pathOf e) = stem e.
Proof.
  intros H. pose proof (path_not_root_parent e H) as Hroot.
  apply wfFile_parts in H. destruct H as (Hs & He & Hs1 & He1 & He2).
  unfold templateName, Path.parse_name. rewrite Hroot.
  unfold pathOf. cbn [fsPath].
  assert (Eb : Path.base (dir e ++ "/" ++ stem e ++ "." ++ ext e)
               = stem e ++ "."%char :: ext e).
  { unfold Path.base.
    replace (rev (dir e ++ "/" ++ stem e ++ "." ++ ext e))
      with (rev (stem e ++ "."%char :: ext e) ++ "/"%char :: rev (dir e)).
    - assert (Hn : noneOf ["/"%char] (rev (stem e ++ "."%char :: ext e)) = true).
      { rewrite noneOf_rev, noneOf_app, Hs1. cbn [noneOf forallb].
        fold (noneOf ["/"%char] (ext e)). rewrite He1. reflexivity. }
      replace (Path.dropSeps (rev (stem e ++ "."%char :: ext e) ++ "/"%char :: rev (dir e)))
        with (rev (stem e ++ "."%char :: ext e) ++ "/"%char :: rev (dir e)).
      + rewrite takeSegment_app by exact Hn. apply rev_involutive.
      + destruct (rev (stem e ++ "."%char :: ext e)) as [|c r] eqn:Er.
        * apply (f_equal (@length ascii)) in Er.
          rewrite length_rev, length_app in Er. cbn [length] in Er. lia.
        * cbn [noneOf forallb existsb] in Hn. apply andb_true_iff in Hn.
          destruct Hn as [Hc _]. rewrite orb_false_r in Hc. apply negb_true_iff in Hc.
          cbn [app Path.dropSeps]. unfold Path.isSep. rewrite Hc. reflexivity.
    - change (L "/") with ["/"%char]. change (L ".") with ["."%char].
      rewrite !rev_app_distr. cbn [rev app]. repeat rewrite <- app_assoc. reflexivity. }
  rewrite Eb. unfold Path.extStart.
  rewrite (lastDot_app (stem e) (ext e) 0 None He2). cbn [Nat.add].
  destruct (length (stem e)) as [|n] eqn:El.
  { destruct (stem e); [now elim Hs|discriminate]. }
  replace (Str.eqb (stem e ++ "."%char :: ext e) "..") with false.
  - rewrite <- El, firstn_app, Nat.sub_diag, firstn_all. cbn [firstn].
    apply app_nil_r.
  - symmetry. apply Str_eqb_neq. intros H. apply (f_equal (@length ascii)) in H.
    rewrite length_app in H. cbn [length] in H.
    destruct (ext e); [now elim He|]. cbn in H. lia.
Qed.

(** X15.  The label a lookup gives a file [dir/NAME.EXT] is [NAME], the
    directory and the extension removed: one candidate per template file,
    and one per distinct name for the shortcode files. *)
Theorem lookup_labels_are_file_stems (w : Workspace) (templates shortcodes : list fileEntry) :
  findFiles w "**/templates/*.{html,md}" None = map pathOf templates ->
  findFiles w "**/shortcodes/*.{html,md}" None = map pathOf shortcodes ->
  forallb wfFile templates = true -> forallb wfFile shortcodes = true ->
  labelsOf (getTemplateFileCompletions w) = map stem templates /\
  labelsOf (getShortcodeCompletions w) = firstSeen (map stem shortcodes).
Proof.
  intros Et Es Ht Hs. rewrite template_labels, shortcode_labels, Et, Es, !map_map.
  split; [|f_equal]; apply map_ext_in; intros e He.
  - apply stem_of_path. rewrite forallb_forall in Ht. apply Ht, He.
  - rewrite forallb_forall in Hs.
    rewrite names_agree by (apply path_not_root_parent, Hs, He).
    apply stem_of_path, Hs, He.
Qed.

Lemma lookup_labels_are_file_stems_witness :
  labelsOf (getTemplateFileCompletions (lookupWorkspace (map pathOf [cardHtml; noteMd; cardMd])))
  = map stem [cardHtml; noteMd; cardMd] /\
  labelsOf (getShortcodeCompletions (lookupWorkspace (map pathOf [cardHtml; noteMd; cardMd])))
  = firstSeen (map stem [cardHtml; noteMd; cardMd]).
Proof.
  apply (lookup_labels_are_file_stems
           (lookupWorkspace (map pathOf [cardHtml; noteMd; cardMd]))
           [cardHtml; noteMd; cardMd] [cardHtml; noteMd; cardMd]); reflexivity.
Defined.

Lemma lookup_names_agree_witness :
  (forall file, In file (map pathOf [cardHtml; noteMd; cardMd]) ->
                Path.rootParent (fsPath file) = false) /\
  labelsOf (getShortcodeCompletions (lookupWorkspace (map pathOf [cardHtml; noteMd; cardMd])))
  = firstSeen (map templateName (map pathOf [cardHtml; noteMd; cardMd])).
Proof.
  assert (H : forall file, In file (map pathOf [cardHtml; noteMd; cardMd]) ->
                           Path.rootParent (fsPath file) = false).
  { intros file [<-|[<-|[<-|[]]]]; reflexivity. }
  split; [exact H|].
  exact (proj1 (lookup_names_agree
                  (lookupWorkspace (map pathOf [cardHtml; noteMd; cardMd])) H)).
Defined.

Lemma lookup_stems (w : Workspace) (templates shortcodes : list fileEntry) :
  findFiles w "**/templates/*.{html,md}" None = map pathOf templates ->
  findFiles w "**/shortcodes/*.{html,md}" None = map pathOf shortcodes ->
  forallb wfFile templates = true -> forallb wfFile shortcodes = true ->
  labelsOf (getTemplateFileCompletions w) = map stem templates /\
  labelsOf (getShortcodeCompletions w) = firstSeen (map stem shortcodes).
Proof.
  intros Et Es Ht Hs. rewrite template_labels, shortcode_labels, Et, Es, !map_map.
  split; [|f_equal]; apply map_ext_in; intros e He.
  - apply stem_of_path. rewrite forallb_forall in Ht. apply Ht, He.
  - rewrite forallb_forall in Hs.
    rewrite names_agree by (apply path_not_root_parent, Hs, He).
    apply stem_of_path, Hs, He.
Qed.

(** C9.  Whatever files [DIR/NAME.EXT] are enumerated, the shortcode lookup
    merges the files of equal [NAME]: its labels are the distinct names,
    each once, in first-seen order, so [card.html] and [card.md] give one
    candidate [card].  The template lookup merges nothing: it yields one
    candidate per file, labelled with the file's [NAME], so a name carried
    by k files is the label of k candidates, and [templates/x/a.html] and
    [templates/y/a.html] give two candidates labelled [a]. *)
Theorem shortcodes_merged_templates_not (w : Workspace) (templates shortcodes : list fileEntry) :
  findFiles w "**/templates/*.{html,md}" None = map pathOf templates ->
  findFiles w "**/shortcodes/*.{html,md}" None = map pathOf shortcodes ->
  forallb wfFile templates = true -> forallb wfFile shortcodes = true ->
  (labelsOf (getShortcodeCompletions w) = firstSeen (map stem shortcodes) /\
   length (getShortcodeCompletions w) = length (nodup str_dec (map stem shortcodes)) /\
   (forall e, In e shortcodes ->
      count_occ str_dec (labelsOf (getShortcodeCompletions w)) (stem e) = 1) /\
   (forall name, In name (labelsOf (getShortcodeCompletions w)) ->
      exists e, In e shortcodes /\ stem e = name)) /\
  (labelsOf (getTemplateFileCompletions w) = map stem templates /\
   length (getTemplateFileCompletions w) = length templates /\
   (forall name, count_occ str_dec (labelsOf (getTemplateFileCompletions w)) name
                 = length (filter (fun e => Str.eqb (stem e) name) templates))) /\
  labelsOf (getTemplateFileCompletions (siteWorkspace [xTemplate; yTemplate] []))
  = [L "a"; L "a"].
Proof.
  intros Et Es Ht Hs.
  destruct (lookup_stems w templates shortcodes Et Es Ht Hs) as [Lt Ls].
  split; [|split; [|reflexivity]].
  - split; [exact Ls|]. split; [|split].
    + rewrite <- (length_map label). change (map label) with labelsOf.
      rewrite Ls. apply firstSeen_length.
    + intros e He. rewrite Ls. apply NoDup_count_occ'; [apply firstSeen_NoDup|].
      apply firstSeen_In. apply in_map, He.
    + intros name Hn. rewrite Ls in Hn. apply (proj1 (firstSeen_In _ _)) in Hn.
      apply in_map_iff in Hn. destruct Hn as (e & E & He). now exists e.
  - split; [exact Lt|]. split.
    + rewrite <- (length_map label). change (map label) with labelsOf.
      rewrite Lt. apply length_map.
    + intros name. rewrite Lt. clear.
      induction templates as [|e l IH]; [reflexivity|].
      cbn [map count_occ filter].
      destruct (str_dec (stem e) name) as [E|E].
      * subst name. rewrite (proj2 (Str_eqb_eq _ _) eq_refl). cbn [length].
        f_equal. exact IH.
      * replace (Str.eqb (stem e) name) with false; [exact IH|].
        symmetry. apply Str_eqb_neq. exact E.
Qed.

Lemma shortcodes_merged_templates_not_witness :
  (labelsOf (getShortcodeCompletions (siteWorkspace [xTemplate; yTemplate] [cardHtml; noteMd; cardMd]))
   = [L "card"; L "note.v2"] /\
   labelsOf (getTemplateFileCompletions (siteWorkspace [xTemplate; yTemplate] [cardHtml; noteMd; cardMd]))
   = [L "a"; L "a"]) /\
  count_occ str_dec
    (labelsOf (getShortcodeCompletions (siteWorkspace [xTemplate; yTemplate] [cardHtml; noteMd; cardMd])))
    (stem cardMd) = 1.
Proof.
  pose proof (shortcodes_merged_templates_not
                (siteWorkspace [xTemplate; yTemplate] [cardHtml; noteMd; cardMd])
                [xTemplate; yTemplate] [cardHtml; noteMd; cardMd]
                eq_refl eq_refl eq_refl eq_refl) as H.
  destruct H as [[Ls [_ [Hc _]]] [[Lt _] _]].
  split; [split; [exact Ls | exact Lt]|].
  apply Hc. right. right. now left.
Defined.

(** *** The extension: one server, tied to the panel *)

Lemma alive_emit l e :
  Extension.alive (l ++ [e]) = Extension.track (Extension.alive l) e.
Proof. unfold Extension.alive. rewrite fold_left_app. reflexivity. Qed.

Lemma remove_only p l : l = [p] \/ l = [] -> remove Nat.eq_dec p l = [].
Proof.
  intros [-> | ->]; cbn; [|reflexivity].
  destruct (Nat.eq_dec p p); [reflexivity|contradiction].
Qed.

Ltac ext_simpl :=
  cbn [Extension.emit Extension.setServerProcess Extension.setPreviewPanel
       Extension.spawn Extension.createWebviewPanel
       Extension.serverProcess Extension.previewPanel Extension.effects
       Extension.nextProcess Extension.nextPanel fst snd] in *;
  repeat rewrite alive_emit in *;
  cbn [Extension.track] in *.

(** Starting the service kills the process held, if any, and leaves the new
    one as the only process alive. *)
Lemma startService_steady env projectRoot st :
  match Extension.serverProcess st with
  | Some process =>
      Extension.alive (Extension.effects st) = [process]
      \/ Extension.alive (Extension.effects st) = []
  | None => Extension.alive (Extension.effects st) = []
  end ->
  exists process,
    Extension.serverProcess (Extension.startService env projectRoot st) = Some process /\
    Extension.alive (Extension.effects (Extension.startService env projectRoot st))
    = [process] /\
    Extension.previewPanel (Extension.startService env projectRoot st)
    = Extension.previewPanel st.
Proof.
  intros H. unfold Extension.startService.
  destruct (Extension.serverProcess st) as [p|] eqn:E; ext_simpl.
  - rewrite (remove_only p _ H). eexists. repeat split.
  - rewrite H. eexists. repeat split.
Qed.

Lemma onDidDispose_steady st :
  steady st -> steady (Extension.onDidDispose st) /\
               Extension.alive (Extension.effects (Extension.onDidDispose st)) = [] /\
               Extension.serverProcess (Extension.onDidDispose st) = None /\
               Extension.previewPanel (Extension.onDidDispose st) = None.
Proof.
  intros [H1 H2]. unfold Extension.onDidDispose, steady.
  destruct (Extension.serverProcess st) as [p|] eqn:E; ext_simpl.
  - rewrite (remove_only p _ H1). repeat split; reflexivity.
  - rewrite E. ext_simpl. repeat split; auto.
Qed.

Lemma previewCommand_steady env st : steady st -> steady (Extension.previewCommand env st).
Proof.
  intros [H1 H2]. unfold Extension.previewCommand.
  destruct (Extension.projectRootOf env) as [root|].
  - ext_simpl. destruct (Extension.previewPanel st) as [panel|] eqn:Ep.
    + unfold steady. ext_simpl. rewrite Ep. split; [exact H1|exact H2].
    + match goal with
      | |- steady (Extension.emit _ (Extension.startService env root ?s)) =>
          destruct (startService_steady env root s) as (p & Es & Ea & Epp)
      end.
      { ext_simpl. exact H1. }
      unfold steady. ext_simpl. rewrite Es, Ea, Epp. ext_simpl.
      split; [now left|]. split; discriminate.
  - unfold steady. ext_simpl. split; [exact H1|exact H2].
Qed.

Lemma restartCommand_steady env st : steady st -> steady (Extension.restartCommand env st).
Proof.
  intros [H1 H2]. unfold Extension.restartCommand.
  destruct (Extension.serverProcess st) as [p|] eqn:E;
    [|unfold steady; rewrite E; split; assumption].
  destruct (Extension.projectRootOf env) as [root|].
  - destruct (startService_steady env root (Extension.emit (Extension.Kill p) st))
      as (q & Es & Ea & Epp).
    { ext_simpl. rewrite E. right. apply remove_only. exact H1. }
    ext_simpl. rewrite Epp.
    assert (Hp : Extension.previewPanel st <> None).
    { intros Hn. apply H2 in Hn. discriminate. }
    destruct (Extension.previewPanel st) as [panel|] eqn:Ep; [|contradiction].
    unfold steady. ext_simpl. rewrite Es, Ea, Epp. split; [now left|].
    split; discriminate.
  - unfold steady. ext_simpl. rewrite E. split; [|exact H2].
    right. apply remove_only. exact H1.
Qed.

Lemma deactivate_steady st :
  steady st -> steady (Extension.deactivate st) /\
               Extension.alive (Extension.effects (Extension.deactivate st)) = [].
Proof.
  intros [H1 H2]. unfold Extension.deactivate.
  destruct (Extension.serverProcess st) as [p|] eqn:E.
  - ext_simpl.
    assert (Hp : Extension.previewPanel st <> None).
    { intros Hn. apply H2 in Hn. discriminate. }
    destruct (Extension.previewPanel st) as [panel|] eqn:Ep; [|contradiction].
    match goal with
    | |- steady (Extension.onDidDispose ?s) /\ _ =>
        destruct (onDidDispose_steady s) as (Hs & Ha & _)
    end.
    { unfold steady. ext_simpl. rewrite E, Ep. split; [|split; discriminate].
      right. apply remove_only. exact H1. }
    split; assumption.
  - assert (Hp : Extension.previewPanel st = None) by (apply H2; reflexivity).
    rewrite Hp. split; [|exact H1]. unfold steady. rewrite E. split; [exact H1|exact H2].
Qed.

Lemma step_steady env ev st : steady st -> steady (Extension.step env ev st).
Proof.
  intros H. destruct ev as [| |command url| |]; cbn [Extension.step].
  - apply previewCommand_steady, H.
  - apply restartCommand_steady, H.
  - destruct (Extension.previewPanel st) eqn:Ep; [|exact H].
    unfold Extension.onDidReceiveMessage.
    destruct (Str.eqb command "openExternal"); [|exact H].
    destruct url as [u|]; [|exact H]. destruct (Str.eqb u []); [exact H|].
    destruct H as [H1 H2]. unfold steady. ext_simpl. split; assumption.
  - destruct (Extension.previewPanel st); [|exact H]. apply onDidDispose_steady, H.
  - apply deactivate_steady, H.
Qed.

Lemma run_steady events : forall st, steady st -> steady (Extension.run events st).
Proof.
  induction events as [|[env ev] events IH]; intros st H; [exact H|].
  cbn [Extension.run]. apply IH, step_steady, H.
Qed.

Lemma reachable_steady st : reachable st -> steady st.
Proof.
  intros (events & ->). apply run_steady. split; [reflexivity|]. split; reflexivity.
Qed.

(** X16.  Whatever the commands and events so far, at most one server process
    started by the extension has not been killed, and it is the one the
    extension holds. *)
Theorem at_most_one_server (st : Extension.State) : reachable st -> oneServer st.
Proof.
  intros H. apply reachable_steady in H. destruct H as [H _]. unfold oneServer.
  destruct (Extension.serverProcess st) as [p|]; [|now left].
  destruct H as [H|H]; [right; exists p; auto|now left].
Qed.

Lemma at_most_one_server_witness : oneServer (Extension.run session Extension.initial).
Proof.
  apply (at_most_one_server (Extension.run session Extension.initial)).
  exists session. reflexivity.
Defined.

(** X17.  The extension holds a server process exactly when it holds a preview
    panel. *)
Theorem panel_and_server_together (st : Extension.State) :
  reachable st ->
  (Extension.previewPanel st = None <-> Extension.serverProcess st = None).
Proof. intros H. apply reachable_steady in H. apply H. Qed.

Lemma panel_and_server_together_witness :
  Extension.previewPanel (Extension.run session Extension.initial) = None
  <-> Extension.serverProcess (Extension.run session Extension.initial) = None.
Proof.
  apply (panel_and_server_together (Extension.run session Extension.initial)).
  exists session. reflexivity.
Defined.

(** X18.  Closing the preview panel, or deactivating the extension, leaves no
    server process alive. *)
Theorem closing_stops_the_server (st : Extension.State) (env : Extension.Env) :
  reachable st ->
  Extension.alive (Extension.effects (Extension.step env Extension.PanelClosed st)) = [] /\
  Extension.alive (Extension.effects (Extension.step env Extension.Deactivate st)) = [].
Proof.
  intros H. apply reachable_steady in H. split; cbn [Extension.step].
  - destruct (Extension.previewPanel st) eqn:Ep.
    + apply onDidDispose_steady, H.
    + destruct H as [H1 H2]. rewrite (proj1 H2 Ep) in H1. exact H1.
  - apply deactivate_steady, H.
Qed.

Lemma closing_stops_the_server_witness :
  Extension.alive (Extension.effects
    (Extension.step siteEnv Extension.PanelClosed (Extension.run session Extension.initial)))
  = [] /\
  Extension.alive (Extension.effects
    (Extension.step siteEnv Extension.Deactivate (Extension.run session Extension.initial)))
  = [].
Proof.
  apply (closing_stops_the_server (Extension.run session Extension.initial) siteEnv).
  exists session. reflexivity.
Defined.

(** X19.  With no preview panel open the restart command does nothing. *)
Theorem restart_needs_a_preview (st : Extension.State) (env : Extension.Env) :
  reachable st -> Extension.previewPanel st = None ->
  Extension.step env Extension.RestartCommand st = st.
Proof.
  intros H Hp. apply reachable_steady in H. destruct H as [_ H].
  cbn [Extension.step]. unfold Extension.restartCommand.
  rewrite (proj1 H Hp). reflexivity.
Qed.

Lemma restart_needs_a_preview_witness :
  Extension.step siteEnv Extension.RestartCommand
    (Extension.run [(siteEnv, Extension.PreviewCommand); (siteEnv, Extension.PanelClosed)]
                   Extension.initial)
  = Extension.run [(siteEnv, Extension.PreviewCommand); (siteEnv, Extension.PanelClosed)]
                  Extension.initial.
Proof.
  apply (restart_needs_a_preview
           (Extension.run [(siteEnv, Extension.PreviewCommand);
                           (siteEnv, Extension.PanelClosed)] Extension.initial) siteEnv).
  - eexists. reflexivity.
  - reflexivity.
Defined.

Lemma allayExecutable_nonempty env : Extension.allayExecutable env <> [].
Proof.
  unfold Extension.allayExecutable.
  destruct (Extension.configuredPath env) as [path|]; [|discriminate].
  destruct (Str.eqb path []) eqn:E; [discriminate|]. apply Str_eqb_neq. exact E.
Qed.

Ltac serve_steps :=
  ext_simpl;
  repeat (apply Forall_app; split; [|constructor; [exact I|constructor]]).

Lemma startService_serves env projectRoot st :
  Forall serveCommand (Extension.effects st) ->
  Forall serveCommand (Extension.effects (Extension.startService env projectRoot st)).
Proof.
  intros H. unfold Extension.startService.
  destruct (Extension.serverProcess st); ext_simpl;
    (apply Forall_app; split;
     [|constructor; [split; [apply allayExecutable_nonempty|reflexivity]|constructor]]);
    serve_steps; exact H.
Qed.

Lemma onDidDispose_serves st :
  Forall serveCommand (Extension.effects st) ->
  Forall serveCommand (Extension.effects (Extension.onDidDispose st)).
Proof.
  intros H. unfold Extension.onDidDispose.
  destruct (Extension.serverProcess st); serve_steps; exact H.
Qed.

Lemma step_serves env ev st :
  Forall serveCommand (Extension.effects st) ->
  Forall serveCommand (Extension.effects (Extension.step env ev st)).
Proof.
  intros H. destruct ev as [| |command url| |]; cbn [Extension.step].
  - unfold Extension.previewCommand.
    destruct (Extension.projectRootOf env) as [root|]; [|serve_steps; exact H].
    ext_simpl. destruct (Extension.previewPanel st); [serve_steps; exact H|].
    ext_simpl. apply Forall_app. split; [|constructor; [exact I|constructor]].
    apply startService_serves. serve_steps. exact H.
  - unfold Extension.restartCommand.
    destruct (Extension.serverProcess st) as [p|]; [|exact H].
    destruct (Extension.projectRootOf env) as [root|]; [|serve_steps; exact H].
    assert (X : Forall serveCommand
                  (Extension.effects
                     (Extension.startService env root
                        (Extension.emit (Extension.Kill p) st)))).
    { apply startService_serves. serve_steps. exact H. }
    ext_simpl.
    destruct (Extension.previewPanel _); serve_steps; exact X.
  - destruct (Extension.previewPanel st); [|exact H].
    unfold Extension.onDidReceiveMessage.
    destruct (Str.eqb command "openExternal"); [|exact H].
    destruct url as [u|]; [|exact H]. destruct (Str.eqb u []); [exact H|].
    serve_steps. exact H.
  - destruct (Extension.previewPanel st); [|exact H]. apply onDidDispose_serves, H.
  - unfold Extension.deactivate.
    destruct (Extension.serverProcess st) as [p|]; ext_simpl;
      (destruct (Extension.previewPanel st); [apply onDidDispose_serves|]);
      serve_steps; exact H.
Qed.

(** X20.  Every start of the server is [EXECUTABLE --root ROOT serve] run in
    [ROOT], and the executable is never empty: an unset or empty
    [allay.path] falls back on [allay]. *)
Theorem spawned_command_line (st : Extension.State) :
  reachable st -> Forall serveCommand (Extension.effects st).
Proof.
  intros (events & ->).
  assert (X : forall st, Forall serveCommand (Extension.effects st) ->
              Forall serveCommand (Extension.effects (Extension.run events st))).
  { induction events as [|[env ev] events IH]; intros st H; [exact H|].
    cbn [Extension.run]. apply IH, step_serves, H. }
  apply X. constructor.
Qed.

Lemma spawned_command_line_witness :
  Forall serveCommand (Extension.effects (Extension.run session Extension.initial)).
Proof.
  apply (spawned_command_line (Extension.run session Extension.initial)).
  exists session. reflexivity.
Defined.

Example session_servers :
  filter isSpawn (Extension.effects (Extension.run session Extension.initial))
  = [ Extension.Spawn 0 "allay" [L "--root"; L "/site"; L "serve"] "/site";
      Extension.Spawn 1 "allay" [L "--root"; L "/site"; L "serve"] "/site";
      Extension.Spawn 2 "allay" [L "--root"; L "/site"; L "serve"] "/site" ] /\
  Extension.alive (Extension.effects (Extension.run session Extension.initial)) = [2].
Proof. split; reflexivity. Qed.

(** *** Two earlier lemmas at work *)

Lemma config_keys_of_file_witness :
  getAllayConfigKeys (configWorkspace plainConfig)
  = Ok (map configItem (Config.keys plainFile)).
Proof.
  apply (config_keys_of_file (configWorkspace plainConfig)
           {| fsPath := "/site/allay.toml" |} [] plainConfig plainFile); reflexivity.
Defined.

Lemma accumulated_list_never_empty_witness :
  provideCompletionItems emptyWorkspace (oneLine "<p>{< fig") (cursor 0 9) <> Ok (Some []).
Proof.
  apply (accumulated_list_never_empty emptyWorkspace (oneLine "<p>{< fig") (cursor 0 9)).
  intros lineText H. apply Ok_inj in H. subst lineText. split; reflexivity.
Defined.
